(** * Linear-chain CRF layer and span-based F1 evaluator

    A shallow embedding of [src/modules.py] and the properties its
    specification states.

    Definitions:
    - [Py]        Python exceptions as values, negative indexing, [range].
    - [Torch]     the tensor operations the CRF uses: a tensor is a shape
                  together with an indexing function; reductions over one
                  dimension ([sum], [max] with its argmax, [mean]); the
                  allocation and initialisation calls of the constructor.
    - [CRF]       the class [CRF]: [__init__], [forward], [loss],
                  [_sequence_score], [_partition_function], [_viterbi],
                  [_log_sum_exp].
    - [F1]        the function [f1_score] over a store of shared Python lists.
    - [Spec]      the score of Section 4.2, the enumeration of all tag
                  sequences, and the loop states the proofs speak about.
    - [Examples]  concrete inputs.

    Proofs:
    - [Reductions], [Paths], [Scorer], [Forward], [Viterbi]: the dynamic
      programs; [CRFSpec]: the properties of the CRF layer.
    - [Passes]: the two passes of [f1_score]; [F1Spec]: its properties.

    Scores are exact reals: rounding, overflow and NaN of the float tensors
    are outside this model. *)

From Stdlib Require Import Reals Lra Lia List ZArith QArith String Ascii Bool Arith.
From Stdlib Require Lqa SpecFloat.
From stdpp Require Import gmap strings.
Import ListNotations.

(* ------------------------------------------------------------------ *)
(** * Python: exceptions, indexing, ranges *)
(* ------------------------------------------------------------------ *)

Module Py.

(** The exceptions the modelled code can raise, with the message (or the
    operation) that identifies the raising statement. *)
Inductive exn : Type :=
| ValueError (msg : string)
| IndexError (msg : string)
| RuntimeError (msg : string)
| ZeroDivisionError (msg : string)
| AssertionError (msg : string).

Inductive result (A : Type) : Type :=
| Ok (a : A)
| Raise (e : exn).
Arguments Ok {A} a.
Arguments Raise {A} e.

Definition bind {A B : Type} (m : result A) (k : A -> result B) : result B :=
  match m with
  | Ok a => k a
  | Raise e => Raise e
  end.

Definition is_ValueError {A : Type} (r : result A) : Prop :=
  match r with
  | Raise (ValueError _) => True
  | _ => False
  end.

(** [l[i]] for a Python list: indices [-len .. len-1] are valid, a negative
    index counts from the end, anything else raises [IndexError]. *)
Definition index {A : Type} (l : list A) (i : Z) : option A :=
  let n := Z.of_nat (List.length l) in
  if (0 <=? i)%Z && (i <? n)%Z then nth_error l (Z.to_nat i)
  else if (- n <=? i)%Z && (i <? 0)%Z then nth_error l (Z.to_nat (n + i))
  else None.

(** [range(a, b)] *)
Definition range (a b : Z) : list Z :=
  map (fun k => (a + Z.of_nat k)%Z) (seq 0 (Z.to_nat (b - a))).

End Py.

Notation "'let*' x ':=' m 'in' k" := (Py.bind m (fun x => k))
  (at level 10, x name, m at level 100, k at level 200).

(* ------------------------------------------------------------------ *)
(** * Torch: tensors and the reductions used by the CRF *)
(* ------------------------------------------------------------------ *)

Module Torch.

(** A tensor: its shape and its entries, read by a multi-index.  Only the
    entries at indices inside the shape are meaningful. *)
Record tensor (A : Type) : Type := Tensor { shape : list nat; data : list nat -> A }.
Arguments Tensor {A} shape data.
Arguments shape {A} t.
Arguments data {A} t idx.

Definition at1 {A} (t : tensor A) (b : nat) : A := data t [b].
Definition at2 {A} (t : tensor A) (b i : nat) : A := data t [b; i].
Definition at3 {A} (t : tensor A) (b i j : nat) : A := data t [b; i; j].

(** A one-dimensional tensor of size [n]. *)
Definition vec {A} (n : nat) (f : nat -> A) : tensor A :=
  Tensor [n] (fun idx => f (hd 0%nat idx)).

(** [x.sum(dim)] over a dimension of size [n]: the sum of [f 0 .. f (n-1)]. *)
Fixpoint sum_dim (n : nat) (f : nat -> R) : R :=
  match n with
  | O => 0%R
  | S n' => (sum_dim n' f + f n')%R
  end.

(** [x.max(dim)] over a dimension of size [S c]: the maximal value among
    [g 0 .. g c] and the first index holding it.  (A reduction over a
    dimension of size 0 raises; callers test for it.) *)
Fixpoint max_dim (c : nat) (g : nat -> R) : R * nat :=
  match c with
  | O => (g 0%nat, 0%nat)
  | S c' =>
      let '(m, k) := max_dim c' g in
      if Rlt_dec m (g (S c')) then (g (S c'), S c') else (m, k)
  end.

(** [x.mean()] of a one-dimensional tensor. *)
Definition mean (t : tensor R) : R :=
  let n := hd 0%nat (shape t) in
  (sum_dim n (at1 t) / INR n)%R.

(** Elementwise difference of two one-dimensional tensors of one size. *)
Definition sub1 (x y : tensor R) : tensor R :=
  vec (hd 0%nat (shape x)) (fun b => (at1 x b - at1 y b)%R).

(** [torch.cat(ts, 1)] of tensors of shape [[B, 1]], each given by its
    column: the result has shape [[B, len(ts)]]. *)
Definition cat1 {A} (d : A) (B : nat) (ts : list (nat -> A)) : tensor A :=
  Tensor [B; List.length ts]
         (fun idx => match idx with
                     | [b; i] => nth i ts (fun _ => d) b
                     | _ => d
                     end).

(** All [(b, i)] with [b < B] and [i < L] satisfy [p]. *)
Definition all2 (B L : nat) (p : nat -> nat -> bool) : bool :=
  forallb (fun b => forallb (p b) (seq 0 L)) (seq 0 B).

(** [torch.Tensor(n, m)]: an uninitialised [n x m] tensor; a negative
    size is rejected. *)
Definition Tensor2 (n m : Z) : Py.result (nat * nat) :=
  if ((n <? 0) || (m <? 0))%Z
  then Py.Raise (Py.RuntimeError "Trying to create tensor with negative dimension")
  else Py.Ok (Z.to_nat n, Z.to_nat m).

(** The values drawn by the random initialisers. *)
Record rng : Type := Rng {
  randn : nat -> nat -> R;          (* k-th call of torch.randn, position *)
  normal : R -> nat -> nat -> R     (* normal_(0, std) at row, column *)
}.

(** [nn.init.xavier_normal_] on an [n x m] tensor: the standard deviation is
    [sqrt(2.0 / float(fan_in + fan_out))] with [fan_in = m], [fan_out = n],
    a Python float division, which raises when both are 0. *)
Definition xavier_normal_ (g : rng) (n m : nat) : Py.result (nat -> nat -> R) :=
  if (m + n =? 0)%nat
  then Py.Raise (Py.ZeroDivisionError "float division by zero")
  else Py.Ok (normal g (sqrt (2 / INR (m + n)))).

End Torch.

(* ------------------------------------------------------------------ *)
(** * The class CRF *)
(* ------------------------------------------------------------------ *)

Module CRF.
Import Py Torch.
Local Open Scope R_scope.

(** The parameters of the layer.  [transitions] has shape
    [[num_tags, num_tags]] (from, to), [start_transitions] and
    [stop_transitions] have shape [[num_tags]]; they are read at indices
    below [num_tags], which every access checks.  [num_tags] is a natural
    number: the constructor rejects a negative one. *)
Record CRF : Type := Build {
  num_tags : nat;
  transitions : nat -> nat -> R;
  start_transitions : nat -> R;
  stop_transitions : nat -> R
}.

(** [CRF.__init__] *)
Definition __init__ (g : rng) (num_tags : Z) : result CRF :=
  let* dims := Tensor2 num_tags num_tags in
  let start := randn g 0%nat in
  let stop := randn g 1%nat in
  let* trans := xavier_normal_ g (fst dims) (snd dims) in
  Ok (Build (Z.to_nat num_tags) trans start stop).

(** [CRF._log_sum_exp(logits, dim)] on one slice [g 0 .. g c] of the
    reduced dimension. *)
Definition _log_sum_exp (c : nat) (g : nat -> R) : R :=
  let max_val := fst (max_dim c g) in
  max_val + ln (sum_dim (S c) (fun k => exp (g k - max_val))).

(** [CRF._sequence_score].  [gather] needs the index tensor to fit inside
    [feats] and every index to be a valid tag column; [unfold(1, 2, 1)]
    needs at least one window of size 2, that is a sequence length of at
    least 2; indexing [transitions], [start_transitions] and
    [stop_transitions] needs every tag below [num_tags].  Tag ids are
    natural numbers (a negative id is rejected by [gather]).  The only
    caller, [loss], passes a rank-3 [feats] and a rank-2 [tags]. *)
Definition _sequence_score (self : CRF) (feats : tensor R) (tags : tensor nat)
  : result (tensor R) :=
  match shape feats, shape tags with
  | [B; L; C], [B'; L'] =>
      if negb ((B' <=? B)%nat && (L' <=? L)%nat)
      then Raise (RuntimeError "gather: size of index exceeds size of input")
      else if negb (all2 B' L' (fun b i => (at2 tags b i <? C)%nat))
      then Raise (RuntimeError "gather: index out of bounds")
      else if (L' <? 2)%nat
      then Raise (RuntimeError "unfold: maximum size for tensor at dimension 1 is smaller than size 2")
      else if negb (all2 B' L' (fun b i => (at2 tags b i <? num_tags self)%nat))
      then Raise (IndexError "index is out of bounds for dimension with size num_tags")
      else
        Ok (vec B' (fun b =>
          let feat_score := sum_dim L' (fun i => at3 feats b i (at2 tags b i)) in
          let trans_score :=
            sum_dim (L' - 1) (fun w => transitions self (at2 tags b w) (at2 tags b (w + 1))) in
          let start_score := start_transitions self (at2 tags b 0) in
          let stop_score := stop_transitions self (at2 tags b (L' - 1)) in
          feat_score + start_score + trans_score + stop_score))
  | _, _ => Raise (RuntimeError "gather: index and input must have the same number of dimensions")
  end.

(** One iteration of the loop of [_partition_function]. *)
Definition forward_step (self : CRF) (feats : tensor R) (c : nat)
           (a : nat -> nat -> R) (i : nat) : nat -> nat -> R :=
  fun b j =>
    _log_sum_exp c (fun k => a b k + transitions self k j + at3 feats b i j).

(** [CRF._partition_function] *)
Definition _partition_function (self : CRF) (feats : tensor R) : result (tensor R) :=
  match shape feats with
  | [B; seq_size; ntags] =>
      if negb (num_tags self =? ntags)%nat
      then Raise (ValueError "num_tags should be {} but got {}")
      else
        match seq_size, ntags with
        | O, _ => Raise (IndexError "index 0 is out of bounds for dimension 1 with size 0")
        | S _, O => Raise (IndexError "max(): Expected reduction dim 1 to have non-zero size")
        | S _, S c =>
            let a0 := fun b j => at3 feats b 0 j + start_transitions self j in
            let a := fold_left (forward_step self feats c) (seq 1 (seq_size - 1)) a0 in
            Ok (vec B (fun b => _log_sum_exp c (fun j => a b j + stop_transitions self j)))
        end
  | _ => Raise (ValueError "wrong number of values to unpack (expected 3)")
  end.

(** One iteration of the forward loop of [_viterbi]: the state is the
    score tensor [v] and the list [paths] of back-pointer tensors. *)
Definition viterbi_step (self : CRF) (feats : tensor R) (c : nat)
           (st : (nat -> nat -> R) * list (nat -> nat -> nat)) (i : nat)
  : (nat -> nat -> R) * list (nat -> nat -> nat) :=
  let '(v, paths) := st in
  let best := fun b j => max_dim c (fun k => v b k + transitions self k j) in
  (fun b j => fst (best b j) + at3 feats b i j,
   paths ++ [fun b j => snd (best b j)]).

(** One iteration of the backtracking loop: [tag = idx.gather(1, tag)]
    and [tags.append(tag)]. *)
Definition backtrack_step (st : (nat -> nat) * list (nat -> nat))
           (idx : nat -> nat -> nat) : (nat -> nat) * list (nat -> nat) :=
  let '(tag, tags) := st in
  let tag' := fun b => idx b (tag b) in
  (tag', tags ++ [tag']).

(** [CRF._viterbi] *)
Definition _viterbi (self : CRF) (feats : tensor R) : result (tensor nat) :=
  match shape feats with
  | [B; seq_size; ntags] =>
      if negb (num_tags self =? ntags)%nat
      then Raise (ValueError "num_tags should be {} but got {}")
      else
        match seq_size, ntags with
        | O, _ => Raise (IndexError "index 0 is out of bounds for dimension 1 with size 0")
        | S _, O => Raise (IndexError "max(): Expected reduction dim 1 to have non-zero size")
        | S _, S c =>
            let v0 := fun b j => at3 feats b 0 j + start_transitions self j in
            let '(v, paths) :=
              fold_left (viterbi_step self feats c) (seq 1 (seq_size - 1)) (v0, []) in
            let tag := fun b => snd (max_dim c (fun j => v b j + stop_transitions self j)) in
            let '(_, tags) := fold_left backtrack_step (rev paths) (tag, [tag]) in
            Ok (cat1 0%nat B (rev tags))
        end
  | _ => Raise (ValueError "wrong number of values to unpack (expected 3)")
  end.

(** [CRF.forward] *)
Definition forward (self : CRF) (feats : tensor R) : result (tensor nat) :=
  if negb (List.length (shape feats) =? 3)%nat
  then Raise (ValueError "feats must be 3-d got {}-d")
  else _viterbi self feats.

(** [CRF.loss] *)
Definition loss (self : CRF) (feats : tensor R) (tags : tensor nat) : result R :=
  if negb (List.length (shape feats) =? 3)%nat
  then Raise (ValueError "feats must be 3-d got {}-d")
  else if negb (List.length (shape tags) =? 2)%nat
  then Raise (ValueError "tags must be 2-d but got {}-d")
  else if negb (bool_decide (firstn 2 (shape feats) = shape tags))
  then Raise (ValueError "First two dimensions of feats and tags must match ")
  else
    let* sequence_score := _sequence_score self feats tags in
    let* partition_function := _partition_function self feats in
    let log_probability := sub1 sequence_score partition_function in
    Ok (- mean log_probability).

End CRF.

(* ------------------------------------------------------------------ *)
(** * The class CRF in single precision *)
(* ------------------------------------------------------------------ *)

(** The tensors of the layer hold IEEE 754 binary32 numbers.  [Float32] is
    that arithmetic, every operation rounded to nearest, ties to even. *)
Module Float32.

Definition float32 : Type := SpecFloat.spec_float.

Definition prec : Z := 24.
Definition emax : Z := 128.

Definition zero : float32 := SpecFloat.S754_zero false.

(** The binary32 number nearest to [m * 2^e]. *)
Definition lit (m e : Z) : float32 := SpecFloat.binary_normalize prec emax m e false.

Definition one : float32 := lit 1 0.

Definition add (x y : float32) : float32 := SpecFloat.SFadd prec emax x y.
Definition sub (x y : float32) : float32 := SpecFloat.SFsub prec emax x y.
Definition div (x y : float32) : float32 := SpecFloat.SFdiv prec emax x y.
Definition opp (x : float32) : float32 := SpecFloat.SFopp x.

Definition ltb (x y : float32) : bool := SpecFloat.SFltb x y.

Definition is_nan (x : float32) : bool :=
  match x with
  | SpecFloat.S754_nan => true
  | _ => false
  end.

(** Whether [x] replaces the running maximum [m] of [max(dim)]: it is
    greater, or it is the first NaN (a NaN is the maximum of its slice). *)
Definition replaces (m x : float32) : bool :=
  match SpecFloat.SFcompare m x with
  | Some Lt => true
  | Some _ => false
  | None => negb (is_nan m)
  end.

(** [torch.exp] and [torch.log] on binary32: functions of the mathematical
    library, parameters of the model. *)
Record libm : Type := Libm {
  expf : float32 -> float32;
  logf : float32 -> float32
}.

End Float32.

(** The methods of [CRF] that compute with the float tensors, operation by
    operation in the order of the source.  A reduction [sum(dim)] adds its
    terms from the first to the last, starting from 0. *)
Module CRF32.
Import Py Torch Float32.

Record CRF : Type := Build {
  num_tags : nat;
  transitions : nat -> nat -> float32;
  start_transitions : nat -> float32;
  stop_transitions : nat -> float32
}.

(** [x.sum(dim)] *)
Fixpoint sum_dim (n : nat) (f : nat -> float32) : float32 :=
  match n with
  | O => zero
  | S n' => add (sum_dim n' f) (f n')
  end.

(** [x.max(dim)] over a dimension of size [S c]: the maximum and the first
    index holding it. *)
Fixpoint max_dim (c : nat) (g : nat -> float32) : float32 * nat :=
  match c with
  | O => (g 0%nat, 0%nat)
  | S c' =>
      let '(m, k) := max_dim c' g in
      if replaces m (g (S c')) then (g (S c'), S c') else (m, k)
  end.

(** [CRF._log_sum_exp(logits, dim)] on one slice of the reduced dimension. *)
Definition _log_sum_exp (lm : libm) (c : nat) (g : nat -> float32) : float32 :=
  let max_val := fst (max_dim c g) in
  add max_val (logf lm (sum_dim (S c) (fun k => expf lm (sub (g k) max_val)))).

(** [CRF._sequence_score]: the checks are those of [CRF._sequence_score]
    over the reals, the sums are rounded. *)
Definition _sequence_score (self : CRF) (feats : tensor float32) (tags : tensor nat)
  : result (tensor float32) :=
  match shape feats, shape tags with
  | [B; L; C], [B'; L'] =>
      if negb ((B' <=? B)%nat && (L' <=? L)%nat)
      then Raise (RuntimeError "gather: size of index exceeds size of input")
      else if negb (all2 B' L' (fun b i => (at2 tags b i <? C)%nat))
      then Raise (RuntimeError "gather: index out of bounds")
      else if (L' <? 2)%nat
      then Raise (RuntimeError "unfold: maximum size for tensor at dimension 1 is smaller than size 2")
      else if negb (all2 B' L' (fun b i => (at2 tags b i <? num_tags self)%nat))
      then Raise (IndexError "index is out of bounds for dimension with size num_tags")
      else
        Ok (vec B' (fun b =>
          let feat_score := sum_dim L' (fun i => at3 feats b i (at2 tags b i)) in
          let trans_score :=
            sum_dim (L' - 1) (fun w => transitions self (at2 tags b w) (at2 tags b (w + 1))) in
          let start_score := start_transitions self (at2 tags b 0) in
          let stop_score := stop_transitions self (at2 tags b (L' - 1)) in
          add (add (add feat_score start_score) trans_score) stop_score))
  | _, _ => Raise (RuntimeError "gather: index and input must have the same number of dimensions")
  end.

(** One iteration of the loop of [_partition_function]:
    [a.unsqueeze(-1) + transitions + feat], then [_log_sum_exp] over the
    source tag. *)
Definition forward_step (lm : libm) (self : CRF) (feats : tensor float32) (c : nat)
           (a : nat -> nat -> float32) (i : nat) : nat -> nat -> float32 :=
  fun b j =>
    _log_sum_exp lm c (fun k => add (add (a b k) (transitions self k j)) (at3 feats b i j)).

(** [CRF._partition_function] *)
Definition _partition_function (lm : libm) (self : CRF) (feats : tensor float32)
  : result (tensor float32) :=
  match shape feats with
  | [B; seq_size; ntags] =>
      if negb (num_tags self =? ntags)%nat
      then Raise (ValueError "num_tags should be {} but got {}")
      else
        match seq_size, ntags with
        | O, _ => Raise (IndexError "index 0 is out of bounds for dimension 1 with size 0")
        | S _, O => Raise (IndexError "max(): Expected reduction dim 1 to have non-zero size")
        | S _, S c =>
            let a0 := fun b j => add (at3 feats b 0 j) (start_transitions self j) in
            let a := fold_left (forward_step lm self feats c) (seq 1 (seq_size - 1)) a0 in
            Ok (vec B (fun b => _log_sum_exp lm c (fun j => add (a b j) (stop_transitions self j))))
        end
  | _ => Raise (ValueError "wrong number of values to unpack (expected 3)")
  end.

(** One iteration of the forward loop of [_viterbi]. *)
Definition viterbi_step (self : CRF) (feats : tensor float32) (c : nat)
           (st : (nat -> nat -> float32) * list (nat -> nat -> nat)) (i : nat)
  : (nat -> nat -> float32) * list (nat -> nat -> nat) :=
  let '(v, paths) := st in
  let best := fun b j => max_dim c (fun k => add (v b k) (transitions self k j)) in
  (fun b j => add (fst (best b j)) (at3 feats b i j),
   paths ++ [fun b j => snd (best b j)]).

(** [CRF._viterbi]; the backtracking loop moves tag indices only and is
    [CRF.backtrack_step]. *)
Definition _viterbi (self : CRF) (feats : tensor float32) : result (tensor nat) :=
  match shape feats with
  | [B; seq_size; ntags] =>
      if negb (num_tags self =? ntags)%nat
      then Raise (ValueError "num_tags should be {} but got {}")
      else
        match seq_size, ntags with
        | O, _ => Raise (IndexError "index 0 is out of bounds for dimension 1 with size 0")
        | S _, O => Raise (IndexError "max(): Expected reduction dim 1 to have non-zero size")
        | S _, S c =>
            let v0 := fun b j => add (at3 feats b 0 j) (start_transitions self j) in
            let '(v, paths) :=
              fold_left (viterbi_step self feats c) (seq 1 (seq_size - 1)) (v0, []) in
            let tag := fun b => snd (max_dim c (fun j => add (v b j) (stop_transitions self j))) in
            let '(_, tags) := fold_left CRF.backtrack_step (rev paths) (tag, [tag]) in
            Ok (cat1 0%nat B (rev tags))
        end
  | _ => Raise (ValueError "wrong number of values to unpack (expected 3)")
  end.

(** [CRF.forward] *)
Definition forward (self : CRF) (feats : tensor float32) : result (tensor nat) :=
  if negb (List.length (shape feats) =? 3)%nat
  then Raise (ValueError "feats must be 3-d got {}-d")
  else _viterbi self feats.

(** [x.mean()] of a one-dimensional tensor: the sum divided by the size. *)
Definition mean (t : tensor float32) : float32 :=
  let n := hd 0%nat (shape t) in
  div (sum_dim n (at1 t)) (lit (Z.of_nat n) 0).

(** [CRF.loss] *)
Definition loss (lm : libm) (self : CRF) (feats : tensor float32) (tags : tensor nat)
  : result float32 :=
  if negb (List.length (shape feats) =? 3)%nat
  then Raise (ValueError "feats must be 3-d got {}-d")
  else if negb (List.length (shape tags) =? 2)%nat
  then Raise (ValueError "tags must be 2-d but got {}-d")
  else if negb (bool_decide (firstn 2 (shape feats) = shape tags))
  then Raise (ValueError "First two dimensions of feats and tags must match ")
  else
    let* sequence_score := _sequence_score self feats tags in
    let* partition_function := _partition_function lm self feats in
    let log_probability :=
      vec (hd 0%nat (shape sequence_score))
          (fun b => sub (at1 sequence_score b) (at1 partition_function b)) in
    Ok (opp (mean log_probability)).

End CRF32.

(* ------------------------------------------------------------------ *)
(** * The function f1_score *)
(* ------------------------------------------------------------------ *)

Module F1.
Import Py.

(** The source calls the gold sequence [true]; it is [true_] here.
    Python lists are shared, mutable objects: [preds] and [targets] are
    lists of references into a store of integer lists, so that an inner
    list reachable twice (from both arguments, or twice from one) is one
    object, and [append] is seen through every reference to it. *)
Definition loc : Type := positive.
Abbreviation store := (gmap loc (list Z)).

(** [l.append(x)] on the list object at [l]. *)
Definition append (h : store) (l : loc) (x : Z) : store :=
  <[l := (h !!! l) ++ [x]]> h.

(** The running totals [TP], [FN], [FP]. *)
Record counts : Type := Counts { TP : nat; FN : nat; FP : nat }.

(** The local variables of one iteration of the outer loop. *)
Record locals : Type := Locals {
  stpt : Z;
  endpt : Z;
  entity_flag : bool;
  neg_flag : bool
}.

(** [x[i]] raising [IndexError] out of range. *)
Definition getitem (x : list Z) (i : Z) : result Z :=
  match index x i with
  | Some v => Ok v
  | None => Raise (IndexError "list index out of range")
  end.

(** The comparison loop
    [for comp_ind in range(stpt-1, endpt+1): if true[comp_ind] != pred[comp_ind]: neg_flag = True; break]:
    the value of [neg_flag] after it. *)
Fixpoint compare_loop (true_ pred : list Z) (inds : list Z) (neg : bool) : result bool :=
  match inds with
  | [] => Ok neg
  | comp_ind :: rest =>
      let* t := getitem true_ comp_ind in
      let* p := getitem pred comp_ind in
      if negb (t =? p)%Z then Ok true else compare_loop true_ pred rest neg
  end.

(** The body of the first inner loop (true positives and false negatives). *)
Definition pass1_body (true_ pred : list Z) (st : locals * counts) (i : Z)
  : result (locals * counts) :=
  let '(v, c) := st in
  let* t := getitem true_ i in
  let v := if negb (t =? 0)%Z && negb (entity_flag v)
           then Locals i (endpt v) true (neg_flag v) else v in
  let* t := getitem true_ i in
  if (t =? 0)%Z && entity_flag v then
    let v := Locals (stpt v) i (entity_flag v) (neg_flag v) in
    let* neg := compare_loop true_ pred (range (stpt v - 1) (endpt v + 1)) (neg_flag v) in
    let c := if neg then Counts (TP c) (FN c + 1) (FP c)
             else Counts (TP c + 1) (FN c) (FP c) in
    Ok (Locals (stpt v) (endpt v) false false, c)
  else Ok (v, c).

(** The body of the second inner loop (false positives). *)
Definition pass2_body (true_ pred : list Z) (st : locals * counts) (i : Z)
  : result (locals * counts) :=
  let '(v, c) := st in
  let* p := getitem pred i in
  let v := if (p =? 1)%Z && negb (entity_flag v)
           then Locals i (endpt v) true (neg_flag v) else v in
  let* p := getitem pred i in
  if (p =? 0)%Z && entity_flag v then
    let v := Locals (stpt v) i (entity_flag v) (neg_flag v) in
    let* neg := compare_loop true_ pred (range (stpt v - 1) (endpt v + 1)) (neg_flag v) in
    let c := if neg then Counts (TP c) (FN c) (FP c + 1) else c in
    Ok (Locals (stpt v) (endpt v) false false, c)
  else Ok (v, c).

(** A [for] loop whose body may raise. *)
Fixpoint for_each {S A : Type} (body : S -> A -> result S) (xs : list A) (s : S) : result S :=
  match xs with
  | [] => Ok s
  | x :: xs' => let* s' := body s x in for_each body xs' s'
  end.

(** The two passes over one pair, after the sentinels were appended. *)
Definition passes (true_ pred : list Z) (c : counts) : result counts :=
  let v := Locals 0 0 false false in
  let* st := for_each (pass1_body true_ pred) (range 0 (Z.of_nat (List.length pred))) (v, c) in
  let* st := for_each (pass2_body true_ pred) (range 0 (Z.of_nat (List.length pred))) st in
  Ok (snd st).

(** One iteration of the outer loop [for pred, true in zip(preds, targets)]:
    the store after it, and the totals or the exception raised. *)
Definition pair_body (h : store) (c : counts) (pred true_ : loc) : store * result counts :=
  if negb (List.length (h !!! pred) =? List.length (h !!! true_))%nat
  then (h, Raise (AssertionError "len(pred) == len(true)"))
  else
    let h := append h pred 0 in
    let h := append h true_ 0 in
    (h, passes (h !!! true_) (h !!! pred) c).

(** The outer loop. *)
Fixpoint scan (h : store) (c : counts) (pairs : list (loc * loc)) : store * result counts :=
  match pairs with
  | [] => (h, Ok c)
  | (pred, true_) :: rest =>
      match pair_body h c pred true_ with
      | (h', Ok c') => scan h' c' rest
      | (h', Raise e) => (h', Raise e)
      end
  end.

(** How many of the references [ls] point to the list object at [l]. *)
Definition occurrences (l : loc) (ls : list loc) : nat := count_occ Pos.eq_dec ls l.

(** [a / b] on Python integers (true division). *)
Definition int_div (a b : nat) : result Q :=
  if (b =? 0)%nat then Raise (ZeroDivisionError "division by zero")
  else Ok (Z.of_nat a # Pos.of_nat b)%Q.

(** [x / y] on Python floats. *)
Definition float_div (x y : Q) : result Q :=
  if Qeq_bool y 0 then Raise (ZeroDivisionError "float division by zero")
  else Ok (x / y)%Q.

(** The aggregation after the loop. *)
Definition aggregate (c : counts) : result Q :=
  let* precision := int_div (TP c) (TP c + FP c) in
  let* recall := int_div (TP c) (TP c + FN c) in
  if negb (Qeq_bool precision 0) || negb (Qeq_bool recall 0)
  then float_div (2 * precision * recall) (precision + recall)
  else Ok 0%Q.

(** [f1_score(preds, targets)]: the store it leaves behind, and the value
    returned or the exception raised. *)
Definition f1_score (h : store) (preds targets : list loc) : store * result Q :=
  match scan h (Counts 0 0 0) (zip preds targets) with
  | (h', Ok c) => (h', aggregate c)
  | (h', Raise e) => (h', Raise e)
  end.

End F1.

(* ------------------------------------------------------------------ *)
(** * The data reader: vocabulary, file reading, binarisation *)
(* ------------------------------------------------------------------ *)

Module Datareader.

(** The exceptions of [src/datareader.py]; a [KeyError] carries the key. *)
Inductive exn : Type :=
| KeyError (key : string)
| IndexError (msg : string)
| ValueError (msg : string)
| AssertionError (msg : string).

Inductive result (A : Type) : Type :=
| Ok (a : A)
| Raise (e : exn).
Arguments Ok {A} a.
Arguments Raise {A} e.

Definition bind {A B : Type} (m : result A) (k : A -> result B) : result B :=
  match m with
  | Ok a => k a
  | Raise e => Raise e
  end.

Notation "'let+' x ':=' m 'in' k" := (bind m (fun x => k))
  (at level 10, x name, m at level 100, k at level 200).

(** Python strings are Rocq strings (their UTF-8 bytes): equality and the
    test for an ASCII character are the same on both. *)
Definition y1_set : list string := ["O"; "B"; "I"].
Definition y2_set : list string :=
  ["O"; "B-playlist"; "I-playlist"; "B-music_item"; "I-music_item";
   "B-geographic_poi"; "I-geographic_poi"; "B-facility"; "I-facility";
   "B-movie_name"; "I-movie_name"; "B-location_name"; "I-location_name";
   "B-restaurant_name"; "I-restaurant_name"; "B-track"; "I-track";
   "B-restaurant_type"; "I-restaurant_type"; "B-object_part_of_series_type";
   "I-object_part_of_series_type"; "B-country"; "I-country"; "B-service";
   "I-service"; "B-poi"; "I-poi"; "B-party_size_description";
   "I-party_size_description"; "B-served_dish"; "I-served_dish"; "B-genre";
   "I-genre"; "B-current_location"; "I-current_location"; "B-object_select";
   "I-object_select"; "B-album"; "I-album"; "B-object_name"; "I-object_name";
   "B-state"; "I-state"; "B-sort"; "I-sort"; "B-object_location_type";
   "I-object_location_type"; "B-movie_type"; "I-movie_type";
   "B-spatial_relation"; "I-spatial_relation"; "B-artist"; "I-artist";
   "B-cuisine"; "I-cuisine"; "B-entity_name"; "I-entity_name";
   "B-object_type"; "I-object_type"; "B-playlist_owner"; "I-playlist_owner";
   "B-timeRange"; "I-timeRange"; "B-city"; "I-city"; "B-rating_value";
   "B-best_rating"; "B-rating_unit"; "B-year"; "B-party_size_number";
   "B-condition_description"; "B-condition_temperature"].
Definition domain_set : list string :=
  ["AddToPlaylist"; "BookRestaurant"; "GetWeather"; "PlayMusic"; "RateBook";
   "SearchCreativeWork"; "SearchScreeningEvent"].

Definition SLOT_PAD : nat := 0.
Definition PAD_INDEX : nat := 0.
Definition UNK_INDEX : nat := 1.

(** [l.index(x)]: the first position of [x], or [ValueError]. *)
Fixpoint position (x : string) (l : list string) : option nat :=
  match l with
  | [] => None
  | y :: l' => if String.eqb y x then Some 0 else option_map S (position x l')
  end.

Definition list_index (l : list string) (x : string) : result nat :=
  match position x l with
  | Some i => Ok i
  | None => Raise (ValueError "x is not in list")
  end.

(** A loop that appends [f x] for each [x], stopping at the first exception. *)
Fixpoint for_all {A B : Type} (f : A -> result B) (xs : list A) : result (list B) :=
  match xs with
  | [] => Ok []
  | x :: xs' => let+ y := f x in let+ ys := for_all f xs' in Ok (y :: ys)
  end.

(** [zip(a, b, c)] *)
Fixpoint zip3 {A B C : Type} (a : list A) (b : list B) (c : list C) : list (A * B * C) :=
  match a, b, c with
  | x :: a', y :: b', z :: c' => (x, y, z) :: zip3 a' b' c'
  | _, _, _ => []
  end.

(** ** class Vocab *)
Module Vocab.

Record t : Type := Build {
  word2index : gmap string nat;
  word2count : gmap string nat;
  index2word : gmap nat string;
  n_words : nat
}.

(** [Vocab.__init__] *)
Definition __init__ : t :=
  Build (<["PAD" := PAD_INDEX]> (<["UNK" := UNK_INDEX]> ∅))
        ∅
        (<[PAD_INDEX := "PAD"]> (<[UNK_INDEX := "UNK"]> ∅))
        2.

(** The body of the loop of [index_words].  [self.word2count[word] += 1]
    reads the count first and raises [KeyError] when there is none; nothing
    was written by then. *)
Definition index_word (self : t) (word : string) : t * result unit :=
  match word2index self !! word with
  | None =>
      (Build (<[word := n_words self]> (word2index self))
             (<[word := 1]> (word2count self))
             (<[n_words self := word]> (index2word self))
             (n_words self + 1),
       Ok tt)
  | Some _ =>
      match word2count self !! word with
      | Some k =>
          (Build (word2index self) (<[word := k + 1]> (word2count self))
                 (index2word self) (n_words self),
           Ok tt)
      | None => (self, Raise (KeyError word))
      end
  end.

(** [Vocab.index_words]: the vocabulary object after the call (it is
    mutated in place, also when the call raises), and the outcome. *)
Fixpoint index_words (self : t) (sentence : list string) : t * result unit :=
  match sentence with
  | [] => (self, Ok tt)
  | word :: rest =>
      match index_word self word with
      | (self', Ok _) => index_words self' rest
      | (self', Raise e) => (self', Raise e)
      end
  end.

End Vocab.

(** The methods of Python's [str] that [read_file] calls: [s.strip()],
    [s.split(sep)] and [s.split()].  They are parameters of the model. *)
Record str_methods : Type := StrMethods {
  strip : string -> string;
  split_on : string -> string -> list string;
  split : string -> list string
}.

(** [c in l] for a one-character string [c]. *)
Definition contains (c : Ascii.ascii) (l : string) : bool :=
  existsb (Ascii.eqb c) (list_ascii_of_string l).

(** The coarse label of a slot label, as the inner loop of [read_file]
    computes it. *)
Definition l1_of (l : string) : string :=
  if contains "B"%char l then "B"
  else if contains "I"%char l then "I"
  else "O".

(** The dictionary [read_file] returns. *)
Record data_dict : Type := DataDict {
  utter : list (list string);
  y1 : list (list string);
  y2 : list (list string)
}.

(** [x[i]] on a list of strings. *)
Definition getitem (x : list string) (i : nat) : result string :=
  match nth_error x i with
  | Some v => Ok v
  | None => Raise (IndexError "list index out of range")
  end.

Definition tab : string := String (Ascii.ascii_of_nat 9) EmptyString.

(** The body of the loop of [read_file] over the lines of the file. *)
Definition read_line (py : str_methods) (st : data_dict * Vocab.t) (line : string)
  : (data_dict * Vocab.t) * result unit :=
  let '(d, vocab) := st in
  let line := strip py line in
  let splits := split_on py line tab in
  match getitem splits 0 with
  | Raise e => (st, Raise e)
  | Ok s0 =>
      let tokens := split py s0 in
      match getitem splits 1 with
      | Raise e => (st, Raise e)
      | Ok s1 =>
          let l2_list := split py s1 in
          let utter_list := utter d ++ [tokens] in
          let y2_list := y2 d ++ [l2_list] in
          match Vocab.index_words vocab tokens with
          | (vocab', Raise e) => ((DataDict utter_list (y1 d) y2_list, vocab'), Raise e)
          | (vocab', Ok _) =>
              let l1_list := map l1_of l2_list in
              ((DataDict utter_list (y1 d ++ [l1_list]) y2_list, vocab'), Ok tt)
          end
      end
  end.

Fixpoint read_lines (py : str_methods) (st : data_dict * Vocab.t) (lines : list string)
  : (data_dict * Vocab.t) * result unit :=
  match lines with
  | [] => (st, Ok tt)
  | line :: rest =>
      match read_line py st line with
      | (st', Ok _) => read_lines py st' rest
      | (st', Raise e) => (st', Raise e)
      end
  end.

(** [read_file(filepath, vocab, domain)], on the lines of the file at
    [filepath]: the vocabulary object after the call, and the returned
    dictionary or the exception. *)
Definition read_file (py : str_methods) (lines : list string) (vocab : Vocab.t)
  : Vocab.t * result data_dict :=
  match read_lines py (DataDict [] [] [], vocab) lines with
  | ((d, vocab'), Ok _) => (vocab', Ok d)
  | ((_, vocab'), Raise e) => (vocab', Raise e)
  end.

(** The dictionary [binarize_data] returns. *)
Record data_bin : Type := DataBin {
  utter_bin : list (list nat);
  y1_bin : list (list nat);
  y2_bin : list (list nat);
  domains : list nat
}.

(** [vocab.word2index[token]] *)
Definition lookup_word (vocab : Vocab.t) (token : string) : result nat :=
  match Vocab.word2index vocab !! token with
  | Some i => Ok i
  | None => Raise (KeyError token)
  end.

(** The body of the loop of [binarize_data] over one utterance. *)
Definition binarize_row (vocab : Vocab.t) (row : list string * list string * list string)
  : result (list nat * list nat * list nat) :=
  let '(utter_tokens, y1_list, y2_list) := row in
  let+ utter_bin := for_all (lookup_word vocab) utter_tokens in
  let+ y1_bin := for_all (list_index y1_set) y1_list in
  let+ y2_bin := for_all (list_index y2_set) y2_list in
  if negb ((List.length utter_bin =? List.length y1_bin)
           && (List.length y1_bin =? List.length y2_bin))
  then Raise (AssertionError "len(utter_bin) == len(y1_bin) == len(y2_bin)")
  else Ok (utter_bin, y1_bin, y2_bin).

(** [binarize_data(data, vocab, dm)].  Its first assertion compares the
    lengths of the three lists of the fresh, empty result. *)
Definition binarize_data (data : data_dict) (vocab : Vocab.t) (dm : string)
  : result data_bin :=
  if negb ((List.length (@nil (list nat)) =? List.length (@nil (list nat)))
           && (List.length (@nil (list nat)) =? List.length (@nil (list nat))))
  then Raise (AssertionError "len(data_bin[utter]) == len(data_bin[y1]) == len(data_bin[y2])")
  else
    let+ dm_idx := list_index domain_set dm in
    let+ rows := for_all (binarize_row vocab) (zip3 (utter data) (y1 data) (y2 data)) in
    Ok (DataBin (map (fun r => fst (fst r)) rows)
                (map (fun r => snd (fst r)) rows)
                (map snd rows)
                (map (fun _ => dm_idx) rows)).

(** The path of the file of a domain. *)
Definition snips_path (dm : string) : string :=
  ("data/snips/" ++ dm ++ "/" ++ dm ++ ".txt")%string.

(** One [read_file] call of [datareader], on the vocabulary so far. *)
Definition load (py : str_methods) (files : string -> list string) (vocab : Vocab.t)
           (dm : string) : result (data_dict * Vocab.t) :=
  match read_file py (files (snips_path dm)) vocab with
  | (vocab', Ok d) => Ok (d, vocab')
  | (_, Raise e) => Raise e
  end.

(** [datareader()], given the lines of every file: the seven files are read
    in turn into one vocabulary, then each is binarised with the final
    vocabulary.  The dictionary starts with an empty entry for each domain;
    every one of them is replaced before the dictionary is returned, and
    nothing is returned when a call raises, so it starts empty here. *)
Definition datareader (py : str_methods) (files : string -> list string)
  : result (gmap string data_bin * Vocab.t) :=
  let data : gmap string data_bin := ∅ in
  let vocab := Vocab.__init__ in
  let+ r1 := load py files vocab "AddToPlaylist" in
  let '(AddToPlaylistData, vocab) := r1 in
  let+ r2 := load py files vocab "BookRestaurant" in
  let '(BookRestaurantData, vocab) := r2 in
  let+ r3 := load py files vocab "GetWeather" in
  let '(GetWeatherData, vocab) := r3 in
  let+ r4 := load py files vocab "PlayMusic" in
  let '(PlayMusicData, vocab) := r4 in
  let+ r5 := load py files vocab "RateBook" in
  let '(RateBookData, vocab) := r5 in
  let+ r6 := load py files vocab "SearchCreativeWork" in
  let '(SearchCreativeWorkData, vocab) := r6 in
  let+ r7 := load py files vocab "SearchScreeningEvent" in
  let '(SearchScreeningEventData, vocab) := r7 in
  let+ b1 := binarize_data AddToPlaylistData vocab "AddToPlaylist" in
  let data := <["AddToPlaylist" := b1]> data in
  let+ b2 := binarize_data BookRestaurantData vocab "BookRestaurant" in
  let data := <["BookRestaurant" := b2]> data in
  let+ b3 := binarize_data GetWeatherData vocab "GetWeather" in
  let data := <["GetWeather" := b3]> data in
  let+ b4 := binarize_data PlayMusicData vocab "PlayMusic" in
  let data := <["PlayMusic" := b4]> data in
  let+ b5 := binarize_data RateBookData vocab "RateBook" in
  let data := <["RateBook" := b5]> data in
  let+ b6 := binarize_data SearchCreativeWorkData vocab "SearchCreativeWork" in
  let data := <["SearchCreativeWork" := b6]> data in
  let+ b7 := binarize_data SearchScreeningEventData vocab "SearchScreeningEvent" in
  let data := <["SearchScreeningEvent" := b7]> data in
  Ok (data, vocab).

(** ** Invariants and well-formedness *)

(** A word reserved by the constructor: it has an index but no count. *)
Definition reserved (w : string) : Prop := w = "PAD" \/ w = "UNK".

Definition is_reserved (w : string) : bool := String.eqb w "PAD" || String.eqb w "UNK".

(** The state of a vocabulary that [__init__] and [index_words] maintain:
    [word2index] and [index2word] are inverse to each other, the indices in
    use are exactly those below [n_words], the counted words are the indexed
    words that are not reserved, and the two reserved words keep their
    indices. *)
Definition consistent (v : Vocab.t) : Prop :=
  (forall w i, Vocab.word2index v !! w = Some i <-> Vocab.index2word v !! i = Some w) /\
  (forall i, is_Some (Vocab.index2word v !! i) <-> i < Vocab.n_words v) /\
  (forall w, is_Some (Vocab.word2count v !! w)
             <-> is_Some (Vocab.word2index v !! w) /\ ~ reserved w) /\
  Vocab.word2index v !! "PAD" = Some PAD_INDEX /\
  Vocab.word2index v !! "UNK" = Some UNK_INDEX.

(** The fields of a line: [line.strip().split(tab)]. *)
Definition fields (py : str_methods) (line : string) : list string :=
  split_on py (strip py line) tab.

(** The tokens and the slot labels of a line with at least two fields. *)
Definition tokens_of (py : str_methods) (line : string) : list string :=
  split py (nth 0 (fields py line) EmptyString).

Definition labels_of (py : str_methods) (line : string) : list string :=
  split py (nth 1 (fields py line) EmptyString).

(** A line [read_file] accepts: two fields at least, and no reserved word
    among the tokens. *)
Definition readable (py : str_methods) (line : string) : Prop :=
  2 <= List.length (fields py line) /\
  Forall (fun w => ~ reserved w) (tokens_of py line).

(** A line [binarize_data] accepts once it was read: as many tokens as
    labels, and every label in [y2_set]. *)
Definition binarizable (py : str_methods) (line : string) : Prop :=
  List.length (tokens_of py line) = List.length (labels_of py line) /\
  Forall (fun l => In l y2_set) (labels_of py line).

(** Whether a word has an index. *)
Definition indexed (v : Vocab.t) (w : string) : bool :=
  bool_decide (is_Some (Vocab.word2index v !! w)).

(** The words of a sentence that are not [known], each once, in the order
    in which they first occur. *)
Fixpoint first_seen (known : string -> bool) (s : list string) : list string :=
  match s with
  | [] => []
  | w :: r =>
      if known w then first_seen known r
      else w :: first_seen (fun x => known x || String.eqb x w) r
  end.

(** The exception a line makes [read_file] raise, if any: [splits[1]] fails
    on a line with fewer than two fields, [index_words] on a reserved
    token. *)
Definition line_error (py : str_methods) (line : string) : option exn :=
  if List.length (fields py line) <? 2
  then Some (IndexError "list index out of range")
  else option_map KeyError (List.find is_reserved (tokens_of py line)).

Fixpoint first_error (py : str_methods) (lines : list string) : option exn :=
  match lines with
  | [] => None
  | line :: rest =>
      match line_error py line with
      | Some e => Some e
      | None => first_error py rest
      end
  end.

(** All the tokens of a file, in order. *)
Definition corpus (py : str_methods) (lines : list string) : list string :=
  concat (map (tokens_of py) lines).

(** The dictionary read from the lines of a file. *)
Definition parsed (py : str_methods) (lines : list string) : data_dict :=
  DataDict (map (tokens_of py) lines)
           (map (fun line => map l1_of (labels_of py line)) lines)
           (map (labels_of py) lines).

(** The number of utterances [zip] lets [binarize_data] see. *)
Definition rows_of (d : data_dict) : nat :=
  Nat.min (List.length (utter d)) (Nat.min (List.length (y1 d)) (List.length (y2 d))).

(** An utterance that [binarize_data] can binarise with a vocabulary. *)
Definition row_ok (v : Vocab.t) (row : list string * list string * list string) : Prop :=
  let '(tokens, l1, l2) := row in
  List.Forall (fun w => is_Some (Vocab.word2index v !! w)) tokens /\
  List.Forall (fun l => In l y1_set) l1 /\
  List.Forall (fun l => In l y2_set) l2 /\
  List.length tokens = List.length l1 /\ List.length l1 = List.length l2.

(** ** The statements of [datareader] as two loops over [domain_set] *)

(** The [read_file] calls, threading the vocabulary. *)
Fixpoint load_all (py : str_methods) (files : string -> list string) (vocab : Vocab.t)
         (dms : list string) : result (list (string * data_dict) * Vocab.t) :=
  match dms with
  | [] => Ok ([], vocab)
  | dm :: rest =>
      let+ r := load py files vocab dm in
      let '(d, vocab) := r in
      let+ rs := load_all py files vocab rest in
      let '(ds, vocab) := rs in
      Ok ((dm, d) :: ds, vocab)
  end.

(** The [binarize_data] calls, with the final vocabulary. *)
Fixpoint binarize_all (vocab : Vocab.t) (ds : list (string * data_dict))
         (data : gmap string data_bin) : result (gmap string data_bin) :=
  match ds with
  | [] => Ok data
  | (dm, d) :: rest =>
      let+ b := binarize_data d vocab dm in
      binarize_all vocab rest (<[dm := b]> data)
  end.

Definition datareader_loops (py : str_methods) (files : string -> list string)
  : result (gmap string data_bin * Vocab.t) :=
  let+ r := load_all py files Vocab.__init__ domain_set in
  let '(ds, vocab) := r in
  let+ data := binarize_all vocab ds ∅ in
  Ok (data, vocab).

(** The tokens of all the files, in the order in which they are read. *)
Definition all_tokens (py : str_methods) (files : string -> list string)
           (dms : list string) : list string :=
  concat (map (fun dm => corpus py (files (snips_path dm))) dms).

End Datareader.

(* ------------------------------------------------------------------ *)
(** * Spans of a tag sequence *)
(* ------------------------------------------------------------------ *)

(** What the two passes of [f1_score] count, said on the sequences as they
    are before the sentinels are appended. *)
Module Spans.
Import F1.

(** The tag at a position; past the end it is 0, as the sentinel makes it. *)
Definition tag (x : list Z) (k : nat) : Z := nth k x 0%Z.

(** A span of non-zero tags begins at [i]: the tag there is not 0 and the
    tag before it, if any, is 0. *)
Definition starts_at (x : list Z) (i : nat) : bool :=
  negb (tag x i =? 0)%Z && ((i =? 0) || (tag x (i - 1) =? 0)%Z).

(** The number of non-zero tags at the head of a list. *)
Fixpoint run_length (x : list Z) : nat :=
  match x with
  | [] => 0
  | t :: r => if (t =? 0)%Z then 0 else S (run_length r)
  end.

(** The first position from [i] on whose tag is 0. *)
Definition span_end (x : list Z) (i : nat) : nat := i + run_length (skipn i x).

(** The two sequences agree from the position before [s], if any, to the
    position [e]. *)
Definition agree (g p : list Z) (s e : nat) : bool :=
  forallb (fun k => (tag g k =? tag p k)%Z) (seq (s - 1) (e + 1 - (s - 1))).

(** A predicted span begins at [i]: the tag there is 1, and every tag 1
    before [i] is followed by a tag 0 before [i]. *)
Definition opens_at (p : list Z) (i : nat) : bool :=
  (tag p i =? 1)%Z &&
  forallb (fun k => negb (tag p k =? 1)%Z
                    || existsb (fun z => (tag p z =? 0)%Z) (seq (k + 1) (i - (k + 1))))
          (seq 0 i).

(** How many positions below [n] satisfy [f]. *)
Definition count (f : nat -> bool) (n : nat) : nat :=
  List.length (List.filter f (seq 0 n)).

(** A gold span begins at [i] and the prediction reproduces it; a gold span
    begins at [i] and the prediction does not; a predicted span begins at
    [i] and differs from the gold sequence. *)
Definition hit (g p : list Z) (i : nat) : bool :=
  starts_at g i && agree g p i (span_end g i).

Definition miss (g p : list Z) (i : nat) : bool :=
  starts_at g i && negb (agree g p i (span_end g i)).

Definition alarm (g p : list Z) (i : nat) : bool :=
  opens_at p i && negb (agree g p i (span_end p i)).

Definition hits (g p : list Z) : nat := count (hit g p) (List.length g).
Definition misses (g p : list Z) : nat := count (miss g p) (List.length g).
Definition false_alarms (g p : list Z) : nat := count (alarm g p) (List.length p).

(** The totals after one pair. *)
Definition tally (c : counts) (g p : list Z) : counts :=
  Counts (TP c + hits g p) (FN c + misses g p) (FP c + false_alarms g p).

(** The totals after the pairs [(pred, gold)] of a batch. *)
Definition tally_all (pairs : list (list Z * list Z)) (c : counts) : counts :=
  fold_left (fun c pt => tally c (snd pt) (fst pt)) pairs c.

(** ** The invariants of the two passes *)

(** The totals of the first pass when the gold spans that begin below [b]
    are counted. *)
Definition counted1 (g p : list Z) (c0 c : counts) (b : nat) : Prop :=
  TP c = TP c0 + count (hit g p) b /\ FN c = FN c0 + count (miss g p) b /\ FP c = FP c0.

(** The state of the first pass before position [i]: either a span is open
    since a start [s] and the spans before [s] are counted, or none is open
    and the spans before [i] are. *)
Definition inv1 (g p : list Z) (c0 : counts) (i : nat) (st : locals * counts) : Prop :=
  neg_flag (fst st) = false /\
  if entity_flag (fst st)
  then exists s, stpt (fst st) = Z.of_nat s /\ s < i /\ starts_at g s = true /\
                 (forall k, s <= k < i -> tag g k <> 0%Z) /\ counted1 g p c0 (snd st) s
  else (i = 0 \/ tag g (i - 1) = 0%Z) /\ counted1 g p c0 (snd st) i.

(** Every tag 1 before [i] is followed by a tag 0 before [i]. *)
Definition no_open (p : list Z) (i : nat) : Prop :=
  forall k, k < i -> tag p k = 1%Z -> exists z, k < z < i /\ tag p z = 0%Z.

Definition counted2 (g p : list Z) (c0 c : counts) (b : nat) : Prop :=
  TP c = TP c0 /\ FN c = FN c0 /\ FP c = FP c0 + count (alarm g p) b.

Definition inv2 (g p : list Z) (c0 : counts) (i : nat) (st : locals * counts) : Prop :=
  neg_flag (fst st) = false /\
  if entity_flag (fst st)
  then exists s, stpt (fst st) = Z.of_nat s /\ s < i /\ tag p s = 1%Z /\ no_open p s /\
                 (forall k, s <= k < i -> tag p k <> 0%Z) /\ counted2 g p c0 (snd st) s
  else no_open p i /\ counted2 g p c0 (snd st) i.

(** The contents of the lists a batch refers to, pair by pair. *)
Definition contents (h : store) (pairs : list (loc * loc)) : list (list Z * list Z) :=
  map (fun pt => (h !!! fst pt, h !!! snd pt)) pairs.

(** The number of gold spans of a batch. *)
Definition gold_spans (pairs : list (list Z * list Z)) : nat :=
  fold_right (fun pt n => count (starts_at (snd pt)) (List.length (snd pt)) + n) 0 pairs.

End Spans.

(* ------------------------------------------------------------------ *)
(** * Reference definitions, in the words of the specification *)
(* ------------------------------------------------------------------ *)

Module Spec.
Import Py Torch CRF.
Local Open Scope R_scope.

(** The tag sequence of example [b] in a tag tensor of sequence length [L]. *)
Definition row (tags : tensor nat) (b L : nat) : list nat :=
  map (at2 tags b) (seq 0 L).

(** The tag tensor of shape [[B, len(t)]] whose every example is [t]. *)
Definition tile (B : nat) (t : list nat) : tensor nat :=
  Tensor [B; List.length t] (fun idx => nth (nth 1 idx 0%nat) t 0%nat).

(** Section 4.2: the emission term, the transition term and the two
    boundary terms of the score of the tag sequence [t] for example [b]. *)
Definition emission_sum (feats : tensor R) (b : nat) (t : list nat) : R :=
  sum_dim (List.length t) (fun i => at3 feats b i (nth i t 0%nat)).

Definition transition_sum (self : CRF) (t : list nat) : R :=
  sum_dim (List.length t - 1)
          (fun i => transitions self (nth i t 0%nat) (nth (i + 1) t 0%nat)).

Definition path_score (self : CRF) (feats : tensor R) (b : nat) (t : list nat) : R :=
  emission_sum feats b t + transition_sum self t
  + start_transitions self (nth 0 t 0%nat)
  + stop_transitions self (nth (List.length t - 1) t 0%nat).

(** All tag sequences of length [L] over the tags [0 .. C-1]. *)
Fixpoint all_paths (C L : nat) : list (list nat) :=
  match L with
  | O => [[]]
  | S L' => flat_map (fun p => map (fun j => p ++ [j]) (seq 0 C)) (all_paths C L')
  end.

Definition valid_path (C L : nat) (t : list nat) : Prop :=
  List.length t = L /\ Forall (fun j => (j < C)%nat) t.

Definition list_sum (xs : list R) : R := fold_right Rplus 0 xs.

(** The score of [t] for example [b] as [_sequence_score] computes it. *)
Definition code_score (self : CRF) (feats : tensor R) (B b : nat) (t : list nat) : result R :=
  let* s := _sequence_score self feats (tile B t) in
  Ok (at1 s b).

Fixpoint all_ok {A B : Type} (f : A -> result B) (xs : list A) : result (list B) :=
  match xs with
  | [] => Ok []
  | x :: xs' => let* y := f x in let* ys := all_ok f xs' in Ok (y :: ys)
  end.

(** Section 8: [log(sum over all C^L paths of exp(SequenceScore(path)))] by
    exhaustive enumeration, with [_sequence_score] as the scorer. *)
Definition brute_force_partition (self : CRF) (feats : tensor R) (B b C L : nat) : result R :=
  let* scores := all_ok (code_score self feats B b) (all_paths C L) in
  Ok (ln (list_sum (map exp scores))).

(** The score of a prefix: as [path_score], without the stop term. *)
Definition prefix_score (self : CRF) (feats : tensor R) (b : nat) (t : list nat) : R :=
  emission_sum feats b t + transition_sum self t
  + start_transitions self (nth 0 t 0%nat).

(** Following the back-pointers of example [b], last recorded first, from
    the tag [j]: the tags visited, and the path they spell once reversed. *)
Fixpoint walk (b : nat) (rpaths : list (nat -> nat -> nat)) (j : nat) : list nat :=
  match rpaths with
  | [] => []
  | idx :: rest => idx b j :: walk b rest (idx b j)
  end.

Definition trace (b : nat) (rpaths : list (nat -> nat -> nat)) (j : nat) : list nat :=
  rev (j :: walk b rpaths j).

(** The tensor [a] of [_partition_function] after its loop has run over the
    positions [1 .. n]. *)
Definition alpha (self : CRF) (feats : tensor R) (c n : nat) : nat -> nat -> R :=
  fold_left (forward_step self feats c) (seq 1 n)
            (fun b j => at3 feats b 0 j + start_transitions self j).

(** The total exponentiated score of the prefixes of [n + 1] positions
    that end in the tag [j], for example [b]. *)
Definition mass (self : CRF) (feats : tensor R) (c b n j : nat) : R :=
  list_sum (map (fun p => exp (prefix_score self feats b (p ++ [j])))
                (all_paths (S c) n)).

(** The state [(v, paths)] of [_viterbi] after its loop has run over the
    positions [1 .. n]. *)
Definition vstate (self : CRF) (feats : tensor R) (c n : nat)
  : (nat -> nat -> R) * list (nat -> nat -> nat) :=
  fold_left (viterbi_step self feats c) (seq 1 n)
            (fun b j => at3 feats b 0 j + start_transitions self j, []).

(** The invariant of that loop, for example [b]: [n] back-pointer tensors
    were recorded, every back-pointer is a tag, the score [v[b, j]] is the
    score of the prefix the back-pointers spell from [j], and no prefix of
    [n + 1] positions ending in [j] scores higher. *)
Definition viterbi_inv (self : CRF) (feats : tensor R) (c b n : nat)
           (st : (nat -> nat -> R) * list (nat -> nat -> nat)) : Prop :=
  List.length (snd st) = n /\
  Forall (fun idx => forall b' k, (idx b' k <= c)%nat) (snd st) /\
  (forall j, prefix_score self feats b (trace b (rev (snd st)) j) = fst st b j) /\
  (forall p j, valid_path (S c) n p ->
               prefix_score self feats b (p ++ [j]) <= fst st b j).

(** The tag sequence decoded for example [b] from a state of the loop. *)
Definition decoded (self : CRF) (c b : nat)
           (st : (nat -> nat -> R) * list (nat -> nat -> nat)) : list nat :=
  trace b (rev (snd st))
        (snd (max_dim c (fun j => fst st b j + stop_transitions self j))).

End Spec.

(* ------------------------------------------------------------------ *)
(** * Concrete inputs *)
(* ------------------------------------------------------------------ *)

Module Examples.
Import Torch CRF F1.

(** A store with two tags and all potentials 0, and a batch of one example
    of two positions with all emissions 0. *)
Definition crf0 : CRF := Build 2 (fun _ _ => 0%R) (fun _ => 0%R) (fun _ => 0%R).
Definition feats0 : tensor R := Tensor [1; 2; 2]%nat (fun _ => 0%R).
Definition tags0 : tensor nat := Tensor [1; 2]%nat (fun _ => 0%nat).

(** A store with one tag, and a batch of one example of a single position. *)
Definition crf1 : CRF := Build 1 (fun _ _ => 0%R) (fun _ => 0%R) (fun _ => 0%R).
Definition feats1 : tensor R := Tensor [1; 1; 1]%nat (fun _ => 0%R).
Definition tags1 : tensor nat := Tensor [1; 1]%nat (fun _ => 0%nat).

(** A store with two tags that tells the four tag sequences of length 2
    apart: the start potentials are [[0, 1]], the transition from tag 1 to
    tag 0 scores 3 and the others 0, there is no stop potential; and a batch
    of one example of two positions whose only non-zero emission is 2, for
    the tag 1 at position 1.  The sequences [[0, 0]], [[0, 1]], [[1, 0]] and
    [[1, 1]] score 0, 2, 4 and 3. *)
Definition crf2 : CRF :=
  Build 2 (fun i j => if ((i =? 1) && (j =? 0))%nat then 3%R else 0%R)
          (fun j => if (j =? 1)%nat then 1%R else 0%R)
          (fun _ => 0%R).
Definition feats2 : tensor R :=
  Tensor [1; 2; 2]%nat
         (fun idx => match idx with
                     | [_; 1; 1]%nat => 2%R
                     | _ => 0%R
                     end).

(** A tensor of rank 2, and a tag tensor of rank 1. *)
Definition feats_rank2 : tensor R := Tensor [1; 2]%nat (fun _ => 0%R).
Definition tags_rank1 : tensor nat := Tensor [1]%nat (fun _ => 0%nat).

(** The random draws of a constructor call: all 0. *)
Definition rng0 : rng := Rng (fun _ _ => 0%R) (fun _ _ _ => 0%R).

(** The case without entities of Section 8: [target = [0,0,0]] and
    [pred = [0,0,0]], two distinct lists. *)
Definition no_entities : store :=
  <[1%positive := [0; 0; 0]%Z]> (<[2%positive := [0; 0; 0]%Z]> ∅).

(** The matching example of Section 8: [target = [0,1,1,0,0]] and
    [pred = [0,1,1,0,0]], two distinct lists. *)
Definition matching : store :=
  <[1%positive := [0; 1; 1; 0; 0]%Z]> (<[2%positive := [0; 1; 1; 0; 0]%Z]> ∅).

(** The boundary mismatch of Section 8: [target = [0,1,1,0,0]] and
    [pred = [0,1,0,0,0]]; the prediction is at location 1. *)
Definition mismatching : store :=
  <[1%positive := [0; 1; 0; 0; 0]%Z]> (<[2%positive := [0; 1; 1; 0; 0]%Z]> ∅).

(** One list [[1]] reachable as prediction and as gold sequence. *)
Definition shared : store := <[1%positive := [1%Z]]> ∅.

End Examples.

(** Inputs of the data reader. *)
Module DataExamples.
Import Datareader.

(** [strip], [split(sep)] for a separator of one character and [split()] on
    ASCII text: white space is the blank and the characters 9 to 13. *)
Definition is_space (c : Ascii.ascii) : bool :=
  let n := Ascii.nat_of_ascii c in (n =? 32) || ((9 <=? n) && (n <=? 13)).

Fixpoint lstrip (s : string) : string :=
  match s with
  | EmptyString => EmptyString
  | String c r => if is_space c then lstrip r else s
  end.

Definition reverse (s : string) : string :=
  string_of_list_ascii (List.rev (list_ascii_of_string s)).

Definition ascii_strip (s : string) : string := reverse (lstrip (reverse (lstrip s))).

Fixpoint split_char (c : Ascii.ascii) (s : string) (cur : list Ascii.ascii) : list string :=
  match s with
  | EmptyString => [string_of_list_ascii (List.rev cur)]
  | String x r =>
      if Ascii.eqb x c then string_of_list_ascii (List.rev cur) :: split_char c r []
      else split_char c r (x :: cur)
  end.

Definition ascii_split_on (s sep : string) : list string :=
  match sep with
  | String c EmptyString => split_char c s []
  | _ => [s]
  end.

Definition flush (cur : list Ascii.ascii) : list string :=
  match cur with
  | [] => []
  | _ => [string_of_list_ascii (List.rev cur)]
  end.

Fixpoint words (s : string) (cur : list Ascii.ascii) : list string :=
  match s with
  | EmptyString => flush cur
  | String x r => if is_space x then flush cur ++ words r [] else words r (x :: cur)
  end.

Definition ascii_str : str_methods :=
  StrMethods ascii_strip ascii_split_on (fun s => words s []).

(** Two annotated utterances, and a file system whose seven files hold
    them. *)
Definition play_jazz : string := ("play jazz" ++ tab ++ "O B-genre")%string.
Definition rate_it : string :=
  ("rate this book five stars" ++ tab
   ++ "O B-object_select B-object_type B-rating_value B-rating_unit")%string.

Definition files0 (path : string) : list string :=
  if String.eqb path (snips_path "RateBook") then [rate_it; play_jazz] else [play_jazz].

(** A line without a tab, and a line whose utterance holds a reserved word. *)
Definition no_labels : string := "play jazz".
Definition unk_line : string := ("play UNK" ++ tab ++ "O O")%string.

(** What [datareader] returns on [files0]. *)
Definition loaded_data : gmap string data_bin :=
  match datareader ascii_str files0 with
  | Ok (data, _) => data
  | Raise _ => ∅
  end.

Definition loaded_vocab : Vocab.t :=
  match datareader ascii_str files0 with
  | Ok (_, vocab) => vocab
  | Raise _ => Vocab.__init__
  end.

End DataExamples.

(** Inputs of the layer in single precision. *)
Module Examples32.
Import Torch Float32.

(** ** A mathematical library

    [expf] and [logf] computed from series over the rationals and rounded
    once: the result is the binary32 number nearest to the exact value,
    unless that value lies within [10^-12] (relative) of the middle of two
    neighbours.  [exp(0) = 1] and [log(1) = 0] are exact, as they are in
    every library. *)

(** The value of a finite number. *)
Definition to_Q (x : float32) : Q :=
  match x with
  | SpecFloat.S754_finite s m e =>
      let v := if (0 <=? e)%Z then inject_Z (Z.pos m * 2 ^ e)
               else (Z.pos m # Z.to_pos (2 ^ (- e)))%Q in
      if s then (- v)%Q else v
  | _ => 0%Q
  end.

(** The binary32 number nearest to a rational: the quotient to 256 binary
    places, with a sticky bit, rounded. *)
Definition of_Q (q : Q) : float32 :=
  let n := Qnum q in
  let '(quo, rem) := Z.div_eucl (Z.abs n * 2 ^ 256) (Z.pos (Qden q)) in
  let m := (2 * quo + (if rem =? 0 then 0 else 1))%Z in
  SpecFloat.binary_normalize prec emax (if n <? 0 then - m else m)%Z (- 257) false.

(** [1/(2n+1) + z2 (1/(2n+3) + z2 (...))], [k] levels deep: with
    [z2 = z^2] and [n = 0], times [z], the series of [atanh z]. *)
Fixpoint atanh_horner (k : nat) (n : Z) (z2 : Q) : Q :=
  match k with
  | O => 0%Q
  | S k' => Qred (1 / inject_Z (2 * n + 1) + z2 * atanh_horner k' (n + 1) z2)
  end.

Definition atanh_Q (z : Q) : Q := (z * atanh_horner 28 0 (Qred (z * z)))%Q.

Definition ln2_Q : Q := Qred (2 * atanh_Q (1 # 3)).

(** [ln 2] to 128 binary places. *)
Definition ln2_128 : Q :=
  Eval vm_compute in
    (Z.div (Qnum ln2_Q * 2 ^ 128) (Z.pos (Qden ln2_Q)) # Z.to_pos (2 ^ 128))%Q.

(** [1 + r/i (1 + r/(i+1) (1 + ...))], [k] levels deep. *)
Fixpoint exp_horner (k : nat) (i : Z) (r : Q) : Q :=
  match k with
  | O => 1%Q
  | S k' => Qred (1 + r / inject_Z i * exp_horner k' (i + 1) r)
  end.

(** [exp(q)]: with [q = k ln 2 + r] and [|r| <= (ln 2)/2], the series at
    [r] times [2^k]. *)
Definition exp_Q (q : Q) : Q :=
  let t := (q / ln2_128 + (1 # 2))%Q in
  let k := Z.div (Qnum t) (Z.pos (Qden t)) in
  let r := Qred (q - inject_Z k * ln2_128) in
  let y := exp_horner 20 1 r in
  if (0 <=? k)%Z then (y * inject_Z (2 ^ k))%Q else (y / inject_Z (2 ^ (- k)))%Q.

Definition expf (x : float32) : float32 :=
  match x with
  | SpecFloat.S754_nan => SpecFloat.S754_nan
  | SpecFloat.S754_infinity false => x
  | SpecFloat.S754_infinity true => zero
  | SpecFloat.S754_zero _ => one
  | SpecFloat.S754_finite _ _ _ =>
      if Qle_bool 89 (to_Q x) then SpecFloat.S754_infinity false
      else if Qle_bool (to_Q x) (- 104) then zero
      else of_Q (exp_Q (to_Q x))
  end.

(** [log(m * 2^e)] for [m > 0]: with [m = y * 2^(b-1)] and [1 <= y < 2],
    [(e + b - 1) ln 2 + 2 atanh((y - 1)/(y + 1))]. *)
Definition log_Q (m : positive) (e : Z) : Q :=
  let b := Z.log2 (Z.pos m) in
  let y := (Z.pos m # Z.to_pos (2 ^ b))%Q in
  Qred (inject_Z (e + b) * ln2_128 + 2 * atanh_Q (Qred ((y - 1) / (y + 1)))).

Definition logf (x : float32) : float32 :=
  match x with
  | SpecFloat.S754_nan => SpecFloat.S754_nan
  | SpecFloat.S754_infinity false => x
  | SpecFloat.S754_infinity true => SpecFloat.S754_nan
  | SpecFloat.S754_zero _ => SpecFloat.S754_infinity true
  | SpecFloat.S754_finite true _ _ => SpecFloat.S754_nan
  | SpecFloat.S754_finite false m e => of_Q (log_Q m e)
  end.

Definition libm0 : libm := Libm expf logf.

(** ** Stores and emissions *)

(** [0.2], [16.1], [16.3], [30.6], [31.3], [17.2], [33.5], [36.3], [35.6]
    as binary32 numbers. *)
Definition f0_2 : float32 := lit 13421773 (-26).
Definition f16_1 : float32 := lit 8441037 (-19).
Definition f16_3 : float32 := lit 8545894 (-19).
Definition f30_6 : float32 := lit 16043213 (-19).
Definition f31_3 : float32 := lit 16410214 (-19).
Definition f17_2 : float32 := lit 9017754 (-19).
Definition f33_5 : float32 := lit 8781824 (-18).
Definition f36_3 : float32 := lit 9515827 (-18).
Definition f35_6 : float32 := lit 9332326 (-18).

(** Two tags, transitions and stop potentials 0, start potentials
    [[36.3, 35.6]]; one example with the emissions
    [[[30.6, 31.3], [17.2, 33.5]]]. *)
Definition crf_a : CRF32.CRF :=
  CRF32.Build 2 (fun _ _ => zero) (fun j => nth j [f36_3; f35_6] zero) (fun _ => zero).

Definition feats_a : tensor float32 :=
  Tensor [1; 2; 2]%nat
         (fun idx => nth (nth 2 idx 0%nat)
                         (nth (nth 1 idx 0%nat) [[f30_6; f31_3]; [f17_2; f33_5]] []) zero).

(** Two tags, transitions and stop potentials 0, start potentials
    [[0.2, 0]]; one example with the emissions [[[16.1, 0], [16.3, 0]]]. *)
Definition crf_b : CRF32.CRF :=
  CRF32.Build 2 (fun _ _ => zero) (fun j => nth j [f0_2; zero] zero) (fun _ => zero).

Definition feats_b : tensor float32 :=
  Tensor [1; 2; 2]%nat
         (fun idx => nth (nth 2 idx 0%nat)
                         (nth (nth 1 idx 0%nat) [[f16_1; zero]; [f16_3; zero]] []) zero).

(** One tag, transition and stop potential 0, start potential [0.2]; one
    example with the emissions [[[16.1], [16.3]]]. *)
Definition crf_c : CRF32.CRF :=
  CRF32.Build 1 (fun _ _ => zero) (fun _ => f0_2) (fun _ => zero).

Definition feats_c : tensor float32 :=
  Tensor [1; 2; 1]%nat (fun idx => nth (nth 1 idx 0%nat) [f16_1; f16_3] zero).

(** The tag tensor of one example [t]. *)
Definition one_row (t : list nat) : tensor nat :=
  Tensor [1; List.length t]%nat (fun idx => nth (nth 1 idx 0%nat) t 0%nat).

End Examples32.

(* ------------------------------------------------------------------ *)
(** * Reductions: sums, maxima and log-sum-exp *)
(* ------------------------------------------------------------------ *)

Module Reductions.
Import Py Torch CRF Spec.
Local Open Scope R_scope.

Lemma sum_dim_ext (n : nat) (f g : nat -> R) :
  (forall i, (i < n)%nat -> f i = g i) -> sum_dim n f = sum_dim n g.
Proof.
  induction n as [|n IH]; intros H; simpl; [reflexivity|].
  rewrite IH by (intros; apply H; lia).
  rewrite H by lia. reflexivity.
Qed.

Lemma sum_dim_scal (n : nat) (a : R) (f : nat -> R) :
  sum_dim n (fun i => f i * a) = sum_dim n f * a.
Proof. induction n as [|n IH]; simpl; [lra|]. rewrite IH. lra. Qed.

Lemma sum_dim_plus (n : nat) (f g : nat -> R) :
  sum_dim n (fun i => f i + g i) = sum_dim n f + sum_dim n g.
Proof. induction n as [|n IH]; simpl; [lra|]. rewrite IH. lra. Qed.

Lemma sum_dim_nonneg (n : nat) (f : nat -> R) :
  (forall i, (i < n)%nat -> 0 <= f i) -> 0 <= sum_dim n f.
Proof.
  induction n as [|n IH]; intros H; simpl; [lra|].
  assert (0 <= sum_dim n f) by (apply IH; intros; apply H; lia).
  assert (0 <= f n) by (apply H; lia). lra.
Qed.

Lemma sum_dim_pos (n : nat) (f : nat -> R) :
  (0 < n)%nat -> (forall i, (i < n)%nat -> 0 < f i) -> 0 < sum_dim n f.
Proof.
  intros Hn H. destruct n as [|n]; [lia|]. simpl.
  assert (0 <= sum_dim n f).
  { apply sum_dim_nonneg. intros i Hi. left. apply H. lia. }
  assert (0 < f n) by (apply H; lia). lra.
Qed.

Lemma sum_dim_ge_term (n k : nat) (f : nat -> R) :
  (forall i, (i < n)%nat -> 0 <= f i) -> (k < n)%nat -> f k <= sum_dim n f.
Proof.
  induction n as [|n IH]; intros H Hk; [lia|]. simpl.
  assert (0 <= sum_dim n f) by (apply sum_dim_nonneg; intros; apply H; lia).
  assert (0 <= f n) by (apply H; lia).
  destruct (Nat.eq_dec k n) as [->|Hne]; [lra|].
  assert (f k <= sum_dim n f) by (apply IH; [intros; apply H|]; lia). lra.
Qed.

(** Exchanging a sum over a list with a sum over a dimension. *)
Lemma list_sum_app (xs ys : list R) : list_sum (xs ++ ys) = list_sum xs + list_sum ys.
Proof. unfold list_sum. induction xs as [|x xs IH]; simpl; [lra|]. rewrite IH. lra. Qed.

Lemma list_sum_seq (n : nat) (f : nat -> R) :
  list_sum (map f (seq 0 n)) = sum_dim n f.
Proof.
  induction n as [|n IH]; [reflexivity|].
  rewrite seq_S, map_app, list_sum_app, IH. simpl. unfold list_sum. simpl. lra.
Qed.

Lemma list_sum_sum_dim {A : Type} (n : nat) (F : A -> nat -> R) (xs : list A) :
  list_sum (map (fun x => sum_dim n (F x)) xs)
  = sum_dim n (fun j => list_sum (map (fun x => F x j) xs)).
Proof.
  induction xs as [|x xs IH]; simpl.
  - unfold list_sum. simpl. induction n as [|n IHn]; simpl; lra.
  - unfold list_sum in *. simpl. rewrite IH.
    rewrite <- sum_dim_plus. reflexivity.
Qed.

Lemma list_sum_scal {A : Type} (a : R) (F : A -> R) (xs : list A) :
  list_sum (map (fun x => F x * a) xs) = list_sum (map F xs) * a.
Proof.
  unfold list_sum. induction xs as [|x xs IH]; simpl; [lra|]. rewrite IH. lra.
Qed.

Lemma list_sum_ext {A : Type} (F G : A -> R) (xs : list A) :
  (forall x, In x xs -> F x = G x) -> list_sum (map F xs) = list_sum (map G xs).
Proof.
  unfold list_sum. induction xs as [|x xs IH]; intros H; simpl; [reflexivity|].
  rewrite H by (left; reflexivity). rewrite IH; [reflexivity|].
  intros y Hy. apply H. right. exact Hy.
Qed.

Lemma list_sum_ge_term {A : Type} (F : A -> R) (xs : list A) (x : A) :
  (forall y, 0 <= F y) -> In x xs -> F x <= list_sum (map F xs).
Proof.
  intros Hpos. unfold list_sum.
  induction xs as [|y xs IH]; intros Hin; [destruct Hin|]. simpl.
  assert (0 <= fold_right Rplus 0 (map F xs)).
  { clear - Hpos. induction xs as [|z xs IH]; simpl; [lra|]. specialize (Hpos z). lra. }
  destruct Hin as [->|Hin].
  - lra.
  - specialize (IH Hin). specialize (Hpos y). lra.
Qed.

(** [max] over a dimension: the value is attained at the returned index,
    bounds every entry, and the index is the first one attaining it. *)
Lemma max_dim_spec (c : nat) (g : nat -> R) :
  let '(m, k) := max_dim c g in
  (k <= c)%nat /\ m = g k /\ (forall j, (j <= c)%nat -> g j <= m)
  /\ (forall j, (j < k)%nat -> g j < m).
Proof.
  induction c as [|c IH]; simpl.
  - split; [lia|]. split; [reflexivity|]. split.
    + intros j Hj. replace j with 0%nat by lia. lra.
    + intros j Hj. lia.
  - destruct (max_dim c g) as [m k]. destruct IH as (Hk & Hm & Hub & Hfirst).
    destruct (Rlt_dec m (g (S c))) as [Hlt|Hnlt].
    + split; [lia|]. split; [reflexivity|]. split.
      * intros j Hj. destruct (Nat.eq_dec j (S c)) as [->|Hne]; [lra|].
        assert (g j <= m) by (apply Hub; lia). lra.
      * intros j Hj. assert (g j <= m) by (apply Hub; lia). lra.
    + split; [lia|]. split; [assumption|]. split; [|assumption].
      intros j Hj. destruct (Nat.eq_dec j (S c)) as [->|Hne]; [lra|].
      apply Hub. lia.
Qed.

Lemma max_dim_index (c : nat) (g : nat -> R) : (snd (max_dim c g) <= c)%nat.
Proof. pose proof (max_dim_spec c g) as H. destruct (max_dim c g). simpl. tauto. Qed.

Lemma max_dim_value (c : nat) (g : nat -> R) :
  fst (max_dim c g) = g (snd (max_dim c g)).
Proof. pose proof (max_dim_spec c g) as H. destruct (max_dim c g). simpl. tauto. Qed.

Lemma max_dim_upper (c : nat) (g : nat -> R) (j : nat) :
  (j <= c)%nat -> g j <= fst (max_dim c g).
Proof.
  pose proof (max_dim_spec c g) as H. destruct (max_dim c g). simpl.
  intros Hj. apply H. exact Hj.
Qed.

(** [_log_sum_exp] is the logarithm of the sum of the exponentials: the
    subtraction of the maximum cancels. *)
Lemma exp_log_sum_exp (c : nat) (g : nat -> R) :
  exp (_log_sum_exp c g) = sum_dim (S c) (fun k => exp (g k)).
Proof.
  unfold _log_sum_exp. set (m := fst (max_dim c g)).
  rewrite exp_plus, exp_ln.
  - rewrite Rmult_comm, <- sum_dim_scal. apply sum_dim_ext. intros i _.
    rewrite <- exp_plus. f_equal. lra.
  - apply sum_dim_pos; [lia|]. intros i _. apply exp_pos.
Qed.

Lemma log_sum_exp_ln (c : nat) (g : nat -> R) :
  _log_sum_exp c g = ln (sum_dim (S c) (fun k => exp (g k))).
Proof. rewrite <- exp_log_sum_exp. symmetry. apply ln_exp. Qed.

End Reductions.

(* ------------------------------------------------------------------ *)
(** * Tag sequences and their scores *)
(* ------------------------------------------------------------------ *)

Module Paths.
Import Py Torch CRF Spec Reductions.
Local Open Scope R_scope.

Lemma in_all_paths (C L : nat) (t : list nat) :
  In t (all_paths C L) <-> valid_path C L t.
Proof.
  unfold valid_path. revert t. induction L as [|L IH]; intros t; simpl.
  - split.
    + intros [<-|[]]. split; [reflexivity|constructor].
    + intros [Hlen _]. left. destruct t; [reflexivity|discriminate].
  - rewrite in_flat_map. split.
    + intros (p & Hp & Ht). apply IH in Hp. destruct Hp as [Hlen Hall].
      apply in_map_iff in Ht. destruct Ht as (j & <- & Hj).
      apply in_seq in Hj. split.
      * rewrite length_app. simpl. lia.
      * apply Forall_app. split; [exact Hall|]. constructor; [lia|constructor].
    + intros [Hlen Hall].
      destruct (exists_last (l := t)) as (p & j & ->).
      { intros ->. discriminate. }
      rewrite length_app in Hlen. simpl in Hlen.
      apply Forall_app in Hall. destruct Hall as [Hp Hj].
      exists p. split.
      * apply IH. split; [lia|exact Hp].
      * apply in_map_iff. exists j. split; [reflexivity|].
        apply in_seq. inversion Hj; subst. lia.
Qed.

Lemma length_all_paths (C L : nat) : List.length (all_paths C L) = (C ^ L)%nat.
Proof.
  induction L as [|L IH]; [reflexivity|]. simpl.
  assert (H : forall xs : list (list nat),
             List.length (flat_map (fun p => map (fun j => p ++ [j]) (seq 0 C)) xs)
             = (C * List.length xs)%nat).
  { induction xs as [|x xs IHx]; simpl; [lia|].
    rewrite length_app, length_map, length_seq, IHx. lia. }
  rewrite H, IH. reflexivity.
Qed.

(** The enumeration lists no sequence twice. *)
Lemma NoDup_all_paths (C L : nat) : NoDup (all_paths C L).
Proof.
  induction L as [|L IH]; simpl; [apply NoDup_singleton|].
  induction IH as [|p ps Hp Hps IHps]; simpl; [constructor|].
  apply NoDup_app. split; [|split; [|exact IHps]].
  - apply NoDup_ListNoDup. apply Finite.Injective_map_NoDup; [|apply List.seq_NoDup].
    intros x y Hxy. apply app_inv_head in Hxy. congruence.
  - intros t Ht Ht'. apply list_elem_of_In in Ht, Ht'.
    apply in_map_iff in Ht. destruct Ht as (j & <- & _).
    apply in_flat_map in Ht'. destruct Ht' as (p' & Hp' & Ht').
    apply in_map_iff in Ht'. destruct Ht' as (j' & Heq & _).
    apply app_inj_tail in Heq. destruct Heq as [-> _].
    apply Hp. apply list_elem_of_In. exact Hp'.
Qed.

(** A sum over the sequences of length [S L] is a sum over the sequences of
    length [L] and over the last tag. *)
Lemma list_sum_all_paths_S (C L : nat) (F : list nat -> R) :
  list_sum (map F (all_paths C (S L)))
  = list_sum (map (fun p => sum_dim C (fun j => F (p ++ [j]))) (all_paths C L)).
Proof.
  simpl. induction (all_paths C L) as [|p ps IH]; [reflexivity|].
  simpl. rewrite map_app, list_sum_app, IH.
  rewrite map_map, list_sum_seq. unfold list_sum. simpl. reflexivity.
Qed.

Lemma nth_snoc_last (t : list nat) (j : nat) :
  nth (List.length t) (t ++ [j]) 0%nat = j.
Proof. rewrite app_nth2 by lia. rewrite Nat.sub_diag. reflexivity. Qed.

Lemma prefix_score_single (self : CRF) (feats : tensor R) (b j : nat) :
  prefix_score self feats b [j] = at3 feats b 0 j + start_transitions self j.
Proof. unfold prefix_score, emission_sum, transition_sum. simpl. lra. Qed.

(** Extending a non-empty prefix by the tag [j] adds the transition into
    [j] and the emission of [j] at the new position. *)
Lemma prefix_score_snoc (self : CRF) (feats : tensor R) (b : nat)
      (t : list nat) (n j : nat) :
  List.length t = S n ->
  prefix_score self feats b (t ++ [j])
  = prefix_score self feats b t
    + transitions self (nth n t 0%nat) j + at3 feats b (S n) j.
Proof.
  intros Hlen. unfold prefix_score, emission_sum, transition_sum.
  rewrite length_app, Hlen. simpl List.length.
  replace (S n + 1)%nat with (S (S n)) by lia.
  replace (S (S n) - 1)%nat with (S n) by lia.
  replace (S n - 1)%nat with n by lia.
  simpl sum_dim.
  assert (E1 : sum_dim n (fun i => at3 feats b i (nth i (t ++ [j]) 0%nat))
               = sum_dim n (fun i => at3 feats b i (nth i t 0%nat))).
  { apply sum_dim_ext. intros i Hi. rewrite app_nth1 by lia. reflexivity. }
  assert (E2 : sum_dim n (fun i => transitions self (nth i (t ++ [j]) 0%nat)
                                               (nth (i + 1) (t ++ [j]) 0%nat))
               = sum_dim n (fun i => transitions self (nth i t 0%nat)
                                                 (nth (i + 1) t 0%nat))).
  { apply sum_dim_ext. intros i Hi. rewrite !app_nth1 by lia. reflexivity. }
  assert (N0 : nth 0 (t ++ [j]) 0%nat = nth 0 t 0%nat) by (apply app_nth1; lia).
  assert (N1 : nth n (t ++ [j]) 0%nat = nth n t 0%nat) by (apply app_nth1; lia).
  assert (N2 : nth (S n) (t ++ [j]) 0%nat = j).
  { rewrite <- Hlen. apply nth_snoc_last. }
  assert (N3 : nth (n + 1) (t ++ [j]) 0%nat = j).
  { replace (n + 1)%nat with (S n) by lia. exact N2. }
  rewrite E1, E2, N0, N1, N2, N3. lra.
Qed.

Lemma path_score_prefix (self : CRF) (feats : tensor R) (b : nat) (t : list nat) :
  path_score self feats b t
  = prefix_score self feats b t
    + stop_transitions self (nth (List.length t - 1) t 0%nat).
Proof. reflexivity. Qed.

Lemma path_score_snoc (self : CRF) (feats : tensor R) (b : nat) (p : list nat) (j : nat) :
  path_score self feats b (p ++ [j])
  = prefix_score self feats b (p ++ [j]) + stop_transitions self j.
Proof.
  rewrite path_score_prefix. rewrite length_app. simpl.
  replace (List.length p + 1 - 1)%nat with (List.length p) by lia.
  rewrite nth_snoc_last. reflexivity.
Qed.

End Paths.

(* ------------------------------------------------------------------ *)
(** * The sequence scorer *)
(* ------------------------------------------------------------------ *)

Module Scorer.
Import Py Torch CRF Spec Reductions Paths.
Local Open Scope R_scope.

Lemma all2_true (B L : nat) (p : nat -> nat -> bool) :
  all2 B L p = true <-> (forall b i, (b < B)%nat -> (i < L)%nat -> p b i = true).
Proof.
  unfold all2. rewrite forallb_forall. split.
  - intros H b i Hb Hi.
    assert (Hrow : forallb (p b) (seq 0 L) = true) by (apply H, in_seq; lia).
    rewrite forallb_forall in Hrow. apply Hrow, in_seq. lia.
  - intros H b Hb. apply in_seq in Hb. apply forallb_forall.
    intros i Hi. apply in_seq in Hi. apply H; lia.
Qed.

Lemma nth_map_seq {A : Type} (f : nat -> A) (L i : nat) (d : A) :
  (i < L)%nat -> nth i (map f (seq 0 L)) d = f i.
Proof.
  intros Hi. rewrite (nth_indep _ d (f 0%nat)) by (rewrite length_map, length_seq; lia).
  rewrite map_nth, seq_nth by lia. reflexivity.
Qed.

Lemma length_row (tags : tensor nat) (b L : nat) : List.length (row tags b L) = L.
Proof. unfold row. rewrite length_map, length_seq. reflexivity. Qed.

Lemma nth_row (tags : tensor nat) (b L i : nat) :
  (i < L)%nat -> nth i (row tags b L) 0%nat = at2 tags b i.
Proof. intros Hi. unfold row. apply nth_map_seq. exact Hi. Qed.

Lemma row_tile (B b : nat) (t : list nat) : row (tile B t) b (List.length t) = t.
Proof.
  apply nth_ext with (d := 0%nat) (d' := 0%nat).
  - apply length_row.
  - intros i Hi. rewrite length_row in Hi. rewrite nth_row by exact Hi. reflexivity.
Qed.

(** The closed form of Section 4.2 over the entries of the tag tensor. *)
Lemma path_score_row (self : CRF) (feats : tensor R) (tags : tensor nat) (b L : nat) :
  (2 <= L)%nat ->
  path_score self feats b (row tags b L)
  = sum_dim L (fun i => at3 feats b i (at2 tags b i))
    + start_transitions self (at2 tags b 0)
    + sum_dim (L - 1) (fun w => transitions self (at2 tags b w) (at2 tags b (w + 1)))
    + stop_transitions self (at2 tags b (L - 1)).
Proof.
  intros HL. unfold path_score, emission_sum, transition_sum.
  rewrite length_row.
  rewrite (sum_dim_ext L (fun i => at3 feats b i (nth i (row tags b L) 0%nat))
                       (fun i => at3 feats b i (at2 tags b i))).
  2:{ intros i Hi. rewrite nth_row by exact Hi. reflexivity. }
  rewrite (sum_dim_ext (L - 1)
             (fun i => transitions self (nth i (row tags b L) 0%nat)
                                   (nth (i + 1) (row tags b L) 0%nat))
             (fun w => transitions self (at2 tags b w) (at2 tags b (w + 1)))).
  2:{ intros i Hi. rewrite !nth_row by lia. reflexivity. }
  rewrite !nth_row by lia. lra.
Qed.

(** For sequences of at least two positions, with every tag a valid column
    of [feats] and a valid index of the parameters, [_sequence_score]
    returns, for each example, emission + transition + start + stop. *)
Lemma sequence_score_decomposition (self : CRF) (feats : tensor R) (tags : tensor nat)
      (B L C : nat) :
  shape feats = [B; L; C] ->
  shape tags = [B; L] ->
  (forall b i, (b < B)%nat -> (i < L)%nat ->
               (at2 tags b i < C)%nat /\ (at2 tags b i < num_tags self)%nat) ->
  (2 <= L)%nat ->
  exists s, _sequence_score self feats tags = Ok s /\ shape s = [B] /\
            forall b, at1 s b = path_score self feats b (row tags b L).
Proof.
  intros Hf Ht Hrange HL. unfold _sequence_score. rewrite Hf, Ht.
  rewrite !Nat.leb_refl. simpl negb.
  assert (H1 : all2 B L (fun b i => (at2 tags b i <? C)%nat) = true).
  { apply all2_true. intros b i Hb Hi. apply Nat.ltb_lt. apply Hrange; assumption. }
  assert (H2 : all2 B L (fun b i => (at2 tags b i <? num_tags self)%nat) = true).
  { apply all2_true. intros b i Hb Hi. apply Nat.ltb_lt. apply Hrange; assumption. }
  rewrite H1, H2. simpl negb.
  assert (H3 : (L <? 2)%nat = false) by (apply Nat.ltb_ge; exact HL).
  rewrite H3. eexists. split; [reflexivity|]. split; [reflexivity|].
  intros b. rewrite path_score_row by exact HL. reflexivity.
Qed.

(** A sequence of one position (or none) is rejected: [unfold] finds no
    window of size 2. *)
Lemma sequence_score_short (self : CRF) (feats : tensor R) (tags : tensor nat)
      (B L C : nat) :
  shape feats = [B; L; C] ->
  shape tags = [B; L] ->
  (forall b i, (b < B)%nat -> (i < L)%nat -> (at2 tags b i < C)%nat) ->
  (L < 2)%nat ->
  _sequence_score self feats tags
  = Raise (RuntimeError "unfold: maximum size for tensor at dimension 1 is smaller than size 2").
Proof.
  intros Hf Ht Hrange HL. unfold _sequence_score. rewrite Hf, Ht.
  rewrite !Nat.leb_refl. simpl negb.
  assert (H1 : all2 B L (fun b i => (at2 tags b i <? C)%nat) = true).
  { apply all2_true. intros b i Hb Hi. apply Nat.ltb_lt. apply Hrange; assumption. }
  rewrite H1. simpl negb.
  assert (H3 : (L <? 2)%nat = true) by (apply Nat.ltb_lt; exact HL).
  rewrite H3. reflexivity.
Qed.

(** The scorer on one candidate sequence, copied over the batch. *)
Lemma code_score_valid (self : CRF) (feats : tensor R) (B L C b : nat) (t : list nat) :
  shape feats = [B; L; C] ->
  num_tags self = C ->
  valid_path C L t ->
  (2 <= L)%nat ->
  code_score self feats B b t = Ok (path_score self feats b t).
Proof.
  intros Hf Hn [Hlen Hall] HL. unfold code_score.
  destruct (sequence_score_decomposition self feats (tile B t) B L C) as (s & Hs & _ & Hv).
  - exact Hf.
  - unfold tile. simpl. rewrite Hlen. reflexivity.
  - intros b' i _ Hi. rewrite Hn.
    assert (at2 (tile B t) b' i < C)%nat; [|lia].
    unfold at2, tile. simpl. rewrite List.Forall_forall in Hall.
    apply Hall. apply nth_In. lia.
  - exact HL.
  - rewrite Hs. simpl. rewrite Hv. rewrite <- Hlen, row_tile. reflexivity.
Qed.

Lemma all_ok_map {A B : Type} (f : A -> result B) (g : A -> B) (xs : list A) :
  (forall x, In x xs -> f x = Ok (g x)) -> all_ok f xs = Ok (map g xs).
Proof.
  induction xs as [|x xs IH]; intros H; simpl; [reflexivity|].
  rewrite H by (left; reflexivity). simpl.
  rewrite IH by (intros y Hy; apply H; right; exact Hy). reflexivity.
Qed.

End Scorer.

(* ------------------------------------------------------------------ *)
(** * The forward algorithm *)
(* ------------------------------------------------------------------ *)

Module Forward.
Import Py Torch CRF Spec Reductions Paths Scorer.
Local Open Scope R_scope.

Lemma sequence_score_inv (self : CRF) (feats : tensor R) (tags : tensor nat)
      (B L C : nat) (s : tensor R) :
  shape feats = [B; L; C] ->
  shape tags = [B; L] ->
  _sequence_score self feats tags = Ok s ->
  (2 <= L)%nat /\
  (forall b i, (b < B)%nat -> (i < L)%nat ->
               (at2 tags b i < C)%nat /\ (at2 tags b i < num_tags self)%nat) /\
  (forall b, at1 s b = path_score self feats b (row tags b L)).
Proof.
  intros Hf Ht. unfold _sequence_score. rewrite Hf, Ht.
  rewrite !Nat.leb_refl. simpl negb.
  destruct (all2 B L (fun b i => (at2 tags b i <? C)%nat)) eqn:H1; [|discriminate].
  simpl negb.
  destruct (L <? 2)%nat eqn:H3; [discriminate|].
  destruct (all2 B L (fun b i => (at2 tags b i <? num_tags self)%nat)) eqn:H2; [|discriminate].
  simpl negb. intros Hs. injection Hs as <-.
  apply Nat.ltb_ge in H3.
  rewrite all2_true in H1, H2.
  split; [exact H3|]. split.
  - intros b i Hb Hi. split; apply Nat.ltb_lt; [apply H1|apply H2]; assumption.
  - intros b. rewrite path_score_row by exact H3. reflexivity.
Qed.

Lemma valid_row (tags : tensor nat) (b L C : nat) :
  (forall i, (i < L)%nat -> (at2 tags b i < C)%nat) -> valid_path C L (row tags b L).
Proof.
  intros H. split; [apply length_row|].
  apply List.Forall_forall. intros j Hj. unfold row in Hj.
  apply in_map_iff in Hj. destruct Hj as (i & <- & Hi). apply in_seq in Hi.
  apply H. lia.
Qed.

Section Recurrence.
Variables (self : CRF) (feats : tensor R) (c : nat).
Local Abbreviation alpha := (Spec.alpha self feats c).
Local Abbreviation mass := (Spec.mass self feats c).

Lemma alpha_S (n : nat) :
  alpha (S n) = forward_step self feats c (alpha n) (S n).
Proof. unfold alpha. rewrite seq_S, fold_left_app. reflexivity. Qed.

Lemma mass_S (b n j : nat) :
  mass b (S n) j
  = sum_dim (S c) (fun k => mass b n k
                            * exp (transitions self k j + at3 feats b (S n) j)).
Proof.
  unfold mass. rewrite list_sum_all_paths_S.
  rewrite (list_sum_ext _
             (fun p => sum_dim (S c)
                         (fun k => exp (prefix_score self feats b (p ++ [k]))
                                   * exp (transitions self k j + at3 feats b (S n) j)))).
  - rewrite list_sum_sum_dim. apply sum_dim_ext. intros k _.
    apply (list_sum_scal _ (fun p => exp (prefix_score self feats b (p ++ [k])))).
  - intros p Hp. apply in_all_paths in Hp. destruct Hp as [Hlen _].
    apply sum_dim_ext. intros k _. rewrite <- exp_plus. f_equal.
    rewrite (prefix_score_snoc self feats b (p ++ [k]) n j).
    + rewrite <- Hlen, nth_snoc_last. lra.
    + rewrite length_app. simpl. lia.
Qed.

(** The invariant of the forward loop. *)
Lemma exp_alpha (b n j : nat) : exp (alpha n b j) = mass b n j.
Proof.
  revert j. induction n as [|n IH]; intros j.
  - unfold alpha, mass. simpl. rewrite prefix_score_single.
    unfold list_sum. simpl. lra.
  - rewrite alpha_S, mass_S. unfold forward_step. rewrite exp_log_sum_exp.
    apply sum_dim_ext. intros k _. rewrite <- IH, <- exp_plus. f_equal. lra.
Qed.

(** The value returned for example [b]: its exponential is the total
    exponentiated score of all tag sequences. *)
Lemma exp_partition (b n : nat) :
  exp (_log_sum_exp c (fun j => alpha n b j + stop_transitions self j))
  = list_sum (map (fun t => exp (path_score self feats b t)) (all_paths (S c) (S n))).
Proof.
  rewrite exp_log_sum_exp, list_sum_all_paths_S, list_sum_sum_dim.
  apply sum_dim_ext. intros j _.
  rewrite exp_plus, exp_alpha. unfold mass.
  rewrite <- (list_sum_scal (exp (stop_transitions self j))
                (fun p => exp (prefix_score self feats b (p ++ [j])))).
  apply list_sum_ext. intros p _.
  rewrite path_score_snoc, exp_plus. reflexivity.
Qed.

End Recurrence.

(** What [_partition_function] returns on a well-shaped input. *)
Lemma partition_function_ok (self : CRF) (feats : tensor R) (B n c : nat) :
  shape feats = [B; S n; S c] ->
  num_tags self = S c ->
  _partition_function self feats
  = Ok (vec B (fun b => _log_sum_exp c (fun j => alpha self feats c n b j
                                                + stop_transitions self j))).
Proof.
  intros Hf Hn. unfold _partition_function. rewrite Hf, Hn, Nat.eqb_refl.
  simpl negb. cbv iota. replace (S n - 1)%nat with n by lia. reflexivity.
Qed.

Lemma partition_value (self : CRF) (feats : tensor R) (B L C : nat) :
  shape feats = [B; L; C] ->
  num_tags self = C ->
  (1 <= L)%nat -> (1 <= C)%nat ->
  exists z, _partition_function self feats = Ok z /\ shape z = [B] /\
            forall b, exp (at1 z b)
                      = list_sum (map (fun t => exp (path_score self feats b t))
                                      (all_paths C L)).
Proof.
  intros Hf Hn HL HC.
  destruct L as [|n]; [lia|]. destruct C as [|c]; [lia|].
  eexists. split; [apply partition_function_ok; eassumption|].
  split; [reflexivity|]. intros b. apply exp_partition.
Qed.

End Forward.

(* ------------------------------------------------------------------ *)
(** * The Viterbi decoder *)
(* ------------------------------------------------------------------ *)

Module Viterbi.
Import Py Torch CRF Spec Reductions Paths Scorer Forward.
Local Open Scope R_scope.

Lemma length_walk (b : nat) (rpaths : list (nat -> nat -> nat)) (j : nat) :
  List.length (walk b rpaths j) = List.length rpaths.
Proof.
  revert j. induction rpaths as [|idx rest IH]; intros j; simpl; [reflexivity|].
  rewrite IH. reflexivity.
Qed.

Lemma trace_cons (b : nat) (idx : nat -> nat -> nat) (rest : list (nat -> nat -> nat))
      (j : nat) :
  trace b (idx :: rest) j = trace b rest (idx b j) ++ [j].
Proof. unfold trace. simpl. reflexivity. Qed.

Lemma length_trace (b : nat) (rpaths : list (nat -> nat -> nat)) (j : nat) :
  List.length (trace b rpaths j) = S (List.length rpaths).
Proof. unfold trace. rewrite length_rev. simpl. rewrite length_walk. reflexivity. Qed.

Lemma trace_in_range (b c : nat) (rpaths : list (nat -> nat -> nat)) (j : nat) :
  Forall (fun idx => forall b' k, (idx b' k <= c)%nat) rpaths ->
  (j <= c)%nat ->
  Forall (fun k => (k < S c)%nat) (trace b rpaths j).
Proof.
  intros Hidx. revert j. induction Hidx as [|idx rest Hi Hrest IH]; intros j Hj.
  - unfold trace. simpl. constructor; [lia|constructor].
  - rewrite trace_cons. apply Forall_app. split.
    + apply IH. apply Hi.
    + constructor; [lia|constructor].
Qed.

(** The backtracking loop collects, for each example, the tags met while
    following the back-pointers. *)
Lemma backtrack_fold (b : nat) (rpaths : list (nat -> nat -> nat))
      (tag : nat -> nat) (acc : list (nat -> nat)) :
  map (fun f => f b) (snd (fold_left backtrack_step rpaths (tag, acc)))
  = map (fun f => f b) acc ++ walk b rpaths (tag b).
Proof.
  revert tag acc. induction rpaths as [|idx rest IH]; intros tag acc; simpl.
  - rewrite app_nil_r. reflexivity.
  - rewrite IH, map_app. simpl. rewrite <- app_assoc. reflexivity.
Qed.

Lemma backtrack_length (rpaths : list (nat -> nat -> nat))
      (tag : nat -> nat) (acc : list (nat -> nat)) :
  List.length (snd (fold_left backtrack_step rpaths (tag, acc)))
  = (List.length acc + List.length rpaths)%nat.
Proof.
  revert tag acc. induction rpaths as [|idx rest IH]; intros tag acc; simpl; [lia|].
  rewrite IH, length_app. simpl. lia.
Qed.

Lemma row_cat1 (B b : nat) (ts : list (nat -> nat)) :
  row (cat1 0%nat B ts) b (List.length ts) = map (fun f => f b) ts.
Proof.
  apply nth_ext with (d := 0%nat) (d' := 0%nat).
  - rewrite length_row, length_map. reflexivity.
  - intros i Hi. rewrite length_row in Hi. rewrite nth_row by exact Hi.
    unfold at2, cat1. simpl.
    exact (eq_sym (map_nth (fun f : nat -> nat => f b) ts (fun _ => 0%nat) i)).
Qed.

Section Decoder.
Variables (self : CRF) (feats : tensor R) (c : nat).
Local Abbreviation vstate := (Spec.vstate self feats c).
Local Abbreviation viterbi_inv := (Spec.viterbi_inv self feats c).
Local Abbreviation decoded := (Spec.decoded self c).

Lemma vstate_S (n : nat) :
  vstate (S n) = viterbi_step self feats c (vstate n) (S n).
Proof. unfold vstate. rewrite seq_S, fold_left_app. reflexivity. Qed.

Lemma viterbi_inv_holds (b n : nat) : viterbi_inv b n (vstate n).
Proof.
  induction n as [|n IH].
  - unfold viterbi_inv, vstate. simpl. split; [reflexivity|]. split; [constructor|].
    split.
    + intros j. unfold trace. simpl. apply prefix_score_single.
    + intros p j [Hlen _]. destruct p; [|discriminate].
      simpl. rewrite prefix_score_single. lra.
  - rewrite vstate_S. destruct (vstate n) as [v paths].
    destruct IH as (Hlen & Hidx & Hval & Hub). simpl in Hlen, Hidx, Hval, Hub.
    unfold viterbi_inv, viterbi_step. simpl fst. simpl snd.
    split; [rewrite length_app; simpl; lia|]. split.
    { apply Forall_app. split; [exact Hidx|]. constructor; [|constructor].
      intros b' k. apply max_dim_index. }
    split.
    + intros j. rewrite rev_app_distr. simpl rev. simpl app. rewrite trace_cons.
      set (k := snd (max_dim c (fun k0 => v b k0 + transitions self k0 j))).
      rewrite (prefix_score_snoc self feats b (trace b (rev paths) k) n j).
      2:{ rewrite length_trace, length_rev, Hlen. reflexivity. }
      rewrite Hval.
      assert (Hn : nth n (trace b (rev paths) k) 0%nat = k).
      { unfold trace. simpl rev.
        replace n with (List.length (rev (walk b (rev paths) k))).
        - apply nth_snoc_last.
        - rewrite length_rev, length_walk, length_rev. exact Hlen. }
      rewrite Hn, max_dim_value. reflexivity.
    + intros p j [Hplen Hpall].
      destruct (exists_last (l := p)) as (q & k & ->).
      { intros ->. discriminate. }
      rewrite length_app in Hplen. simpl in Hplen.
      apply Forall_app in Hpall. destruct Hpall as [Hq Hk].
      rewrite (prefix_score_snoc self feats b (q ++ [k]) n j).
      2:{ rewrite length_app. simpl. lia. }
      replace n with (List.length q) at 1 by lia. rewrite nth_snoc_last.
      assert (H1 : prefix_score self feats b (q ++ [k]) <= v b k).
      { apply Hub. split; [lia|exact Hq]. }
      assert (H2 : v b k + transitions self k j
                   <= fst (max_dim c (fun k0 => v b k0 + transitions self k0 j))).
      { apply (max_dim_upper c (fun k0 => v b k0 + transitions self k0 j)).
        inversion Hk; subst. lia. }
      lra.
Qed.

Lemma decoded_valid (b n : nat) : valid_path (S c) (S n) (decoded b (vstate n)).
Proof.
  destruct (viterbi_inv_holds b n) as (Hlen & Hidx & _ & _).
  unfold decoded. split.
  - rewrite length_trace, length_rev, Hlen. reflexivity.
  - apply trace_in_range.
    + apply Forall_rev. exact Hidx.
    + apply max_dim_index.
Qed.

Lemma decoded_optimal (b n : nat) (t : list nat) :
  valid_path (S c) (S n) t ->
  path_score self feats b t <= path_score self feats b (decoded b (vstate n)).
Proof.
  intros [Htlen Htall].
  destruct (viterbi_inv_holds b n) as (Hlen & Hidx & Hval & Hub).
  destruct (vstate n) as [v paths] eqn:Est. simpl in Hlen, Hidx, Hval, Hub.
  unfold decoded. simpl fst. simpl snd.
  set (g := fun j => v b j + stop_transitions self j).
  set (k := snd (max_dim c g)).
  assert (Hbest : path_score self feats b (trace b (rev paths) k) = fst (max_dim c g)).
  { unfold trace. simpl rev. rewrite path_score_snoc.
    change (rev (walk b (rev paths) k) ++ [k]) with (trace b (rev paths) k).
    rewrite Hval. rewrite max_dim_value. reflexivity. }
  rewrite Hbest.
  destruct (exists_last (l := t)) as (p & j & ->).
  { intros ->. discriminate. }
  rewrite length_app in Htlen. simpl in Htlen.
  apply Forall_app in Htall. destruct Htall as [Hp Hj].
  rewrite path_score_snoc.
  assert (H1 : prefix_score self feats b (p ++ [j]) <= v b j).
  { apply Hub. split; [lia|exact Hp]. }
  assert (H2 : g j <= fst (max_dim c g)).
  { apply max_dim_upper. inversion Hj; subst. lia. }
  unfold g in H2 at 1. lra.
Qed.

End Decoder.

(** What [_viterbi] returns on a well-shaped input: for each example, the
    sequence decoded from the final state of the loop. *)
Lemma viterbi_ok (self : CRF) (feats : tensor R) (B n c : nat) :
  shape feats = [B; S n; S c] ->
  num_tags self = S c ->
  exists best, _viterbi self feats = Ok best /\ shape best = [B; S n] /\
               forall b, row best b (S n) = decoded self c b (vstate self feats c n).
Proof.
  intros Hf Hn. unfold _viterbi. rewrite Hf, Hn, Nat.eqb_refl.
  simpl negb. cbv iota. replace (S n - 1)%nat with n by lia.
  fold (vstate self feats c n).
  pose proof (viterbi_inv_holds self feats c 0 n) as (Hlen & _).
  destruct (vstate self feats c n) as [v paths]. simpl in Hlen.
  set (tag := fun b => snd (max_dim c (fun j => v b j + stop_transitions self j))).
  pose proof (backtrack_length (rev paths) tag [tag]) as Hl.
  pose proof (fun b => backtrack_fold b (rev paths) tag [tag]) as Hm.
  destruct (fold_left backtrack_step (rev paths) (tag, [tag])) as [last tags].
  simpl in Hl, Hm. rewrite length_rev, Hlen in Hl.
  eexists. split; [reflexivity|]. split.
  - unfold cat1. simpl. rewrite length_rev, Hl. reflexivity.
  - intros b. replace (S n) with (List.length (rev tags)) by (rewrite length_rev; lia).
    rewrite row_cat1, map_rev, Hm. reflexivity.
Qed.

End Viterbi.

(* ------------------------------------------------------------------ *)
(** * The CRF layer against its specification *)
(* ------------------------------------------------------------------ *)

Module CRFSpec.
Import Py Torch CRF Spec Examples Reductions Paths Scorer Forward Viterbi.
Local Open Scope R_scope.

(** Without a position or without a tag the decoder and the partition
    function raise: there is no first position to read, or nothing to
    reduce over. *)
Lemma degenerate_shapes_raise (self : CRF) (feats : tensor R) (B L C : nat) :
  shape feats = [B; L; C] -> num_tags self = C -> (L = 0 \/ C = 0)%nat ->
  (exists msg, _partition_function self feats = Raise (IndexError msg)) /\
  (exists msg, forward self feats = Raise (IndexError msg)).
Proof.
  intros Hf Hn Hdeg. unfold forward, _partition_function, _viterbi.
  rewrite Hf, Hn, Nat.eqb_refl. simpl.
  destruct L as [|n]; [split; eexists; reflexivity|].
  destruct C as [|c]; [split; eexists; reflexivity|].
  destruct Hdeg; discriminate.
Qed.



Lemma exp_le_reflect (x y : R) : exp x <= exp y -> x <= y.
Proof.
  intros H. destruct (Rle_dec x y) as [Hle|Hnle]; [exact Hle|].
  assert (exp y < exp x) by (apply exp_increasing; lra). lra.
Qed.

(** C2.  The partition function against exhaustive enumeration.  On an
    emission tensor of shape [[B, L, C]] with [C = num_tags],
    [_partition_function] raises when there is no position or no tag, and
    otherwise returns a tensor of shape [[B]] whose entry for example [b] is
    the logarithm of the sum, over all tag sequences of length [L] with
    tags below [C] ([all_paths] lists each of the [C^L] once), of the
    exponential of the sequence's score: the score of Section 4.2, which is
    what [_sequence_score] returns for every sequence whenever [L >= 2], so
    that the enumeration with [_sequence_score] as the scorer yields the
    same number. *)
Theorem partition_is_log_sum_over_paths (self : CRF) (feats : tensor R) (B L C : nat) :
  shape feats = [B; L; C] ->
  num_tags self = C ->
  ((L = 0 \/ C = 0)%nat -> exists msg, _partition_function self feats = Raise (IndexError msg))
  /\
  ((1 <= L)%nat -> (1 <= C)%nat ->
  exists z,
    _partition_function self feats = Ok z /\
    shape z = [B] /\
    (List.length (all_paths C L) = (C ^ L)%nat /\ NoDup (all_paths C L) /\
     forall t, In t (all_paths C L) <-> valid_path C L t) /\
    forall b, (b < B)%nat ->
      at1 z b = ln (list_sum (map (fun t => exp (path_score self feats b t))
                                  (all_paths C L))) /\
      ((2 <= L)%nat -> brute_force_partition self feats B b C L = Ok (at1 z b))).
Proof.
  intros Hf Hn. split.
  { intros Hdeg. apply (degenerate_shapes_raise self feats B L C Hf Hn Hdeg). }
  intros HL HC.
  destruct (partition_value self feats B L C Hf Hn HL HC) as (z & Hz & Hshape & Hexp).
  exists z. split; [exact Hz|]. split; [exact Hshape|].
  split.
  { split; [apply length_all_paths|]. split; [apply NoDup_all_paths|].
    intros t. apply in_all_paths. }
  intros b _.
  assert (Hv : at1 z b = ln (list_sum (map (fun t => exp (path_score self feats b t))
                                          (all_paths C L)))).
  { rewrite <- Hexp. symmetry. apply ln_exp. }
  split; [exact Hv|].
  intros H2. unfold brute_force_partition.
  rewrite (all_ok_map (code_score self feats B b) (path_score self feats b)).
  - simpl. rewrite map_map, Hv. reflexivity.
  - intros t Ht. apply in_all_paths in Ht.
    apply (code_score_valid self feats B L C); assumption.
Qed.

Lemma partition_is_log_sum_over_paths_witness :
  shape feats0 = [1; 2; 2]%nat /\ num_tags crf0 = 2%nat /\
  exists z,
    _partition_function crf0 feats0 = Ok z /\
    shape z = [1]%nat /\
    (List.length (all_paths 2 2) = (2 ^ 2)%nat /\ NoDup (all_paths 2 2) /\
     forall t, In t (all_paths 2 2) <-> valid_path 2 2 t) /\
    forall b, (b < 1)%nat ->
      at1 z b = ln (list_sum (map (fun t => exp (path_score crf0 feats0 b t))
                                  (all_paths 2 2))) /\
      ((2 <= 2)%nat -> brute_force_partition crf0 feats0 1 b 2 2 = Ok (at1 z b)).
Proof.
  split; [reflexivity|]. split; [reflexivity|].
  apply (partition_is_log_sum_over_paths crf0 feats0 1 2 2);
    [reflexivity|reflexivity|lia|lia].
Defined.



(** C3, at its failing input.  On one example of a single position with a
    valid tag, [_sequence_score] raises: [unfold(1, 2, 1)] finds no window of
    size 2 in a dimension of size 1.  So does [loss]; the partition function
    and the decoder accept the same tensor. *)
Example sequence_score_single_position :
  _sequence_score crf1 feats1 tags1
  = Raise (RuntimeError "unfold: maximum size for tensor at dimension 1 is smaller than size 2")
  /\ loss crf1 feats1 tags1
     = Raise (RuntimeError "unfold: maximum size for tensor at dimension 1 is smaller than size 2")
  /\ (exists z, _partition_function crf1 feats1 = Ok z /\ shape z = [1]%nat)
  /\ (exists best, forward crf1 feats1 = Ok best /\ shape best = [1; 1]%nat).
Proof.
  assert (Hs : _sequence_score crf1 feats1 tags1
               = Raise (RuntimeError "unfold: maximum size for tensor at dimension 1 is smaller than size 2")).
  { reflexivity. }
  split; [exact Hs|]. split.
  - reflexivity.
  - split; eexists; (split; [reflexivity|reflexivity]).
Qed.

Lemma sequence_score_shape (self : CRF) (feats : tensor R) (tags : tensor nat)
      (B L C : nat) (s : tensor R) :
  shape feats = [B; L; C] ->
  shape tags = [B; L] ->
  _sequence_score self feats tags = Ok s ->
  shape s = [B].
Proof.
  intros Hf Ht. unfold _sequence_score. rewrite Hf, Ht.
  repeat match goal with
         | |- context [if ?c then _ else _] => destruct c; try discriminate
         end.
  intros Hs. injection Hs as <-. reflexivity.
Qed.

(** C4.  The loss is the negative mean log-likelihood.  On [feats] of shape
    [[B, L, C]] and [tags] of shape [[B, L]] with [C = num_tags] and tags in
    range, the shape checks of [loss] pass and [loss] is the negative of the
    mean over the batch of [_sequence_score(feats, tags)[b] -
    _partition_function(feats)[b]], raising what either of the two raises;
    both return, and so does [loss], when there are at least two positions
    and one tag. *)
Theorem loss_is_negative_mean_log_likelihood
        (self : CRF) (feats : tensor R) (tags : tensor nat) (B L C : nat) :
  shape feats = [B; L; C] ->
  shape tags = [B; L] ->
  num_tags self = C ->
  (forall b i, (b < B)%nat -> (i < L)%nat -> (at2 tags b i < C)%nat) ->
  loss self feats tags
  = (let* s := _sequence_score self feats tags in
     let* z := _partition_function self feats in
     Ok (- (sum_dim B (fun b => at1 s b - at1 z b) / INR B)))
  /\ ((2 <= L)%nat -> (1 <= C)%nat ->
      exists s z,
        _sequence_score self feats tags = Ok s /\
        _partition_function self feats = Ok z /\
        loss self feats tags = Ok (- (sum_dim B (fun b => at1 s b - at1 z b) / INR B))).
Proof.
  intros Hf Ht Hn Hr.
  assert (Heq : loss self feats tags
                = (let* s := _sequence_score self feats tags in
                   let* z := _partition_function self feats in
                   Ok (- (sum_dim B (fun b => at1 s b - at1 z b) / INR B)))).
  { unfold loss. rewrite Hf, Ht. simpl List.length. simpl firstn.
    rewrite !Nat.eqb_refl. simpl negb. cbv iota.
    rewrite bool_decide_eq_true_2 by reflexivity. simpl negb. cbv iota.
    destruct (_sequence_score self feats tags) as [s|e] eqn:Hs; [|reflexivity].
    simpl. destruct (_partition_function self feats) as [z|e]; [|reflexivity].
    simpl. unfold mean, sub1.
    rewrite (sequence_score_shape self feats tags B L C s Hf Ht Hs).
    reflexivity. }
  split; [exact Heq|].
  intros HL HC.
  destruct (sequence_score_decomposition self feats tags B L C) as (s & Hs & _);
    try assumption.
  { intros b i Hb Hi. rewrite Hn. split; apply Hr; assumption. }
  destruct (partition_value self feats B L C) as (z & Hz & _); try assumption; try lia.
  exists s, z. split; [exact Hs|]. split; [exact Hz|].
  rewrite Heq, Hs, Hz. reflexivity.
Qed.

Lemma loss_is_negative_mean_log_likelihood_witness :
  shape feats0 = [1; 2; 2]%nat /\ shape tags0 = [1; 2]%nat /\ num_tags crf0 = 2%nat /\
  (forall b i, (b < 1)%nat -> (i < 2)%nat -> (at2 tags0 b i < 2)%nat) /\
  loss crf0 feats0 tags0
  = (let* s := _sequence_score crf0 feats0 tags0 in
     let* z := _partition_function crf0 feats0 in
     Ok (- (sum_dim 1 (fun b => at1 s b - at1 z b) / INR 1)))
  /\ ((2 <= 2)%nat -> (1 <= 2)%nat ->
      exists s z,
        _sequence_score crf0 feats0 tags0 = Ok s /\
        _partition_function crf0 feats0 = Ok z /\
        loss crf0 feats0 tags0 = Ok (- (sum_dim 1 (fun b => at1 s b - at1 z b) / INR 1))).
Proof.
  split; [reflexivity|]. split; [reflexivity|]. split; [reflexivity|].
  assert (Hr : forall b i, (b < 1)%nat -> (i < 2)%nat -> (at2 tags0 b i < 2)%nat).
  { intros b i _ _. simpl. lia. }
  split; [exact Hr|].
  apply (loss_is_negative_mean_log_likelihood crf0 feats0 tags0 1 2 2);
    [reflexivity|reflexivity|reflexivity|exact Hr].
Defined.

(** C6.  Shape and dimension errors.  [loss] raises a [ValueError] whenever
    [feats] is not rank-3, [tags] is not rank-2, or the first two dimensions
    of [feats] are not the shape of [tags]; the outcome is fixed by the two
    shapes alone, whatever the parameters and the entries are (nothing is
    computed from them).  [_partition_function] and [_viterbi] raise a
    [ValueError] whenever the shape of [feats] is not [[B, L, num_tags]],
    again whatever the parameters and the entries are; for a rank-3 tensor
    whose last dimension is not [num_tags] it is the error of the
    [num_tags] check. *)
Theorem shape_and_dimension_errors (self : CRF) (feats : tensor R) (tags : tensor nat) :
  ((List.length (shape feats) <> 3%nat \/ List.length (shape tags) <> 2%nat
    \/ firstn 2 (shape feats) <> shape tags) ->
   is_ValueError (loss self feats tags) /\
   (forall self' feats' tags',
      shape feats' = shape feats -> shape tags' = shape tags ->
      loss self' feats' tags' = loss self feats tags))
  /\
  ((forall B L, shape feats <> [B; L; num_tags self]) ->
   is_ValueError (_partition_function self feats) /\
   is_ValueError (_viterbi self feats) /\
   (forall self' feats',
      num_tags self' = num_tags self -> shape feats' = shape feats ->
      _partition_function self' feats' = _partition_function self feats /\
      _viterbi self' feats' = _viterbi self feats))
  /\
  (forall B L C, shape feats = [B; L; C] -> C <> num_tags self ->
     _partition_function self feats = Raise (ValueError "num_tags should be {} but got {}") /\
     _viterbi self feats = Raise (ValueError "num_tags should be {} but got {}")).
Proof.
  split; [|split].
  - intros Hbad.
    assert (Hloss : forall self' feats' tags',
               shape feats' = shape feats -> shape tags' = shape tags ->
               is_ValueError (loss self' feats' tags') /\
               loss self' feats' tags' = loss self feats tags).
    { intros self' feats' tags' Hf Ht. unfold loss. rewrite Hf, Ht.
      destruct (List.length (shape feats) =? 3)%nat eqn:E3; simpl; [|split; [exact I|reflexivity]].
      destruct (List.length (shape tags) =? 2)%nat eqn:E2; simpl; [|split; [exact I|reflexivity]].
      destruct (bool_decide (firstn 2 (shape feats) = shape tags)) eqn:E;
        simpl; [|split; [exact I|reflexivity]].
      exfalso. apply Nat.eqb_eq in E3, E2. apply bool_decide_eq_true_1 in E.
      destruct Hbad as [H|[H|H]]; contradiction. }
    split.
    + apply (Hloss self feats tags); reflexivity.
    + intros self' feats' tags' Hf Ht. apply Hloss; assumption.
  - intros Hbad.
    assert (Hboth : forall self' feats',
               num_tags self' = num_tags self -> shape feats' = shape feats ->
               (is_ValueError (_partition_function self' feats') /\
                _partition_function self' feats' = _partition_function self feats) /\
               (is_ValueError (_viterbi self' feats') /\
                _viterbi self' feats' = _viterbi self feats)).
    { intros self' feats' Hn Hf. unfold _partition_function, _viterbi. rewrite Hf, Hn.
      destruct (shape feats) as [|B [|L [|C [|x rest]]]] eqn:Es;
        try (split; (split; [exact I|reflexivity])).
      destruct (num_tags self =? C)%nat eqn:E; simpl;
        [|split; (split; [exact I|reflexivity])].
      exfalso. apply Nat.eqb_eq in E. subst C. apply (Hbad B L). reflexivity. }
    split; [apply (Hboth self feats); reflexivity|].
    split; [apply (Hboth self feats); reflexivity|].
    intros self' feats' Hn Hf. split; apply Hboth; assumption.
  - intros B L C Hf HC. unfold _partition_function, _viterbi. rewrite Hf.
    assert (E : (num_tags self =? C)%nat = false) by (apply Nat.eqb_neq; congruence).
    rewrite E. split; reflexivity.
Qed.

Lemma shape_and_dimension_errors_witness :
  is_ValueError (loss crf0 feats_rank2 tags0) /\
  is_ValueError (loss crf0 feats0 tags_rank1) /\
  is_ValueError (loss crf0 feats0 tags1) /\
  is_ValueError (_partition_function crf1 feats0) /\
  is_ValueError (_viterbi crf1 feats0).
Proof.
  split; [|split; [|split; [|split]]].
  - destruct (shape_and_dimension_errors crf0 feats_rank2 tags0) as (H & _ & _).
    apply H. left. simpl. lia.
  - destruct (shape_and_dimension_errors crf0 feats0 tags_rank1) as (H & _ & _).
    apply H. right. left. simpl. lia.
  - destruct (shape_and_dimension_errors crf0 feats0 tags1) as (H & _ & _).
    apply H. right. right. simpl. congruence.
  - destruct (shape_and_dimension_errors crf1 feats0 tags0) as (_ & H & _).
    apply H. intros B L. simpl. congruence.
  - destruct (shape_and_dimension_errors crf1 feats0 tags0) as (_ & H & _).
    apply H. intros B L. simpl. congruence.
Defined.

(** C7.  Construction of the store.  [CRF.__init__] raises when
    [num_tags <= 0]: the allocation of the transition tensor rejects a
    negative size, and the Xavier initialiser divides by
    [fan_in + fan_out = 0] when [num_tags = 0].  It returns a store, with
    that number of tags, exactly when [num_tags > 0]. *)
Theorem init_requires_positive_num_tags (g : rng) (n : Z) :
  ((n <= 0)%Z -> exists e, __init__ g n = Raise e) /\
  ((0 < n)%Z -> exists self, __init__ g n = Ok self /\ Z.of_nat (num_tags self) = n) /\
  (forall self, __init__ g n = Ok self -> (0 < n)%Z).
Proof.
  assert (Hneg : (n < 0)%Z -> exists e, __init__ g n = Raise e).
  { intros H. unfold __init__, Tensor2.
    assert (E : (n <? 0)%Z = true) by (apply Z.ltb_lt; exact H).
    rewrite E. simpl. eexists. reflexivity. }
  assert (Hzero : n = 0%Z -> exists e, __init__ g n = Raise e).
  { intros ->. unfold __init__, Tensor2, xavier_normal_. simpl. eexists. reflexivity. }
  assert (Hpos : (0 < n)%Z ->
                 exists self, __init__ g n = Ok self /\ Z.of_nat (num_tags self) = n).
  { intros H. unfold __init__, Tensor2, xavier_normal_.
    assert (E : (n <? 0)%Z = false) by (apply Z.ltb_ge; lia).
    rewrite E. simpl.
    assert (E' : (Z.to_nat n + Z.to_nat n =? 0)%nat = false) by (apply Nat.eqb_neq; lia).
    rewrite E'. simpl. eexists. split; [reflexivity|]. simpl. lia. }
  split; [|split].
  - intros H. destruct (Z.eq_dec n 0%Z) as [E|E]; [apply Hzero; exact E|apply Hneg; lia].
  - exact Hpos.
  - intros self Hself. destruct (Z_lt_le_dec 0%Z n) as [H|H]; [exact H|].
    exfalso. destruct (Z.eq_dec n 0%Z) as [E|E].
    + destruct (Hzero E) as (e & He). congruence.
    + destruct (Hneg ltac:(lia)) as (e & He). congruence.
Qed.

Lemma init_requires_positive_num_tags_witness :
  (exists e, __init__ rng0 0%Z = Raise e) /\
  (exists e, __init__ rng0 (-1)%Z = Raise e) /\
  (exists self, __init__ rng0 3%Z = Ok self
                /\ Z.of_nat (num_tags self) = 3%Z).
Proof.
  split; [|split].
  - apply (init_requires_positive_num_tags rng0 0%Z). lia.
  - apply (init_requires_positive_num_tags rng0 (-1)%Z). lia.
  - apply (init_requires_positive_num_tags rng0 3%Z). lia.
Defined.



End CRFSpec.

(* ------------------------------------------------------------------ *)
(** * The two passes of f1_score *)
(* ------------------------------------------------------------------ *)

Module Passes.
Import Py F1.
Local Open Scope Z_scope.

Lemma index_in_range {A : Type} (l : list A) (k : Z) :
  - Z.of_nat (List.length l) <= k < Z.of_nat (List.length l) ->
  exists v, index l k = Some v.
Proof.
  intros Hk. unfold index.
  assert (Hnth : forall n, (n < List.length l)%nat -> exists v, nth_error l n = Some v).
  { intros n Hn. destruct (nth_error l n) as [v|] eqn:E; [eauto|].
    apply nth_error_None in E. lia. }
  destruct (0 <=? k) eqn:E0; simpl.
  - assert (Hlt : (k <? Z.of_nat (List.length l)) = true) by (apply Z.ltb_lt; lia).
    rewrite Hlt. apply Hnth. apply Z.leb_le in E0. lia.
  - apply Z.leb_gt in E0.
    assert (H1 : (- Z.of_nat (List.length l) <=? k) = true) by (apply Z.leb_le; lia).
    assert (H2 : (k <? 0) = true) by (apply Z.ltb_lt; lia).
    rewrite H1, H2. simpl. apply Hnth. lia.
Qed.

Lemma index_nonneg {A : Type} (l : list A) (n : nat) :
  (n < List.length l)%nat -> index l (Z.of_nat n) = nth_error l n.
Proof.
  intros Hn. unfold index.
  assert (H1 : (0 <=? Z.of_nat n) = true) by (apply Z.leb_le; lia).
  assert (H2 : (Z.of_nat n <? Z.of_nat (List.length l)) = true) by (apply Z.ltb_lt; lia).
  rewrite H1, H2. simpl. rewrite Nat2Z.id. reflexivity.
Qed.

(** Index [-1] of a list that ends in the sentinel reads the sentinel. *)
Lemma index_last {A : Type} (l : list A) (x : A) : index (l ++ [x]) (-1) = Some x.
Proof.
  unfold index. rewrite length_app. simpl List.length.
  assert (H0 : (0 <=? -1) = false) by reflexivity. rewrite H0. simpl andb.
  assert (H1 : (- Z.of_nat (List.length l + 1) <=? -1) = true) by (apply Z.leb_le; lia).
  rewrite H1. simpl.
  replace (Z.to_nat (Z.of_nat (List.length l + 1) + -1)) with (List.length l) by lia.
  rewrite nth_error_app2 by lia. rewrite Nat.sub_diag. reflexivity.
Qed.

Lemma getitem_in_range (x : list Z) (k : Z) :
  - Z.of_nat (List.length x) <= k < Z.of_nat (List.length x) ->
  exists v, getitem x k = Ok v.
Proof.
  intros Hk. unfold getitem. destruct (index_in_range x k Hk) as (v & ->). eauto.
Qed.

Lemma in_range (a b k : Z) : In k (range a b) <-> a <= k < b.
Proof.
  unfold range. rewrite in_map_iff. split.
  - intros (n & <- & Hn). apply in_seq in Hn. lia.
  - intros Hk. exists (Z.to_nat (k - a)). split; [lia|]. apply in_seq. lia.
Qed.

Lemma range_S (n : nat) :
  range 0 (Z.of_nat (S n)) = range 0 (Z.of_nat n) ++ [Z.of_nat n].
Proof.
  unfold range. rewrite !Z.sub_0_r, !Nat2Z.id. rewrite seq_S, map_app. reflexivity.
Qed.

(** [range(0 - 1, e + 1)] starts at index [-1]. *)
Lemma range_from_minus_one (e : Z) :
  0 <= e -> range (0 - 1) (e + 1) = (-1) :: range 0 (e + 1).
Proof.
  intros He. unfold range.
  replace (Z.to_nat (e + 1 - (0 - 1))) with (S (Z.to_nat (e + 1 - 0))) by lia.
  rewrite <- cons_seq. simpl map. f_equal.
  rewrite <- seq_shift, map_map. apply map_ext. intros k. lia.
Qed.

Lemma for_each_app {S A : Type} (body : S -> A -> result S) (xs ys : list A) (s : S) :
  for_each body (xs ++ ys) s
  = (let* s' := for_each body xs s in for_each body ys s').
Proof.
  revert s. induction xs as [|x xs IH]; intros s; simpl; [reflexivity|].
  destruct (body s x) as [s'|e]; simpl; [apply IH|reflexivity].
Qed.

(** A loop whose body preserves an invariant, and does not raise under it,
    does not raise and ends in a state satisfying the invariant. *)
Lemma for_each_invariant {S A : Type} (body : S -> A -> result S) (P : S -> Prop)
      (xs : list A) (s : S) :
  P s ->
  (forall s x, In x xs -> P s -> exists s', body s x = Ok s' /\ P s') ->
  exists s', for_each body xs s = Ok s' /\ P s'.
Proof.
  revert s. induction xs as [|x xs IH]; intros s Hs Hbody; simpl.
  - eauto.
  - destruct (Hbody s x) as (s1 & E1 & Hs1); [left; reflexivity|exact Hs|].
    rewrite E1. simpl. apply IH; [exact Hs1|].
    intros s2 y Hy. apply Hbody. right. exact Hy.
Qed.

Lemma compare_loop_total (true_ pred : list Z) (inds : list Z) (neg : bool) :
  List.length true_ = List.length pred ->
  (forall k, In k inds ->
             - Z.of_nat (List.length pred) <= k < Z.of_nat (List.length pred)) ->
  exists r, compare_loop true_ pred inds neg = Ok r.
Proof.
  intros Hlen. induction inds as [|k rest IH]; intros Hin; simpl; [eauto|].
  destruct (getitem_in_range true_ k) as (t & ->).
  { rewrite Hlen. apply Hin. left. reflexivity. }
  destruct (getitem_in_range pred k) as (p & ->).
  { apply Hin. left. reflexivity. }
  simpl. destruct (negb (t =? p)); [eauto|].
  apply IH. intros k' Hk'. apply Hin. right. exact Hk'.
Qed.

Lemma getitem_In (x : list Z) (k v : Z) : getitem x k = Ok v -> In v x.
Proof.
  unfold getitem, index. intros H.
  destruct ((0 <=? k) && (k <? Z.of_nat (List.length x))).
  - destruct (nth_error x (Z.to_nat k)) eqn:E; [|discriminate].
    injection H as <-. eapply nth_error_In. exact E.
  - destruct ((- Z.of_nat (List.length x) <=? k) && (k <? 0)); [|discriminate].
    destruct (nth_error x (Z.to_nat (Z.of_nat (List.length x) + k))) eqn:E; [|discriminate].
    injection H as <-. eapply nth_error_In. exact E.
Qed.

(** ** The body of the first pass, case by case *)

Lemma pass1_opens (true_ pred : list Z) (v : locals) (c : counts) (i t : Z) :
  getitem true_ i = Ok t -> entity_flag v = false -> t <> 0 ->
  pass1_body true_ pred (v, c) i = Ok (Locals i (endpt v) true (neg_flag v), c).
Proof.
  intros Ht Hf Hne. unfold pass1_body. rewrite Ht. simpl.
  assert (E : (t =? 0) = false) by (apply Z.eqb_neq; exact Hne).
  rewrite Hf, E. simpl. reflexivity.
Qed.

Lemma pass1_outside (true_ pred : list Z) (v : locals) (c : counts) (i : Z) :
  getitem true_ i = Ok 0 -> entity_flag v = false ->
  pass1_body true_ pred (v, c) i = Ok (v, c).
Proof.
  intros Ht Hf. unfold pass1_body. rewrite Ht. simpl. rewrite Hf. reflexivity.
Qed.

Lemma pass1_inside (true_ pred : list Z) (v : locals) (c : counts) (i t : Z) :
  getitem true_ i = Ok t -> entity_flag v = true -> t <> 0 ->
  pass1_body true_ pred (v, c) i = Ok (v, c).
Proof.
  intros Ht Hf Hne. unfold pass1_body. rewrite Ht. simpl.
  assert (E : (t =? 0) = false) by (apply Z.eqb_neq; exact Hne).
  rewrite Hf, E. simpl. reflexivity.
Qed.

Lemma pass1_closes (true_ pred : list Z) (v : locals) (c : counts) (i : Z) (neg : bool) :
  getitem true_ i = Ok 0 -> entity_flag v = true ->
  compare_loop true_ pred (range (stpt v - 1) (i + 1)) (neg_flag v) = Ok neg ->
  pass1_body true_ pred (v, c) i
  = Ok (Locals (stpt v) i false false,
        if neg then Counts (TP c) (FN c + 1) (FP c) else Counts (TP c + 1) (FN c) (FP c)).
Proof.
  intros Ht Hf Hcmp. unfold pass1_body. rewrite Ht. simpl. rewrite Hf. simpl.
  rewrite Hcmp. reflexivity.
Qed.

(** ** The body of the second pass, case by case *)

Lemma pass2_opens (true_ pred : list Z) (v : locals) (c : counts) (i : Z) :
  getitem pred i = Ok 1 -> entity_flag v = false ->
  pass2_body true_ pred (v, c) i = Ok (Locals i (endpt v) true (neg_flag v), c).
Proof.
  intros Hp Hf. unfold pass2_body. rewrite Hp. simpl. rewrite Hf. reflexivity.
Qed.

Lemma pass2_not_opened (true_ pred : list Z) (v : locals) (c : counts) (i p : Z) :
  getitem pred i = Ok p -> entity_flag v = false -> p <> 1 ->
  pass2_body true_ pred (v, c) i = Ok (v, c).
Proof.
  intros Hp Hf Hne. unfold pass2_body. rewrite Hp. simpl.
  assert (E : (p =? 1) = false) by (apply Z.eqb_neq; exact Hne).
  rewrite E. simpl. rewrite Hf, andb_false_r. reflexivity.
Qed.

Lemma pass2_inside (true_ pred : list Z) (v : locals) (c : counts) (i p : Z) :
  getitem pred i = Ok p -> entity_flag v = true -> p <> 0 ->
  pass2_body true_ pred (v, c) i = Ok (v, c).
Proof.
  intros Hp Hf Hne. unfold pass2_body. rewrite Hp. simpl.
  assert (E : (p =? 0) = false) by (apply Z.eqb_neq; exact Hne).
  rewrite Hf, andb_false_r, E. simpl. reflexivity.
Qed.

Lemma pass2_closes (true_ pred : list Z) (v : locals) (c : counts) (i : Z) (neg : bool) :
  getitem pred i = Ok 0 -> entity_flag v = true ->
  compare_loop true_ pred (range (stpt v - 1) (i + 1)) (neg_flag v) = Ok neg ->
  pass2_body true_ pred (v, c) i
  = Ok (Locals (stpt v) i false false,
        if neg then Counts (TP c) (FN c) (FP c + 1) else c).
Proof.
  intros Hp Hf Hcmp. unfold pass2_body. rewrite Hp. simpl. rewrite Hf. simpl.
  rewrite Hcmp. reflexivity.
Qed.

(** ** Totality and invariants of the two loops *)

Lemma compare_range_total (true_ pred : list Z) (st i : Z) (neg : bool) :
  List.length true_ = List.length pred ->
  0 <= st -> 0 <= i < Z.of_nat (List.length pred) ->
  exists r, compare_loop true_ pred (range (st - 1) (i + 1)) neg = Ok r.
Proof.
  intros Hlen Hst Hi. apply compare_loop_total; [exact Hlen|].
  intros k Hk. apply in_range in Hk. lia.
Qed.

Lemma pass1_body_preserves (true_ pred : list Z) (v : locals) (c : counts) (i : Z) :
  List.length true_ = List.length pred ->
  0 <= i < Z.of_nat (List.length pred) ->
  0 <= stpt v ->
  exists v' c', pass1_body true_ pred (v, c) i = Ok (v', c') /\
                0 <= stpt v' /\ FP c' = FP c /\
                (getitem true_ i = Ok 0 -> entity_flag v' = false).
Proof.
  intros Hlen Hi Hst.
  destruct (getitem_in_range true_ i) as (t & Ht); [lia|].
  destruct (Z.eq_dec t 0) as [->|Hne]; destruct (entity_flag v) eqn:Hf.
  - destruct (compare_range_total true_ pred (stpt v) i (neg_flag v) Hlen Hst Hi)
      as (neg & Hcmp).
    rewrite (pass1_closes true_ pred v c i neg Ht Hf Hcmp).
    eexists _, _. split; [reflexivity|]. simpl. split; [exact Hst|].
    split; [destruct neg; reflexivity|]. intros _. reflexivity.
  - rewrite (pass1_outside true_ pred v c i Ht Hf).
    eexists _, _. split; [reflexivity|]. split; [exact Hst|].
    split; [reflexivity|]. intros _. exact Hf.
  - rewrite (pass1_inside true_ pred v c i t Ht Hf Hne).
    eexists _, _. split; [reflexivity|]. split; [exact Hst|].
    split; [reflexivity|]. intros H. rewrite Ht in H. injection H as H. contradiction.
  - rewrite (pass1_opens true_ pred v c i t Ht Hf Hne).
    eexists _, _. split; [reflexivity|]. simpl. split; [lia|].
    split; [reflexivity|]. intros H. rewrite Ht in H. injection H as H. contradiction.
Qed.

Lemma pass2_body_preserves (true_ pred : list Z) (v : locals) (c : counts) (i : Z) :
  List.length true_ = List.length pred ->
  0 <= i < Z.of_nat (List.length pred) ->
  0 <= stpt v ->
  exists v' c', pass2_body true_ pred (v, c) i = Ok (v', c') /\ 0 <= stpt v'.
Proof.
  intros Hlen Hi Hst.
  destruct (getitem_in_range pred i) as (p & Hp); [lia|].
  destruct (entity_flag v) eqn:Hf.
  - destruct (Z.eq_dec p 0) as [->|Hne].
    + destruct (compare_range_total true_ pred (stpt v) i (neg_flag v) Hlen Hst Hi)
        as (neg & Hcmp).
      rewrite (pass2_closes true_ pred v c i neg Hp Hf Hcmp).
      eexists _, _. split; [reflexivity|]. exact Hst.
    + rewrite (pass2_inside true_ pred v c i p Hp Hf Hne).
      eexists _, _. split; [reflexivity|]. exact Hst.
  - destruct (Z.eq_dec p 1) as [->|Hne].
    + rewrite (pass2_opens true_ pred v c i Hp Hf).
      eexists _, _. split; [reflexivity|]. simpl. lia.
    + rewrite (pass2_not_opened true_ pred v c i p Hp Hf Hne).
      eexists _, _. split; [reflexivity|]. exact Hst.
Qed.

(** The first loop does not raise, leaves [FP] alone, and ends with no span
    open when the gold sequence ends in the sentinel. *)
Lemma pass1_loop (true_ pred : list Z) (v : locals) (c : counts) :
  List.length true_ = List.length pred ->
  0 <= stpt v ->
  exists v' c',
    for_each (pass1_body true_ pred) (range 0 (Z.of_nat (List.length pred))) (v, c)
    = Ok (v', c') /\
    0 <= stpt v' /\ FP c' = FP c /\
    (forall t0, true_ = t0 ++ [0] -> entity_flag v' = false).
Proof.
  intros Hlen Hst.
  destruct (List.length pred) as [|m] eqn:Hm.
  - exists v, c. split; [reflexivity|]. split; [exact Hst|]. split; [reflexivity|].
    intros t0 ->. rewrite length_app in Hlen. simpl in Hlen. lia.
  - rewrite <- Hm in Hlen. rewrite range_S, for_each_app.
    destruct (for_each_invariant (pass1_body true_ pred)
                (fun s => 0 <= stpt (fst s) /\ FP (snd s) = FP c)
                (range 0 (Z.of_nat m)) (v, c)) as ([v1 c1] & E1 & Hst1 & Hfp1).
    { split; [exact Hst|reflexivity]. }
    { intros [v0 c0] x Hx [H0 H1]. simpl in H0, H1. apply in_range in Hx.
      destruct (pass1_body_preserves true_ pred v0 c0 x Hlen) as (v' & c' & E & Hs' & Hfp & _);
        [rewrite Hm; lia|exact H0|].
      exists (v', c'). split; [exact E|]. simpl. split; [exact Hs'|congruence]. }
    simpl in Hst1, Hfp1. rewrite E1. cbn [bind for_each].
    destruct (pass1_body_preserves true_ pred v1 c1 (Z.of_nat m) Hlen)
      as (v' & c' & E & Hs' & Hfp & Hclosed); [rewrite Hm; lia|exact Hst1|].
    rewrite E. exists v', c'. split; [reflexivity|]. split; [exact Hs'|].
    split; [congruence|].
    intros t0 ->. apply Hclosed.
    rewrite length_app in Hlen. simpl in Hlen.
    unfold getitem. rewrite index_nonneg by (rewrite length_app; simpl; lia).
    replace m with (List.length t0) by lia.
    rewrite nth_error_app2 by lia. rewrite Nat.sub_diag. reflexivity.
Qed.

Lemma pass2_loop (true_ pred : list Z) (v : locals) (c : counts) :
  List.length true_ = List.length pred ->
  0 <= stpt v ->
  exists st', for_each (pass2_body true_ pred) (range 0 (Z.of_nat (List.length pred))) (v, c)
              = Ok st'.
Proof.
  intros Hlen Hst.
  destruct (for_each_invariant (pass2_body true_ pred)
              (fun s => 0 <= stpt (fst s))
              (range 0 (Z.of_nat (List.length pred))) (v, c)) as (st' & E & _).
  - exact Hst.
  - intros [v0 c0] x Hx H0. simpl in H0. apply in_range in Hx.
    destruct (pass2_body_preserves true_ pred v0 c0 x Hlen Hx H0) as (v' & c' & E & Hs').
    exists (v', c'). split; [exact E|exact Hs'].
  - exists st'. exact E.
Qed.

(** With sequences of one length the two passes never raise: every index
    read, [-1] included, is in range. *)
Lemma passes_total (true_ pred : list Z) (c : counts) :
  List.length true_ = List.length pred ->
  exists c', passes true_ pred c = Ok c'.
Proof.
  intros Hlen. unfold passes.
  destruct (pass1_loop true_ pred (Locals 0 0 false false) c Hlen) as (v1 & c1 & E1 & Hst1 & _);
    [simpl; lia|].
  rewrite E1. simpl.
  destruct (pass2_loop true_ pred v1 c1 Hlen Hst1) as (st' & E2).
  rewrite E2. simpl. eauto.
Qed.

Lemma map_seq_from {A : Type} (f g : nat -> A) (n len : nat) :
  (forall k, f (n + k)%nat = g k) -> map f (seq n len) = map g (seq 0 len).
Proof.
  revert n g. induction len as [|len IH]; intros n g H; [reflexivity|].
  simpl. f_equal.
  - rewrite <- (H 0%nat). f_equal. lia.
  - rewrite <- (seq_shift len 0), map_map. apply IH.
    intros k. rewrite <- H. f_equal. lia.
Qed.

Lemma range_split (a m b : Z) :
  a <= m <= b -> range a b = range a m ++ range m b.
Proof.
  intros H. unfold range.
  replace (Z.to_nat (b - a)) with (Z.to_nat (m - a) + Z.to_nat (b - m))%nat by lia.
  rewrite seq_app, map_app. f_equal.
  apply map_seq_from. intros k. lia.
Qed.

(** After the second pass has read a [0], no span is open. *)
Lemma pass2_after_zero (true_ pred : list Z) (st st' : locals * counts) (i : Z) :
  getitem pred i = Ok 0 ->
  pass2_body true_ pred st i = Ok st' ->
  entity_flag (fst st') = false.
Proof.
  intros Hp. destruct st as [v c]. destruct (entity_flag v) eqn:Hf.
  - unfold pass2_body. rewrite Hp. simpl. rewrite Hf. simpl.
    destruct (compare_loop true_ pred (range (stpt v - 1) (i + 1)) (neg_flag v));
      simpl; [|discriminate].
    intros H. injection H as <-. reflexivity.
  - rewrite (pass2_not_opened true_ pred v c i 0 Hp Hf) by discriminate.
    intros H. injection H as <-. exact Hf.
Qed.

(** The second pass over a stretch of positions without the tag [1],
    entered with no span open, changes nothing. *)
Lemma pass2_skips (true_ pred : list Z) (v : locals) (c : counts) (a b : Z) :
  entity_flag v = false ->
  (forall k, a <= k < b -> exists p, getitem pred k = Ok p /\ p <> 1) ->
  for_each (pass2_body true_ pred) (range a b) (v, c) = Ok (v, c).
Proof.
  intros Hf Hno.
  assert (H : forall xs, (forall k, In k xs -> a <= k < b) ->
                         for_each (pass2_body true_ pred) xs (v, c) = Ok (v, c)).
  { induction xs as [|k xs IH]; intros Hxs; cbn [for_each]; [reflexivity|].
    destruct (Hno k) as (p & Hp & Hne); [apply Hxs; left; reflexivity|].
    rewrite (pass2_not_opened true_ pred v c k p Hp Hf Hne).
    simpl. apply IH. intros k' Hk'. apply Hxs. right. exact Hk'. }
  apply H. intros k Hk. apply in_range in Hk. exact Hk.
Qed.

Lemma pass2_without_one (true_ pred : list Z) (v : locals) (c : counts) :
  entity_flag v = false -> ~ In 1 pred ->
  for_each (pass2_body true_ pred) (range 0 (Z.of_nat (List.length pred))) (v, c)
  = Ok (v, c).
Proof.
  intros Hf Hno. apply pass2_skips; [exact Hf|].
  intros k Hk. destruct (getitem_in_range pred k) as (p & Hp); [lia|].
  exists p. split; [exact Hp|]. intros ->. apply Hno. eapply getitem_In. exact Hp.
Qed.

(** A predicted span that follows a [0] and holds no tag [1]: the second
    pass reaches it with no span open and leaves it as it came. *)
Lemma pass2_span_without_one (true_ pred : list Z) (st0 st : locals * counts) (s e : Z) :
  0 < s <= e ->
  for_each (pass2_body true_ pred) (range 0 s) st0 = Ok st ->
  getitem pred (s - 1) = Ok 0 ->
  (forall k, s <= k < e -> exists p, getitem pred k = Ok p /\ p <> 1) ->
  entity_flag (fst st) = false /\
  for_each (pass2_body true_ pred) (range 0 e) st0 = Ok st.
Proof.
  intros Hse Hrun Hzero Hno.
  assert (Hf : entity_flag (fst st) = false).
  { rewrite (range_split 0 (s - 1) s) in Hrun by lia.
    rewrite for_each_app in Hrun.
    destruct (for_each (pass2_body true_ pred) (range 0 (s - 1)) st0) as [st1|err];
      [|discriminate].
    cbn [bind] in Hrun.
    replace (range (s - 1) s) with [s - 1] in Hrun.
    2:{ unfold range. replace (Z.to_nat (s - (s - 1))) with 1%nat by lia.
        simpl. f_equal. lia. }
    cbn [for_each] in Hrun.
    destruct (pass2_body true_ pred st1 (s - 1)) as [st2|err] eqn:E; [|discriminate].
    cbn [bind] in Hrun. injection Hrun as <-.
    apply (pass2_after_zero true_ pred st1 st2 (s - 1) Hzero E). }
  split; [exact Hf|].
  rewrite (range_split 0 s e) by lia. rewrite for_each_app, Hrun. cbn [bind].
  destruct st as [v c]. apply pass2_skips; assumption.
Qed.

(** A prediction that never holds the tag [1] opens no span in the second
    pass and adds no false positive, whatever other tags it holds. *)
Lemma passes_without_one (true0 pred0 : list Z) (c : counts) :
  List.length true0 = List.length pred0 ->
  ~ In 1 pred0 ->
  exists c', passes (true0 ++ [0]) (pred0 ++ [0]) c = Ok c' /\ FP c' = FP c.
Proof.
  intros Hlen Hno. unfold passes.
  assert (Hlen' : List.length (true0 ++ [0]) = List.length (pred0 ++ [0])).
  { rewrite !length_app. simpl. lia. }
  destruct (pass1_loop (true0 ++ [0]) (pred0 ++ [0]) (Locals 0 0 false false) c Hlen')
    as (v1 & c1 & E1 & _ & Hfp & Hclosed); [simpl; lia|].
  rewrite E1. simpl.
  rewrite pass2_without_one.
  - simpl. exists c1. split; [reflexivity|exact Hfp].
  - apply (Hclosed true0). reflexivity.
  - intros Hin. apply in_app_or in Hin. destruct Hin as [Hin|[Hin|[]]].
    + contradiction.
    + discriminate.
Qed.

End Passes.

(* ------------------------------------------------------------------ *)
(** * f1_score against its specification *)
(* ------------------------------------------------------------------ *)

Module F1Spec.
Import Py F1 Examples Passes.

(** ** The store after one iteration of the outer loop *)

Lemma append_same (h : store) (l : loc) (x : Z) : append h l x !!! l = (h !!! l) ++ [x].
Proof. unfold append. apply lookup_total_insert_eq. Qed.

Lemma append_other (h : store) (l l' : loc) (x : Z) :
  l <> l' -> append h l x !! l' = h !! l'.
Proof. intros Hne. unfold append. apply lookup_insert_ne. exact Hne. Qed.

Lemma append_other_total (h : store) (l l' : loc) (x : Z) :
  l <> l' -> append h l x !!! l' = h !!! l'.
Proof. intros Hne. unfold append. apply lookup_total_insert_ne. exact Hne. Qed.

(** Once the assertion holds, the iteration appends to both lists and the
    two passes run to their end. *)
Lemma pair_body_ok (h : store) (c : counts) (pred true_ : loc) :
  List.length (h !!! pred) = List.length (h !!! true_) ->
  exists c', pair_body h c pred true_ = (append (append h pred 0) true_ 0, Ok c').
Proof.
  intros Hlen. unfold pair_body.
  assert (E : (List.length (h !!! pred) =? List.length (h !!! true_))%nat = true)
    by (apply Nat.eqb_eq; exact Hlen).
  rewrite E. simpl negb. cbv iota.
  destruct (passes_total (append (append h pred 0) true_ 0 !!! true_)
                         (append (append h pred 0) true_ 0 !!! pred) c) as (c' & Hc').
  - destruct (decide (pred = true_)) as [->|Hne].
    + reflexivity.
    + rewrite append_same, (append_other_total _ pred true_) by exact Hne.
      rewrite (append_other_total _ true_ pred) by (intros ->; contradiction).
      rewrite append_same, !length_app. simpl. lia.
  - exists c'. rewrite Hc'. reflexivity.
Qed.

Lemma lengths_frame (h h2 : store) (preds targets : list loc) :
  (forall l, l ∈ preds ++ targets -> h2 !!! l = h !!! l) ->
  Forall2 (fun p t => List.length (h !!! p) = List.length (h !!! t)) preds targets ->
  Forall2 (fun p t => List.length (h2 !!! p) = List.length (h2 !!! t)) preds targets.
Proof.
  intros Hsame HF. induction HF as [|p t ps ts Hpt HF IH]; constructor.
  - rewrite !Hsame; [exact Hpt| |].
    + apply elem_of_app. right. apply elem_of_cons. left. reflexivity.
    + apply elem_of_app. left. apply elem_of_cons. left. reflexivity.
  - apply IH. intros l Hl. apply Hsame.
    apply elem_of_app in Hl. apply elem_of_app.
    destruct Hl as [Hl|Hl]; [left|right]; apply elem_of_cons; right; exact Hl.
Qed.

(** The outer loop over pairwise distinct list objects of matching lengths:
    it runs to its end, every list it was given ends one [0] longer, and
    the rest of the store is untouched. *)
Lemma scan_appends (preds targets : list loc) :
  forall (h : store) (c : counts),
    NoDup (preds ++ targets) ->
    Forall2 (fun p t => List.length (h !!! p) = List.length (h !!! t)) preds targets ->
    exists h' c',
      scan h c (zip preds targets) = (h', Ok c') /\
      (forall l, l ∈ preds ++ targets -> h' !!! l = (h !!! l) ++ [0%Z]) /\
      (forall l, l ∉ preds ++ targets -> h' !! l = h !! l).
Proof.
  intros h c Hnd HF. revert h c Hnd HF.
  revert targets. induction preds as [|p ps IH]; intros targets h c Hnd HF.
  - inversion HF; subst. exists h, c. split; [reflexivity|]. split.
    + intros l Hl. simpl in Hl. apply elem_of_nil in Hl. contradiction.
    + intros l _. reflexivity.
  - inversion HF as [|p' t ps' ts Hpt HF']; subst.
    simpl in Hnd. apply NoDup_cons in Hnd. destruct Hnd as [Hp Hnd].
    apply not_elem_of_app in Hp. destruct Hp as [Hp_ps Hp_ts].
    apply not_elem_of_cons in Hp_ts. destruct Hp_ts as [Hpt_ne Hp_ts].
    apply NoDup_app in Hnd. destruct Hnd as (Hnd_ps & Hdisj & Hnd_ts).
    apply NoDup_cons in Hnd_ts. destruct Hnd_ts as [Ht_ts Hnd_ts].
    assert (Ht_ps : t ∉ ps).
    { intros Hin. apply (Hdisj t Hin). apply elem_of_cons. left. reflexivity. }
    assert (Hnd' : NoDup (ps ++ ts)).
    { apply NoDup_app. split; [exact Hnd_ps|]. split; [|exact Hnd_ts].
      intros x Hx Hx'. apply (Hdisj x Hx). apply elem_of_cons. right. exact Hx'. }
    destruct (pair_body_ok h c p t Hpt) as (c2 & Hbody).
    set (h2 := append (append h p 0%Z) t 0%Z) in *.
    assert (Hother : forall l, l <> p -> l <> t -> h2 !! l = h !! l).
    { intros l Hlp Hlt. unfold h2.
      rewrite append_other by congruence. apply append_other. congruence. }
    assert (Hother_total : forall l, l <> p -> l <> t -> h2 !!! l = h !!! l).
    { intros l Hlp Hlt. rewrite !lookup_total_alt, Hother by assumption. reflexivity. }
    assert (Hrest : forall l, l ∈ ps ++ ts -> l <> p /\ l <> t).
    { intros l Hl. apply elem_of_app in Hl. split; intros ->; destruct Hl; contradiction. }
    destruct (IH ts h2 c2 Hnd') as (h' & c' & Hscan & Hin & Hout).
    { apply (lengths_frame h); [|exact HF'].
      intros l Hl. destruct (Hrest l Hl). apply Hother_total; assumption. }
    exists h', c'. split.
    { simpl. rewrite Hbody. exact Hscan. }
    assert (Hp' : h' !!! p = (h !!! p) ++ [0%Z]).
    { rewrite lookup_total_alt, Hout by (apply not_elem_of_app; split; assumption).
      rewrite <- lookup_total_alt. unfold h2.
      rewrite append_other_total by (intros ->; contradiction).
      apply append_same. }
    assert (Ht' : h' !!! t = (h !!! t) ++ [0%Z]).
    { rewrite lookup_total_alt, Hout by (apply not_elem_of_app; split; assumption).
      rewrite <- lookup_total_alt. unfold h2. rewrite append_same.
      rewrite append_other_total by exact Hpt_ne. reflexivity. }
    split.
    + intros l Hl. simpl in Hl. apply elem_of_cons in Hl. destruct Hl as [->|Hl]; [exact Hp'|].
      apply elem_of_app in Hl. destruct Hl as [Hl|Hl].
      * destruct (Hrest l) as [H1 H2]; [apply elem_of_app; left; exact Hl|].
        rewrite Hin by (apply elem_of_app; left; exact Hl).
        rewrite Hother_total by assumption. reflexivity.
      * apply elem_of_cons in Hl. destruct Hl as [->|Hl]; [exact Ht'|].
        destruct (Hrest l) as [H1 H2]; [apply elem_of_app; right; exact Hl|].
        rewrite Hin by (apply elem_of_app; right; exact Hl).
        rewrite Hother_total by assumption. reflexivity.
    + intros l Hl. simpl in Hl. apply not_elem_of_cons in Hl. destruct Hl as [Hlp Hl].
      apply not_elem_of_app in Hl. destruct Hl as [Hl_ps Hl_ts].
      apply not_elem_of_cons in Hl_ts. destruct Hl_ts as [Hlt Hl_ts].
      rewrite Hout by (apply not_elem_of_app; split; assumption).
      apply Hother; assumption.
Qed.

Lemma f1_score_store (h : store) (preds targets : list loc) :
  fst (f1_score h preds targets) = fst (scan h (Counts 0 0 0) (zip preds targets)).
Proof.
  unfold f1_score. destruct (scan h (Counts 0 0 0) (zip preds targets)) as [h' [c|e]];
    reflexivity.
Qed.

(** ** C8: the aggregation *)

Lemma precision_nonzero (a b : nat) :
  a <> 0%nat -> Qeq_bool (Z.of_nat a # Pos.of_nat b) 0 = false.
Proof.
  intros Ha. destruct (Qeq_bool (Z.of_nat a # Pos.of_nat b) 0) eqn:E; [|reflexivity].
  apply Qeq_bool_iff in E. unfold Qeq in E. simpl in E. lia.
Qed.

Lemma ratio_sum_nonzero (a b b' : nat) :
  a <> 0%nat ->
  Qeq_bool ((Z.of_nat a # Pos.of_nat b) + (Z.of_nat a # Pos.of_nat b')) 0 = false.
Proof.
  intros Ha.
  destruct (Qeq_bool ((Z.of_nat a # Pos.of_nat b) + (Z.of_nat a # Pos.of_nat b')) 0) eqn:E;
    [|reflexivity].
  apply Qeq_bool_iff in E. unfold Qeq, Qplus in E. simpl in E. nia.
Qed.

(** C8.  Division by zero is not guarded.  When the scan of the batch ends
    with totals such that [TP + FP = 0] or [TP + FN = 0], [f1_score] raises
    [ZeroDivisionError] (from the precision or from the recall) and returns
    no value.  Otherwise precision and recall are both [0] exactly when
    [TP = 0], and it returns [0] in that case and [2 * precision * recall /
    (precision + recall)], a division that cannot fail, in the other. *)
Theorem division_by_zero_unguarded
        (h : store) (preds targets : list loc) (h' : store) (c : counts) :
  scan h (Counts 0 0 0) (zip preds targets) = (h', Ok c) ->
  (((TP c + FP c = 0)%nat \/ (TP c + FN c = 0)%nat) ->
   f1_score h preds targets = (h', Raise (ZeroDivisionError "division by zero")))
  /\
  (((TP c + FP c <> 0)%nat /\ (TP c + FN c <> 0)%nat) ->
   let precision := (Z.of_nat (TP c) # Pos.of_nat (TP c + FP c))%Q in
   let recall := (Z.of_nat (TP c) # Pos.of_nat (TP c + FN c))%Q in
   (((precision == 0)%Q /\ (recall == 0)%Q) <-> TP c = 0%nat) /\
   f1_score h preds targets
   = (h', Ok (if (TP c =? 0)%nat then 0%Q
              else (2 * precision * recall / (precision + recall))%Q))).
Proof.
  intros Hscan. unfold f1_score. rewrite Hscan. unfold aggregate, int_div. split.
  - intros [H0|H0].
    + rewrite H0. reflexivity.
    + assert (Htp : TP c = 0%nat) by lia. assert (Hfn : FN c = 0%nat) by lia.
      rewrite Htp, Hfn. simpl. destruct (FP c); reflexivity.
  - intros [H1 H2]. cbv zeta. split.
    { unfold Qeq. simpl. lia. }
    assert (E1 : (TP c + FP c =? 0)%nat = false) by (apply Nat.eqb_neq; exact H1).
    assert (E2 : (TP c + FN c =? 0)%nat = false) by (apply Nat.eqb_neq; exact H2).
    rewrite E1, E2. cbn [bind].
    destruct (TP c) as [|tp] eqn:Htp.
    + reflexivity.
    + rewrite precision_nonzero by lia. cbn [negb orb].
      unfold float_div. rewrite ratio_sum_nonzero by lia. reflexivity.
Qed.

Lemma division_by_zero_unguarded_witness :
  f1_score no_entities [1%positive] [2%positive]
  = (fst (scan no_entities (Counts 0 0 0) (zip [1%positive] [2%positive])),
     Raise (ZeroDivisionError "division by zero")).
Proof.
  apply (division_by_zero_unguarded no_entities [1%positive] [2%positive]
           (fst (scan no_entities (Counts 0 0 0) (zip [1%positive] [2%positive])))
           (Counts 0 0 0)).
  - vm_compute. reflexivity.
  - left. reflexivity.
Defined.

(** ** C9: the two span detectors *)

(** C9, as stated, fails.  The prediction [[2, 1]] against the gold
    sequence [[0, 0]]: the only predicted span starts at position 0 with the
    tag [2], neither [0] nor [1]; the second pass opens a span at position 1,
    inside it, and counts one false positive. *)
Lemma span_starting_with_other_tag_counted :
  nth 0 [2; 1]%Z 0%Z = 2%Z /\
  passes ([0; 0] ++ [0])%Z ([2; 1] ++ [0])%Z (Counts 0 0 0) = Ok (Counts 0 0 1) /\
  for_each (pass2_body [0; 0; 0]%Z [2; 1; 0]%Z) [0%Z] (Locals 0 0 false false, Counts 0 0 0)
  = Ok (Locals 0 0 false false, Counts 0 0 0) /\
  for_each (pass2_body [0; 0; 0]%Z [2; 1; 0]%Z) [0%Z; 1%Z] (Locals 0 0 false false, Counts 0 0 0)
  = Ok (Locals 1 0 true false, Counts 0 0 0).
Proof. vm_compute. repeat split; reflexivity. Qed.

(** C9, amended.  The two passes detect spans differently.  With no span
    open, the first pass opens one at a position exactly when the gold tag
    there is not [0], the second exactly when the predicted tag there is
    [1].  With a span open, either pass leaves it open at a tag that is not
    [0] and closes it at the first [0], where the first pass counts one [TP]
    or [FN] and the second at most one [FP].  Consequently the second pass,
    entered with no span open, runs over any stretch of positions whose
    predicted tags are not [1] without opening a span or counting anything;
    it reaches a predicted span that follows a [0] with no span open, and
    leaves a span without the tag [1] with the state it came with; and a
    prediction that nowhere holds the tag [1] adds no [FP]. *)
Theorem asymmetric_span_detection
        (true_ pred : list Z) (v : locals) (c : counts) (i : Z) :
  (entity_flag v = false ->
   (forall t, getitem true_ i = Ok t ->
      pass1_body true_ pred (v, c) i
      = Ok (if (t =? 0)%Z then v else Locals i (endpt v) true (neg_flag v), c)) /\
   (forall p, getitem pred i = Ok p ->
      pass2_body true_ pred (v, c) i
      = Ok (if (p =? 1)%Z then Locals i (endpt v) true (neg_flag v) else v, c)))
  /\
  (entity_flag v = true ->
   (forall t, getitem true_ i = Ok t -> t <> 0%Z ->
      pass1_body true_ pred (v, c) i = Ok (v, c)) /\
   (forall p, getitem pred i = Ok p -> p <> 0%Z ->
      pass2_body true_ pred (v, c) i = Ok (v, c)) /\
   (forall neg,
      compare_loop true_ pred (range (stpt v - 1) (i + 1)) (neg_flag v) = Ok neg ->
      (getitem true_ i = Ok 0%Z ->
       pass1_body true_ pred (v, c) i
       = Ok (Locals (stpt v) i false false,
             if neg then Counts (TP c) (FN c + 1) (FP c)
             else Counts (TP c + 1) (FN c) (FP c))) /\
      (getitem pred i = Ok 0%Z ->
       pass2_body true_ pred (v, c) i
       = Ok (Locals (stpt v) i false false,
             if neg then Counts (TP c) (FN c) (FP c + 1) else c))))
  /\
  (forall a b,
     entity_flag v = false ->
     (forall k, (a <= k < b)%Z -> exists p, getitem pred k = Ok p /\ p <> 1%Z) ->
     for_each (pass2_body true_ pred) (range a b) (v, c) = Ok (v, c))
  /\
  (forall st0 st s e,
     (0 < s <= e)%Z ->
     for_each (pass2_body true_ pred) (range 0 s) st0 = Ok st ->
     getitem pred (s - 1) = Ok 0%Z ->
     (forall k, (s <= k < e)%Z -> exists p, getitem pred k = Ok p /\ p <> 1%Z) ->
     entity_flag (fst st) = false /\
     for_each (pass2_body true_ pred) (range 0 e) st0 = Ok st)
  /\
  (forall true0 pred0,
     List.length true0 = List.length pred0 ->
     ~ In 1%Z pred0 ->
     exists c', passes (true0 ++ [0%Z]) (pred0 ++ [0%Z]) c = Ok c' /\ FP c' = FP c).
Proof.
  split; [|split; [|split; [|split]]].
  - intros Hf. split.
    + intros t Ht. destruct (Z.eqb_spec t 0) as [->|Hne].
      * apply pass1_outside; assumption.
      * apply (pass1_opens true_ pred v c i t); assumption.
    + intros p Hp. destruct (Z.eqb_spec p 1) as [->|Hne].
      * apply pass2_opens; assumption.
      * apply (pass2_not_opened true_ pred v c i p); assumption.
  - intros Hf. split; [|split].
    + intros t Ht Hne. apply (pass1_inside true_ pred v c i t); assumption.
    + intros p Hp Hne. apply (pass2_inside true_ pred v c i p); assumption.
    + intros neg Hcmp. split.
      * intros Ht. apply pass1_closes; assumption.
      * intros Hp. apply pass2_closes; assumption.
  - intros a b Hf Hno. apply pass2_skips; assumption.
  - intros st0 st s e Hse Hrun Hzero Hno.
    apply (pass2_span_without_one true_ pred st0 st s e); assumption.
  - intros true0 pred0 Hlen Hno. apply passes_without_one; assumption.
Qed.

Lemma asymmetric_span_detection_witness :
  exists c', passes ([0; 0; 0] ++ [0])%Z ([0; 2; 2] ++ [0])%Z (Counts 0 0 0) = Ok c'
             /\ FP c' = 0%nat.
Proof.
  apply (asymmetric_span_detection [] [] (Locals 0 0 false false) (Counts 0 0 0) 0%Z).
  - reflexivity.
  - intros Hin. simpl in Hin. intuition discriminate.
Defined.

(** ** C10: the sentinels *)


Lemma compare_from_minus_one (x y : list Z) (e : Z) (neg : bool) :
  (0 <= e)%Z ->
  compare_loop (x ++ [0%Z]) (y ++ [0%Z]) (range (0 - 1) (e + 1)) neg
  = compare_loop (x ++ [0%Z]) (y ++ [0%Z]) (range 0 (e + 1)) neg.
Proof.
  intros He. rewrite range_from_minus_one by exact He. cbn [compare_loop].
  unfold getitem at 1 2. rewrite !index_last. reflexivity.
Qed.



(** ** Further properties of the evaluator *)

(** The end-to-end example of Section 8: on [target = [0,1,1,0,0]] and
    [pred = [0,1,1,0,0]] the scan ends with [TP = 1], [FP = 0], [FN = 0],
    and [f1_score] returns 1. *)
Example f1_matching_example :
  snd (scan matching (Counts 0 0 0) (zip [1%positive] [2%positive])) = Ok (Counts 1 0 0) /\
  exists f1, snd (f1_score matching [1%positive] [2%positive]) = Ok f1 /\ (f1 == 1)%Q.
Proof.
  split; [vm_compute; reflexivity|].
  eexists. split; [vm_compute; reflexivity|]. reflexivity.
Qed.

(** The boundary mismatch of Section 8: on [target = [0,1,1,0,0]] and
    [pred = [0,1,0,0,0]] the gold span counts as [FN] in the first pass and
    the shorter predicted span as [FP] in the second; precision and recall
    are both 0 and [f1_score] returns 0. *)
Example f1_boundary_mismatch_example :
  snd (scan mismatching (Counts 0 0 0) (zip [1%positive] [2%positive])) = Ok (Counts 0 1 1) /\
  snd (f1_score mismatching [1%positive] [2%positive]) = Ok 0%Q.
Proof. split; vm_compute; reflexivity. Qed.

Lemma append_twice (h : store) (p t l : loc) :
  append (append h p 0%Z) t 0%Z !!! l
  = (h !!! l) ++ replicate (occurrences l [p] + occurrences l [t]) 0%Z.
Proof.
  unfold occurrences. simpl.
  destruct (Pos.eq_dec p l) as [->|Hp]; destruct (Pos.eq_dec t l) as [->|Ht]; simpl.
  - rewrite !append_same, <- app_assoc. reflexivity.
  - rewrite append_other_total by exact Ht. apply append_same.
  - rewrite append_same, append_other_total by exact Hp. reflexivity.
  - rewrite !append_other_total by assumption. rewrite app_nil_r. reflexivity.
Qed.

Lemma scan_appends_per_occurrence (pairs : list (loc * loc)) :
  forall (h : store) (c : counts) (h' : store) (c' : counts),
    scan h c pairs = (h', Ok c') ->
    forall l, h' !!! l
              = (h !!! l) ++ replicate (occurrences l (map fst pairs)
                                        + occurrences l (map snd pairs)) 0%Z.
Proof.
  induction pairs as [|[p t] rest IH]; intros h c h' c' Hscan l.
  - simpl in Hscan. injection Hscan as <- _. simpl. rewrite app_nil_r. reflexivity.
  - simpl in Hscan. unfold pair_body in Hscan.
    destruct (negb (List.length (h !!! p) =? List.length (h !!! t))%nat);
      [discriminate|].
    destruct (passes _ _ c) as [c2|e]; [|discriminate].
    rewrite (IH _ _ _ _ Hscan l), append_twice, <- app_assoc, <- replicate_add.
    f_equal. f_equal. unfold occurrences. simpl.
    destruct (Pos.eq_dec p l); destruct (Pos.eq_dec t l); lia.
Qed.

(** Shared lists.  Whenever the loop of [f1_score] runs to its end, each
    list object of the store has received one [0] for each reference to it
    among the paired entries of [preds] and of [targets]: a list reachable
    twice is two elements longer. *)
Theorem f1_score_appends_per_reference
        (h : store) (preds targets : list loc) (h' : store) (c : counts) :
  scan h (Counts 0 0 0) (zip preds targets) = (h', Ok c) ->
  fst (f1_score h preds targets) = h' /\
  forall l,
    h' !!! l
    = (h !!! l) ++ replicate (occurrences l (map fst (zip preds targets))
                              + occurrences l (map snd (zip preds targets))) 0%Z.
Proof.
  intros Hscan. split.
  - rewrite f1_score_store, Hscan. reflexivity.
  - apply (scan_appends_per_occurrence _ h (Counts 0 0 0) h' c Hscan).
Qed.

Lemma f1_score_appends_per_reference_witness :
  fst (scan shared (Counts 0 0 0) (zip [1%positive] [1%positive])) !!! 1%positive
  = (shared !!! 1%positive) ++ replicate 2 0%Z.
Proof.
  apply (f1_score_appends_per_reference shared [1%positive] [1%positive]
           (fst (scan shared (Counts 0 0 0) (zip [1%positive] [1%positive])))
           (Counts 1 0 0)).
  vm_compute. reflexivity.
Defined.

End F1Spec.

(* ------------------------------------------------------------------ *)
(** * The vocabulary *)
(* ------------------------------------------------------------------ *)

Module VocabSpec.
Import Datareader.
Import Datareader.Vocab.

Lemma is_reserved_spec (w : string) : is_reserved w = true <-> reserved w.
Proof.
  unfold is_reserved, reserved. rewrite orb_true_iff, !String.eqb_eq. reflexivity.
Qed.

Lemma consistent_init : consistent __init__.
Proof.
  unfold consistent, __init__, PAD_INDEX, UNK_INDEX. simpl.
  split; [|split; [|split; [|split]]].
  - intros w i. rewrite !lookup_insert_Some, !lookup_empty. split.
    + intros [[<- <-]|[H1 [[<- <-]|[_ H]]]]; [left; split; reflexivity| |discriminate].
      right. split; [lia|]. left. split; reflexivity.
    + intros [[<- <-]|[H1 [[<- <-]|[_ H]]]]; [left; split; reflexivity| |discriminate].
      right. split; [discriminate|]. left. split; reflexivity.
  - intros i. rewrite !lookup_insert_is_Some, lookup_empty. split.
    + intros [<-|[_ [<-|[_ H]]]]; [lia|lia|]. destruct H as [x H]. discriminate.
    + intros H. destruct i as [|[|i]]; [left; reflexivity|right; split; [lia|left; reflexivity]|lia].
  - intros w. rewrite lookup_empty, !lookup_insert_is_Some, lookup_empty. unfold reserved. split.
    + intros [x H]. discriminate.
    + intros [[<-|[_ [<-|[_ [x H]]]]] Hnr]; [exfalso; apply Hnr; left; reflexivity
                                           |exfalso; apply Hnr; right; reflexivity
                                           |discriminate].
  - reflexivity.
  - reflexivity.
Qed.

Lemma not_reserved_of_new (v : t) (w : string) :
  consistent v -> word2index v !! w = None -> ~ reserved w.
Proof.
  intros (_ & _ & _ & Hpad & Hunk) Hnew [->| ->]; congruence.
Qed.

Lemma reserved_uncounted (v : t) (w : string) :
  consistent v -> reserved w -> word2count v !! w = None.
Proof.
  intros (_ & _ & Hc & _ & _) Hr.
  destruct (word2count v !! w) as [k|] eqn:E; [|reflexivity].
  exfalso. assert (H : is_Some (word2count v !! w)) by (rewrite E; eauto).
  apply Hc in H. destruct H as [_ H]. contradiction.
Qed.

(** One step of [index_words] keeps the vocabulary consistent. *)
Lemma index_word_consistent (v : t) (w : string) :
  consistent v -> consistent (fst (index_word v w)).
Proof.
  intros Hv. pose proof Hv as (H1 & H2 & H3 & Hpad & Hunk). unfold index_word.
  destruct (word2index v !! w) as [i|] eqn:Ew.
  - destruct (word2count v !! w) as [k|] eqn:Ec; simpl; [|exact Hv].
    unfold consistent. simpl.
    split; [exact H1|]. split; [exact H2|]. split; [|split; assumption].
    intros w'. rewrite lookup_insert_is_Some. rewrite <- H3. split.
    + intros [<-|[_ H]]; [rewrite Ec; eauto|exact H].
    + intros H. destruct (decide (w = w')) as [->|Hne]; [left; reflexivity|right; eauto].
  - pose proof (not_reserved_of_new v w Hv Ew) as Hnr.
    assert (Hfresh : index2word v !! n_words v = None).
    { destruct (index2word v !! n_words v) as [x|] eqn:E; [|reflexivity].
      assert (H : is_Some (index2word v !! n_words v)) by (rewrite E; eauto).
      apply H2 in H. lia. }
    unfold consistent. simpl. split; [|split; [|split; [|split]]].
    + intros w' i. rewrite !lookup_insert_Some. split.
      * intros [[<- <-]|[Hne H]]; [left; split; reflexivity|].
        right. split; [|apply H1; exact H].
        intros <-. apply H1 in H. congruence.
      * intros [[<- <-]|[Hne H]]; [left; split; reflexivity|].
        right. split; [|apply H1; exact H].
        intros <-. apply H1 in H. congruence.
    + intros i. rewrite lookup_insert_is_Some, H2. split.
      * intros [<-|[_ H]]; lia.
      * intros H. destruct (decide (n_words v = i)); [left; assumption|right; split; [assumption|lia]].
    + intros w'. rewrite !lookup_insert_is_Some, H3. split.
      * intros [<-|[Hne [H Hr]]]; [split; [left; reflexivity|exact Hnr]|].
        split; [right; split; assumption|exact Hr].
      * intros [[<-|[Hne H]] Hr]; [left; reflexivity|right; split; [exact Hne|split; assumption]].
    + rewrite lookup_insert_ne; [exact Hpad|]. intros ->. apply Hnr. left. reflexivity.
    + rewrite lookup_insert_ne; [exact Hunk|]. intros ->. apply Hnr. right. reflexivity.
Qed.

(** One step raises exactly on a reserved word. *)
Lemma index_word_outcome (v : t) (w : string) :
  consistent v ->
  snd (index_word v w) = if is_reserved w then Raise (KeyError w) else Ok tt.
Proof.
  intros Hv. pose proof Hv as (H1 & H2 & H3 & Hpad & Hunk). unfold index_word.
  destruct (is_reserved w) eqn:Er.
  - apply is_reserved_spec in Er.
    rewrite (reserved_uncounted v w Hv Er).
    destruct Er as [-> | ->]; [rewrite Hpad|rewrite Hunk]; reflexivity.
  - assert (Hnr : ~ reserved w).
    { intros H. apply is_reserved_spec in H. congruence. }
    destruct (word2index v !! w) as [i|] eqn:Ew; [|reflexivity].
    destruct (word2count v !! w) as [k|] eqn:Ec; [reflexivity|].
    exfalso. assert (H : is_Some (word2count v !! w)).
    { apply H3. split; [rewrite Ew; eauto|exact Hnr]. }
    rewrite Ec in H. destruct H as [x H]. discriminate.
Qed.

Lemma index_word_keeps (v : t) (w w' : string) (i : nat) :
  word2index v !! w' = Some i -> word2index (fst (index_word v w)) !! w' = Some i.
Proof.
  intros H. unfold index_word.
  destruct (word2index v !! w) as [j|] eqn:Ew.
  - destruct (word2count v !! w); exact H.
  - simpl. rewrite lookup_insert_ne; [exact H|]. intros ->. congruence.
Qed.

Lemma index_word_covers (v : t) (w : string) :
  snd (index_word v w) = Ok tt -> is_Some (word2index (fst (index_word v w)) !! w).
Proof.
  unfold index_word. destruct (word2index v !! w) as [j|] eqn:Ew.
  - destruct (word2count v !! w); simpl; [|discriminate].
    intros _. rewrite Ew. eauto.
  - simpl. intros _. rewrite lookup_insert_eq. eauto.
Qed.

Lemma index_word_count (v : t) (w w' : string) :
  consistent v -> snd (index_word v w) = Ok tt ->
  default 0 (word2count (fst (index_word v w)) !! w')
  = default 0 (word2count v !! w') + (if decide (w' = w) then 1 else 0).
Proof.
  intros Hv. pose proof Hv as (H1 & H2 & H3 & Hpad & Hunk). unfold index_word.
  destruct (word2index v !! w) as [j|] eqn:Ew.
  - destruct (word2count v !! w) as [k|] eqn:Ec; simpl; [|discriminate].
    intros _. destruct (decide (w' = w)) as [->|Hne].
    + rewrite lookup_insert_eq, Ec. reflexivity.
    + rewrite lookup_insert_ne by congruence. lia.
  - simpl. intros _. destruct (decide (w' = w)) as [->|Hne].
    + rewrite lookup_insert_eq.
      destruct (word2count v !! w) as [k|] eqn:Ec; [|reflexivity].
      exfalso. assert (H : is_Some (word2count v !! w)) by (rewrite Ec; eauto).
      apply H3 in H. destruct H as [[x H] _]. congruence.
    + rewrite lookup_insert_ne by congruence. lia.
Qed.

Lemma index_word_n_words (v : t) (w : string) :
  n_words (fst (index_word v w))
  = n_words v + match word2index v !! w with Some _ => 0 | None => 1 end.
Proof.
  unfold index_word. destruct (word2index v !! w) as [j|].
  - destruct (word2count v !! w); simpl; lia.
  - reflexivity.
Qed.

Lemma index_word_domain (v : t) (w w' : string) :
  is_Some (word2index (fst (index_word v w)) !! w') ->
  is_Some (word2index v !! w') \/ w' = w.
Proof.
  unfold index_word. destruct (word2index v !! w) as [j|] eqn:Ew.
  - destruct (word2count v !! w); simpl; auto.
  - simpl. rewrite lookup_insert_is_Some. intros [<-|[_ H]]; auto.
Qed.

(** Stepping through [index_words]. *)
Lemma index_words_cons (v : t) (w : string) (s : list string) :
  index_words v (w :: s)
  = match snd (index_word v w) with
    | Ok _ => index_words (fst (index_word v w)) s
    | Raise e => (fst (index_word v w), Raise e)
    end.
Proof.
  simpl. destruct (index_word v w) as [v' [[]|e]]; reflexivity.
Qed.

Lemma index_words_consistent (v : t) (s : list string) :
  consistent v -> consistent (fst (index_words v s)).
Proof.
  revert v. induction s as [|w s IH]; intros v Hv; [exact Hv|].
  rewrite index_words_cons. pose proof (index_word_consistent v w Hv) as Hw.
  destruct (snd (index_word v w)); [apply IH; exact Hw|exact Hw].
Qed.

Lemma index_words_outcome (v : t) (s : list string) :
  consistent v ->
  snd (index_words v s)
  = match List.find is_reserved s with
    | Some w => Raise (KeyError w)
    | None => Ok tt
    end.
Proof.
  revert v. induction s as [|w s IH]; intros v Hv; [reflexivity|].
  rewrite index_words_cons, (index_word_outcome v w Hv). simpl.
  destruct (is_reserved w); [reflexivity|].
  apply IH, index_word_consistent, Hv.
Qed.

Lemma find_reserved_none (s : list string) :
  List.find is_reserved s = None <-> List.Forall (fun w => ~ reserved w) s.
Proof.
  induction s as [|w s IH]; simpl.
  - split; [constructor|reflexivity].
  - destruct (is_reserved w) eqn:E.
    + split; [discriminate|]. intros H. inversion H as [|? ? Hw _]; subst.
      exfalso. apply Hw, is_reserved_spec, E.
    + rewrite IH. split.
      * intros H. constructor; [|exact H]. intros Hr. apply is_reserved_spec in Hr. congruence.
      * intros H. inversion H; assumption.
Qed.

Lemma index_words_ok (v : t) (s : list string) :
  consistent v ->
  (snd (index_words v s) = Ok tt <-> List.Forall (fun w => ~ reserved w) s).
Proof.
  intros Hv. rewrite (index_words_outcome v s Hv), <- find_reserved_none.
  destruct (List.find is_reserved s); split; intros H; try discriminate; reflexivity.
Qed.

Lemma index_words_keeps (v : t) (s : list string) (w : string) (i : nat) :
  word2index v !! w = Some i -> word2index (fst (index_words v s)) !! w = Some i.
Proof.
  revert v. induction s as [|x s IH]; intros v H; [exact H|].
  rewrite index_words_cons. pose proof (index_word_keeps v x w i H) as Hx.
  destruct (snd (index_word v x)); [apply IH; exact Hx|exact Hx].
Qed.

Lemma index_words_covers (v : t) (s : list string) (w : string) :
  snd (index_words v s) = Ok tt -> In w s ->
  is_Some (word2index (fst (index_words v s)) !! w).
Proof.
  revert v. induction s as [|x s IH]; intros v Hok Hin; [destruct Hin|].
  rewrite index_words_cons in Hok |- *.
  destruct (snd (index_word v x)) as [[]|e] eqn:Ex; [|discriminate].
  destruct Hin as [<-|Hin]; [|apply IH; assumption].
  destruct (index_word_covers v x Ex) as [i Hi].
  rewrite (index_words_keeps _ s x i Hi). eauto.
Qed.

Lemma index_words_domain (v : t) (s : list string) (w : string) :
  is_Some (word2index (fst (index_words v s)) !! w) ->
  is_Some (word2index v !! w) \/ In w s.
Proof.
  revert v. induction s as [|x s IH]; intros v H; [left; exact H|].
  rewrite index_words_cons in H.
  assert (Hx : is_Some (word2index (fst (index_word v x)) !! w) \/ In w s).
  { destruct (snd (index_word v x)); [apply IH; exact H|left; exact H]. }
  destruct Hx as [Hx|Hx]; [|right; right; exact Hx].
  destruct (index_word_domain v x w Hx) as [Hv| ->]; [left; exact Hv|right; left; reflexivity].
Qed.

Lemma index_words_count (v : t) (s : list string) (w : string) :
  consistent v -> snd (index_words v s) = Ok tt ->
  default 0 (word2count (fst (index_words v s)) !! w)
  = default 0 (word2count v !! w) + count_occ string_dec s w.
Proof.
  revert v. induction s as [|x s IH]; intros v Hv Hok; [simpl; lia|].
  rewrite index_words_cons in Hok |- *.
  destruct (snd (index_word v x)) as [[]|e] eqn:Ex; [|discriminate].
  rewrite (IH _ (index_word_consistent v x Hv) Hok), (index_word_count v x w Hv Ex).
  simpl. destruct (string_dec x w) as [->|Hne].
  - destruct (decide (w = w)); [lia|contradiction].
  - destruct (decide (w = x)); [subst; contradiction|lia].
Qed.

Lemma first_seen_ext (f g : string -> bool) (s : list string) :
  (forall w, f w = g w) -> first_seen f s = first_seen g s.
Proof.
  revert f g. induction s as [|x s IH]; intros f g H; [reflexivity|].
  simpl. rewrite <- (H x). destruct (f x).
  - apply IH, H.
  - f_equal. apply IH. intros w. rewrite (H w). reflexivity.
Qed.

Lemma indexed_step_known (v : t) (x : string) :
  indexed v x = true -> forall w, indexed (fst (index_word v x)) w = indexed v w.
Proof.
  unfold indexed. intros Hx w. apply bool_decide_eq_true in Hx. destruct Hx as [j Hj].
  unfold index_word. rewrite Hj. destruct (word2count v !! x); reflexivity.
Qed.

Lemma indexed_step_new (v : t) (x : string) :
  indexed v x = false ->
  forall w, indexed (fst (index_word v x)) w = indexed v w || String.eqb w x.
Proof.
  unfold indexed. intros Hx w. apply bool_decide_eq_false in Hx.
  assert (Hn : word2index v !! x = None).
  { destruct (word2index v !! x) eqn:E; [|reflexivity]. exfalso. apply Hx. eauto. }
  unfold index_word. rewrite Hn. simpl.
  destruct (String.eqb w x) eqn:E.
  - apply String.eqb_eq in E. subst w. rewrite lookup_insert_eq, orb_true_r.
    apply bool_decide_eq_true. eauto.
  - apply String.eqb_neq in E. rewrite lookup_insert_ne by congruence.
    rewrite orb_false_r. reflexivity.
Qed.

Lemma index_words_numbering (v : t) (s : list string) :
  snd (index_words v s) = Ok tt ->
  n_words (fst (index_words v s)) = n_words v + List.length (first_seen (indexed v) s) /\
  forall k w, nth_error (first_seen (indexed v) s) k = Some w ->
              word2index (fst (index_words v s)) !! w = Some (n_words v + k).
Proof.
  revert v. induction s as [|x s IH]; intros v Hok.
  - simpl. split; [lia|]. intros [|k] w H; discriminate.
  - rewrite index_words_cons in Hok |- *.
    destruct (snd (index_word v x)) as [[]|e] eqn:Ex; [|discriminate].
    destruct (IH _ Hok) as [Hn Hk]. simpl.
    rewrite Hn, index_word_n_words. destruct (indexed v x) eqn:Ix.
    + rewrite (first_seen_ext _ _ s (indexed_step_known v x Ix)) in Hk |- *.
      pose proof Ix as Ix'. unfold indexed in Ix'. apply bool_decide_eq_true in Ix'.
      destruct Ix' as [j Hj]. rewrite Hj.
      split; [lia|]. intros k w H. rewrite (Hk k w H), index_word_n_words, Hj.
      f_equal. lia.
    + rewrite (first_seen_ext _ _ s (indexed_step_new v x Ix)) in Hk |- *.
      pose proof Ix as Ix'. unfold indexed in Ix'. apply bool_decide_eq_false in Ix'.
      assert (Hnew : word2index v !! x = None).
      { destruct (word2index v !! x) eqn:E; [|reflexivity]. exfalso. apply Ix'. eauto. }
      rewrite Hnew. split; [simpl; lia|].
      intros [|k] w H; simpl in H.
      * injection H as <-. apply index_words_keeps.
        unfold index_word. rewrite Hnew. simpl. rewrite lookup_insert_eq.
        f_equal. lia.
      * rewrite (Hk k w H), index_word_n_words, Hnew. f_equal. lia.
Qed.

End VocabSpec.

(** * [read_file] *)
Module ReaderSpec.
Import Datareader.
Import Datareader.Vocab.

Lemma index_words_app (v : t) (a b : list string) :
  index_words v (a ++ b)
  = match snd (index_words v a) with
    | Ok _ => index_words (fst (index_words v a)) b
    | Raise e => (fst (index_words v a), Raise e)
    end.
Proof.
  revert v. induction a as [|x a IH]; intros v; [reflexivity|].
  rewrite <- app_comm_cons, !VocabSpec.index_words_cons.
  destruct (snd (index_word v x)); [apply IH|reflexivity].
Qed.

Lemma line_error_none (py : str_methods) (line : string) :
  line_error py line = None <-> readable py line.
Proof.
  unfold line_error, readable. destruct (Nat.ltb_spec (List.length (fields py line)) 2).
  - split; [discriminate|]. intros [H' _]. lia.
  - rewrite <- VocabSpec.find_reserved_none.
    destruct (List.find is_reserved (tokens_of py line)); simpl; split.
    + discriminate.
    + intros [_ H']. discriminate.
    + intros _. split; [assumption|reflexivity].
    + reflexivity.
Qed.

Lemma first_error_none (py : str_methods) (lines : list string) :
  first_error py lines = None <-> List.Forall (readable py) lines.
Proof.
  induction lines as [|l r IH]; simpl.
  - split; [constructor|reflexivity].
  - destruct (line_error py l) eqn:E.
    + split; [discriminate|]. intros H. inversion H as [|? ? Hl _]; subst.
      apply line_error_none in Hl. congruence.
    + rewrite IH. split.
      * intros H. constructor; [apply line_error_none, E|exact H].
      * intros H. inversion H; assumption.
Qed.

(** One line: the outcome, and the state after a line that is read. *)
Lemma read_line_outcome (py : str_methods) (d : data_dict) (v : t) (line : string) :
  consistent v ->
  snd (read_line py (d, v) line)
  = match line_error py line with Some e => Raise e | None => Ok tt end.
Proof.
  intros Hv. unfold read_line, line_error, tokens_of, fields, getitem.
  destruct (split_on py (strip py line) tab) as [|s0 [|s1 rest]]; simpl; try reflexivity.
  pose proof (VocabSpec.index_words_outcome v (split py s0) Hv) as Ho.
  destruct (index_words v (split py s0)) as [v' [[]|e]]; simpl in Ho |- *;
    destruct (List.find is_reserved (split py s0)); simpl; congruence.
Qed.

Lemma read_line_state (py : str_methods) (d : data_dict) (v : t) (line : string) :
  consistent v -> line_error py line = None ->
  fst (read_line py (d, v) line)
  = (DataDict (utter d ++ [tokens_of py line])
              (y1 d ++ [map l1_of (labels_of py line)])
              (y2 d ++ [labels_of py line]),
     fst (index_words v (tokens_of py line))).
Proof.
  intros Hv. unfold read_line, line_error, tokens_of, labels_of, fields, getitem.
  destruct (split_on py (strip py line) tab) as [|s0 [|s1 rest]]; simpl; try discriminate.
  pose proof (VocabSpec.index_words_outcome v (split py s0) Hv) as Ho.
  destruct (index_words v (split py s0)) as [v' [[]|e]]; simpl in Ho |- *;
    destruct (List.find is_reserved (split py s0)); simpl; congruence.
Qed.

Lemma read_line_consistent (py : str_methods) (d : data_dict) (v : t) (line : string) :
  consistent v -> consistent (snd (fst (read_line py (d, v) line))).
Proof.
  intros Hv. unfold read_line, getitem.
  destruct (split_on py (strip py line) tab) as [|s0 [|s1 rest]]; simpl; try exact Hv.
  pose proof (VocabSpec.index_words_consistent v (split py s0) Hv) as Hc.
  destruct (index_words v (split py s0)) as [v' [[]|e]]; exact Hc.
Qed.

Lemma read_lines_cons (py : str_methods) (st : data_dict * t) (line : string)
      (rest : list string) :
  read_lines py st (line :: rest)
  = match snd (read_line py st line) with
    | Ok _ => read_lines py (fst (read_line py st line)) rest
    | Raise e => (fst (read_line py st line), Raise e)
    end.
Proof.
  simpl. destruct (read_line py st line) as [st' [[]|e]]; reflexivity.
Qed.

Lemma read_lines_outcome (py : str_methods) (lines : list string) (d : data_dict) (v : t) :
  consistent v ->
  snd (read_lines py (d, v) lines)
  = match first_error py lines with Some e => Raise e | None => Ok tt end.
Proof.
  revert d v. induction lines as [|l r IH]; intros d v Hv; [reflexivity|].
  rewrite read_lines_cons, (read_line_outcome py d v l Hv). cbn [first_error].
  destruct (line_error py l) eqn:E; [reflexivity|].
  rewrite (read_line_state py d v l Hv E). apply IH.
  apply VocabSpec.index_words_consistent, Hv.
Qed.

Lemma read_lines_state (py : str_methods) (lines : list string) (d : data_dict) (v : t) :
  consistent v -> first_error py lines = None ->
  fst (read_lines py (d, v) lines)
  = (DataDict (utter d ++ utter (parsed py lines))
              (y1 d ++ y1 (parsed py lines))
              (y2 d ++ y2 (parsed py lines)),
     fst (index_words v (corpus py lines))).
Proof.
  revert d v. induction lines as [|l r IH]; intros d v Hv He.
  - simpl. rewrite !app_nil_r. destruct d; reflexivity.
  - simpl in He. destruct (line_error py l) eqn:E; [discriminate|].
    rewrite read_lines_cons, (read_line_outcome py d v l Hv), E.
    rewrite (read_line_state py d v l Hv E).
    rewrite (IH _ _ (VocabSpec.index_words_consistent v _ Hv) He). simpl.
    rewrite <- !app_assoc. simpl. f_equal.
    unfold corpus. simpl. rewrite index_words_app.
    assert (Hok : snd (index_words v (tokens_of py l)) = Ok tt).
    { apply VocabSpec.index_words_ok; [exact Hv|]. apply line_error_none in E. apply E. }
    rewrite Hok. reflexivity.
Qed.

Lemma read_lines_consistent (py : str_methods) (lines : list string) (d : data_dict) (v : t) :
  consistent v -> consistent (snd (fst (read_lines py (d, v) lines))).
Proof.
  revert d v. induction lines as [|l r IH]; intros d v Hv; [exact Hv|].
  rewrite read_lines_cons. pose proof (read_line_consistent py d v l Hv) as Hc.
  destruct (snd (read_line py (d, v) l)); [|exact Hc].
  destruct (fst (read_line py (d, v) l)) as [d' v']. apply IH, Hc.
Qed.

Lemma read_file_snd (py : str_methods) (lines : list string) (v : t) :
  consistent v ->
  snd (read_file py lines v)
  = match first_error py lines with
    | Some e => Raise e
    | None => Ok (parsed py lines)
    end.
Proof.
  intros Hv. unfold read_file.
  pose proof (read_lines_outcome py lines (DataDict [] [] []) v Hv) as Ho.
  pose proof (read_lines_state py lines (DataDict [] [] []) v Hv) as Hs.
  destruct (read_lines py (DataDict [] [] [], v) lines) as [[d v'] [[]|e]];
    simpl in Ho, Hs |- *; destruct (first_error py lines); try congruence.
  specialize (Hs eq_refl). injection Hs as -> _. reflexivity.
Qed.

Lemma read_file_vocab (py : str_methods) (lines : list string) (v : t) :
  consistent v -> first_error py lines = None ->
  fst (read_file py lines v) = fst (index_words v (corpus py lines)).
Proof.
  intros Hv He. unfold read_file.
  pose proof (read_lines_state py lines (DataDict [] [] []) v Hv He) as Hs.
  destruct (read_lines py (DataDict [] [] [], v) lines) as [[d v'] [[]|e]];
    simpl in Hs |- *; congruence.
Qed.

Lemma read_file_consistent (py : str_methods) (lines : list string) (v : t) :
  consistent v -> consistent (fst (read_file py lines v)).
Proof.
  intros Hv. unfold read_file.
  pose proof (read_lines_consistent py lines (DataDict [] [] []) v Hv) as Hc.
  destruct (read_lines py (DataDict [] [] [], v) lines) as [[d v'] [[]|e]]; exact Hc.
Qed.

End ReaderSpec.

(** * [binarize_data] *)
Module BinarizeSpec.
Import Datareader.
Import Datareader.Vocab.

Section ForAll.
Context {A B : Type} (f : A -> result B).

Lemma for_all_Forall2 (xs : list A) (ys : list B) :
  for_all f xs = Ok ys <-> List.Forall2 (fun x y => f x = Ok y) xs ys.
Proof.
  revert ys. induction xs as [|x xs IH]; intros ys; simpl.
  - split; intros H; [injection H as <-; constructor|inversion H; reflexivity].
  - split.
    + destruct (f x) as [y|e] eqn:Ex; simpl; [|discriminate].
      destruct (for_all f xs) as [ys'|e] eqn:Exs; simpl; [|discriminate].
      intros H. injection H as <-. constructor; [exact Ex|apply IH; reflexivity].
    + intros H. inversion H as [|? y ? ys' Hx Hxs]; subst.
      rewrite Hx. simpl. apply IH in Hxs. rewrite Hxs. reflexivity.
Qed.

Lemma for_all_is_Ok (xs : list A) :
  (exists ys, for_all f xs = Ok ys) <-> List.Forall (fun x => exists y, f x = Ok y) xs.
Proof.
  induction xs as [|x xs IH]; simpl.
  - split; [constructor|eauto].
  - split.
    + intros [ys H]. destruct (f x) as [y|e] eqn:Ex; simpl in H; [|discriminate].
      destruct (for_all f xs) as [ys'|e]; simpl in H; [|discriminate].
      constructor; [eauto|]. apply IH. eauto.
    + intros H. inversion H as [|? ? [y Hy] Hxs]; subst.
      apply IH in Hxs. destruct Hxs as [ys Hys]. rewrite Hy, Hys. simpl. eauto.
Qed.

Lemma for_all_length (xs : list A) (ys : list B) :
  for_all f xs = Ok ys -> List.length ys = List.length xs.
Proof.
  intros H. apply for_all_Forall2 in H. symmetry. eapply List.Forall2_length, H.
Qed.

Lemma for_all_decode (g : B -> option A) (xs : list A) (ys : list B) :
  (forall x y, f x = Ok y -> g y = Some x) ->
  for_all f xs = Ok ys -> map g ys = map Some xs.
Proof.
  intros Hg H. apply for_all_Forall2 in H.
  induction H as [|x y xs ys Hx _ IH]; [reflexivity|].
  simpl. rewrite (Hg x y Hx), IH. reflexivity.
Qed.

End ForAll.

Lemma position_nth (x : string) (l : list string) (i : nat) :
  position x l = Some i -> nth_error l i = Some x.
Proof.
  revert i. induction l as [|y l IH]; intros i; simpl; [discriminate|].
  destruct (String.eqb y x) eqn:E.
  - intros H. injection H as <-. apply String.eqb_eq in E. subst. reflexivity.
  - destruct (position x l) as [j|]; simpl; [|discriminate].
    intros H. injection H as <-. simpl. apply IH. reflexivity.
Qed.

Lemma position_is_Some (x : string) (l : list string) :
  (exists i, position x l = Some i) <-> In x l.
Proof.
  induction l as [|y l IH]; simpl.
  - split; [intros [i H]; discriminate|contradiction].
  - destruct (String.eqb y x) eqn:E.
    + apply String.eqb_eq in E. split; [auto|eauto].
    + apply String.eqb_neq in E. split.
      * intros [i H]. right. apply IH. destruct (position x l); [eauto|discriminate].
      * intros [H|H]; [contradiction|]. apply IH in H. destruct H as [i ->]. simpl. eauto.
Qed.

Lemma list_index_nth (l : list string) (x : string) (i : nat) :
  list_index l x = Ok i -> nth_error l i = Some x.
Proof.
  unfold list_index. destruct (position x l) as [j|] eqn:E; [|discriminate].
  intros H. injection H as <-. apply position_nth, E.
Qed.

Lemma list_index_is_Ok (l : list string) (x : string) :
  (exists i, list_index l x = Ok i) <-> In x l.
Proof.
  rewrite <- position_is_Some. unfold list_index.
  destruct (position x l) as [j|]; split; intros [i H]; eauto; discriminate.
Qed.

Lemma lookup_word_decode (v : t) (w : string) (i : nat) :
  consistent v -> lookup_word v w = Ok i -> index2word v !! i = Some w.
Proof.
  intros (H1 & _) H. unfold lookup_word in H.
  destruct (word2index v !! w) as [j|] eqn:E; [|discriminate].
  injection H as <-. apply H1, E.
Qed.

Lemma lookup_word_is_Ok (v : t) (w : string) :
  (exists i, lookup_word v w = Ok i) <-> is_Some (word2index v !! w).
Proof.
  unfold lookup_word. destruct (word2index v !! w) as [j|]; split.
  - eauto.
  - eauto.
  - intros [i H]. discriminate.
  - intros [i H]. discriminate.
Qed.

(** What a binarised utterance is, when [binarize_row] returns one. *)
Lemma binarize_row_Ok (v : t) (tokens l1 l2 : list string) (u a c : list nat) :
  binarize_row v (tokens, l1, l2) = Ok (u, a, c) <->
  for_all (lookup_word v) tokens = Ok u /\
  for_all (list_index y1_set) l1 = Ok a /\
  for_all (list_index y2_set) l2 = Ok c /\
  List.length u = List.length a /\ List.length a = List.length c.
Proof.
  unfold binarize_row.
  destruct (for_all (lookup_word v) tokens) as [u'|e]; simpl;
    [|split; [discriminate|intros (H & _); discriminate]].
  destruct (for_all (list_index y1_set) l1) as [a'|e]; simpl;
    [|split; [discriminate|intros (_ & H & _); discriminate]].
  destruct (for_all (list_index y2_set) l2) as [c'|e]; simpl;
    [|split; [discriminate|intros (_ & _ & H & _); discriminate]].
  destruct (Nat.eqb_spec (List.length u') (List.length a')) as [H1|H1];
    destruct (Nat.eqb_spec (List.length a') (List.length c')) as [H2|H2]; simpl; split;
    try discriminate;
    try (intros H; injection H as <- <- <-; auto);
    try (intros (Hu & Ha & Hc & H3 & H4); injection Hu as <-; injection Ha as <-;
         injection Hc as <-; first [reflexivity|contradiction]).
Qed.

Lemma binarize_row_is_Ok (v : t) (row : list string * list string * list string) :
  (exists r, binarize_row v row = Ok r) <-> row_ok v row.
Proof.
  destruct row as [[tokens l1] l2]. unfold row_ok. split.
  - intros [[[u a] c] H]. apply binarize_row_Ok in H.
    destruct H as (Hu & Ha & Hc & H1 & H2).
    rewrite <- (for_all_length _ _ _ Hu), <- (for_all_length _ _ _ Ha),
      <- (for_all_length _ _ _ Hc).
    repeat split; try assumption.
    + assert (H : exists ys, for_all (lookup_word v) tokens = Ok ys) by eauto.
      apply for_all_is_Ok in H. eapply List.Forall_impl; [|exact H].
      intros w Hw. apply lookup_word_is_Ok, Hw.
    + assert (H : exists ys, for_all (list_index y1_set) l1 = Ok ys) by eauto.
      apply for_all_is_Ok in H. eapply List.Forall_impl; [|exact H].
      intros w Hw. apply list_index_is_Ok, Hw.
    + assert (H : exists ys, for_all (list_index y2_set) l2 = Ok ys) by eauto.
      apply for_all_is_Ok in H. eapply List.Forall_impl; [|exact H].
      intros w Hw. apply list_index_is_Ok, Hw.
  - intros (Hu & Ha & Hc & H1 & H2).
    assert (Hu' : exists ys, for_all (lookup_word v) tokens = Ok ys).
    { apply for_all_is_Ok. eapply List.Forall_impl; [|exact Hu].
      intros w Hw. apply lookup_word_is_Ok, Hw. }
    assert (Ha' : exists ys, for_all (list_index y1_set) l1 = Ok ys).
    { apply for_all_is_Ok. eapply List.Forall_impl; [|exact Ha].
      intros w Hw. apply list_index_is_Ok, Hw. }
    assert (Hc' : exists ys, for_all (list_index y2_set) l2 = Ok ys).
    { apply for_all_is_Ok. eapply List.Forall_impl; [|exact Hc].
      intros w Hw. apply list_index_is_Ok, Hw. }
    destruct Hu' as [u Eu], Ha' as [a Ea], Hc' as [c Ec].
    exists (u, a, c). apply binarize_row_Ok.
    rewrite (for_all_length _ _ _ Eu), (for_all_length _ _ _ Ea), (for_all_length _ _ _ Ec).
    auto.
Qed.

Lemma binarize_data_Ok (d : data_dict) (v : t) (dm : string) (b : data_bin) :
  binarize_data d v dm = Ok b <->
  exists k rows,
    list_index domain_set dm = Ok k /\
    for_all (binarize_row v) (zip3 (utter d) (y1 d) (y2 d)) = Ok rows /\
    b = DataBin (map (fun r => fst (fst r)) rows) (map (fun r => snd (fst r)) rows)
                (map snd rows) (map (fun _ => k) rows).
Proof.
  unfold binarize_data. simpl.
  destruct (list_index domain_set dm) as [k|e]; simpl.
  - destruct (for_all (binarize_row v) (zip3 (utter d) (y1 d) (y2 d))) as [rows|e]; simpl.
    + split.
      * intros H. injection H as <-. eauto.
      * intros (k' & rows' & Hk & Hr & ->). injection Hk as <-. injection Hr as <-. reflexivity.
    + split; [discriminate|]. intros (k' & rows' & _ & Hr & _). discriminate.
  - split; [discriminate|]. intros (k' & rows' & Hk & _). discriminate.
Qed.

Section Zip3.
Context {A B C : Type}.

Lemma zip3_length (a : list A) (b : list B) (c : list C) :
  List.length (zip3 a b c)
  = Nat.min (List.length a) (Nat.min (List.length b) (List.length c)).
Proof.
  revert b c. induction a as [|x a IH]; intros [|y b] [|z c]; simpl; try lia.
  rewrite IH. lia.
Qed.

Lemma zip3_fst (a : list A) (b : list B) (c : list C) :
  map (fun r => fst (fst r)) (zip3 a b c) = firstn (List.length (zip3 a b c)) a.
Proof.
  revert b c. induction a as [|x a IH]; intros [|y b] [|z c]; simpl; try reflexivity.
  rewrite IH. reflexivity.
Qed.

Lemma zip3_snd (a : list A) (b : list B) (c : list C) :
  map (fun r => snd (fst r)) (zip3 a b c) = firstn (List.length (zip3 a b c)) b.
Proof.
  revert b c. induction a as [|x a IH]; intros [|y b] [|z c]; simpl; try reflexivity.
  rewrite IH. reflexivity.
Qed.

Lemma zip3_thd (a : list A) (b : list B) (c : list C) :
  map snd (zip3 a b c) = firstn (List.length (zip3 a b c)) c.
Proof.
  revert b c. induction a as [|x a IH]; intros [|y b] [|z c]; simpl; try reflexivity.
  rewrite IH. reflexivity.
Qed.

End Zip3.

Lemma rows_of_zip3 (d : data_dict) :
  List.length (zip3 (utter d) (y1 d) (y2 d)) = rows_of d.
Proof. apply zip3_length. Qed.

(** Decoding the rows that [binarize_row] produced gives the rows back. *)
Lemma rows_decode (v : t) (xs : list (list string * list string * list string))
      (rows : list (list nat * list nat * list nat)) :
  consistent v ->
  for_all (binarize_row v) xs = Ok rows ->
  map (map (fun i => index2word v !! i)) (map (fun r => fst (fst r)) rows)
  = map (map Some) (map (fun r => fst (fst r)) xs) /\
  map (map (nth_error y1_set)) (map (fun r => snd (fst r)) rows)
  = map (map Some) (map (fun r => snd (fst r)) xs) /\
  map (map (nth_error y2_set)) (map snd rows) = map (map Some) (map snd xs).
Proof.
  intros Hv H. apply for_all_Forall2 in H.
  induction H as [|[[tokens l1] l2] [[u a] c] xs rows Hx _ (IH1 & IH2 & IH3)];
    [repeat split|].
  apply binarize_row_Ok in Hx. destruct Hx as (Hu & Ha & Hc & _).
  simpl. rewrite IH1, IH2, IH3.
  rewrite (for_all_decode _ (fun i => index2word v !! i) _ _
             (fun w i => lookup_word_decode v w i Hv) Hu).
  rewrite (for_all_decode _ (nth_error y1_set) _ _ (list_index_nth y1_set) Ha).
  rewrite (for_all_decode _ (nth_error y2_set) _ _ (list_index_nth y2_set) Hc).
  repeat split.
Qed.

Lemma rows_aligned (v : t) (xs : list (list string * list string * list string))
      (rows : list (list nat * list nat * list nat)) :
  for_all (binarize_row v) xs = Ok rows ->
  List.Forall (fun r => List.length (fst (fst r)) = List.length (snd (fst r)) /\
                        List.length (snd (fst r)) = List.length (snd r)) rows.
Proof.
  intros H. apply for_all_Forall2 in H.
  induction H as [|[[tokens l1] l2] [[u a] c] xs rows Hx _ IH]; constructor; [|exact IH].
  apply binarize_row_Ok in Hx. simpl. tauto.
Qed.

Lemma binarize_data_decode (d : data_dict) (v : t) (dm : string) (b : data_bin) :
  consistent v -> binarize_data d v dm = Ok b ->
  map (map (fun i => index2word v !! i)) (utter_bin b)
  = map (map Some) (firstn (rows_of d) (utter d)) /\
  map (map (nth_error y1_set)) (y1_bin b) = map (map Some) (firstn (rows_of d) (y1 d)) /\
  map (map (nth_error y2_set)) (y2_bin b) = map (map Some) (firstn (rows_of d) (y2 d)) /\
  map (nth_error domain_set) (domains b) = repeat (Some dm) (rows_of d).
Proof.
  intros Hv H. apply binarize_data_Ok in H. destruct H as (k & rows & Hk & Hr & ->).
  destruct (rows_decode v _ rows Hv Hr) as (H1 & H2 & H3). simpl.
  rewrite H1, H2, H3, zip3_fst, zip3_snd, zip3_thd, rows_of_zip3.
  repeat split.
  rewrite <- rows_of_zip3, <- (for_all_length _ _ _ Hr).
  apply list_index_nth in Hk. clear -Hk.
  induction rows as [|r rows IH]; [reflexivity|]. simpl. rewrite Hk, IH. reflexivity.
Qed.

Lemma binarize_data_aligned (d : data_dict) (v : t) (dm : string) (b : data_bin) :
  binarize_data d v dm = Ok b ->
  List.length (utter_bin b) = rows_of d /\
  List.length (y1_bin b) = rows_of d /\
  List.length (y2_bin b) = rows_of d /\
  List.length (domains b) = rows_of d /\
  forall r, List.length (nth r (utter_bin b) []) = List.length (nth r (y1_bin b) []) /\
            List.length (nth r (y1_bin b) []) = List.length (nth r (y2_bin b) []).
Proof.
  intros H. apply binarize_data_Ok in H. destruct H as (k & rows & Hk & Hr & ->).
  simpl. rewrite !length_map, (for_all_length _ _ _ Hr), rows_of_zip3.
  repeat split; pose proof (rows_aligned v _ rows Hr) as Ha; clear -Ha;
    revert r; induction Ha as [|x rows Hx _ IH]; intros [|r]; simpl; auto; try apply Hx; apply IH.
Qed.

Lemma binarize_data_is_Ok (d : data_dict) (v : t) (dm : string) :
  (exists b, binarize_data d v dm = Ok b) <->
  In dm domain_set /\ List.Forall (row_ok v) (zip3 (utter d) (y1 d) (y2 d)).
Proof.
  split.
  - intros [b H]. apply binarize_data_Ok in H. destruct H as (k & rows & Hk & Hr & _).
    split; [apply list_index_is_Ok; eauto|].
    assert (H : exists ys, for_all (binarize_row v) (zip3 (utter d) (y1 d) (y2 d)) = Ok ys)
      by eauto.
    apply for_all_is_Ok in H. eapply List.Forall_impl; [|exact H].
    intros row Hrow. apply binarize_row_is_Ok, Hrow.
  - intros [Hdm Hrows]. apply list_index_is_Ok in Hdm. destruct Hdm as [k Hk].
    assert (H : exists ys, for_all (binarize_row v) (zip3 (utter d) (y1 d) (y2 d)) = Ok ys).
    { apply for_all_is_Ok. eapply List.Forall_impl; [|exact Hrows].
      intros row Hrow. apply binarize_row_is_Ok, Hrow. }
    destruct H as [rows Hr]. eexists. apply binarize_data_Ok. eauto.
Qed.

End BinarizeSpec.

(** * [datareader] *)
Module PipelineSpec.
Import Datareader.
Import Datareader.Vocab.

Lemma datareader_loops_eq (py : str_methods) (files : string -> list string) :
  datareader py files = datareader_loops py files.
Proof.
  unfold datareader, datareader_loops, domain_set. cbn [load_all bind].
  do 7 (match goal with
        | |- context [load py files ?v ?dm] =>
            destruct (load py files v dm) as [[? ?]|?]; cbn [bind]; [|reflexivity]
        end).
  cbn [binarize_all bind].
  do 7 (match goal with
        | |- context [binarize_data ?d ?v ?dm] =>
            destruct (binarize_data d v dm) as [?|?]; cbn [bind binarize_all]; [|reflexivity]
        end).
  reflexivity.
Qed.

Lemma load_spec (py : str_methods) (files : string -> list string) (v : t) (dm : string) :
  consistent v ->
  load py files v dm
  = match first_error py (files (snips_path dm)) with
    | Some e => Raise e
    | None => Ok (parsed py (files (snips_path dm)),
                  fst (index_words v (corpus py (files (snips_path dm)))))
    end.
Proof.
  intros Hv. unfold load.
  pose proof (ReaderSpec.read_file_snd py (files (snips_path dm)) v Hv) as Ho.
  pose proof (ReaderSpec.read_file_vocab py (files (snips_path dm)) v Hv) as Hs.
  destruct (read_file py (files (snips_path dm)) v) as [v' r]. simpl in Ho, Hs.
  destruct (first_error py (files (snips_path dm))); subst r; [reflexivity|].
  rewrite (Hs eq_refl). reflexivity.
Qed.

Lemma corpus_not_reserved (py : str_methods) (lines : list string) :
  first_error py lines = None -> List.Forall (fun w => ~ reserved w) (corpus py lines).
Proof.
  intros H. apply ReaderSpec.first_error_none in H. unfold corpus.
  induction H as [|l r [_ Hl] _ IH]; simpl; [constructor|].
  apply List.Forall_app. split; assumption.
Qed.

Lemma index_words_app_fst (v : t) (a b : list string) :
  snd (index_words v a) = Ok tt ->
  fst (index_words (fst (index_words v a)) b) = fst (index_words v (a ++ b)).
Proof.
  intros H. rewrite ReaderSpec.index_words_app, H. reflexivity.
Qed.

(** The files are read when none has an unreadable line; the vocabulary is
    then the one built from all their tokens in order. *)
Lemma load_all_readable (py : str_methods) (files : string -> list string)
      (dms : list string) (v : t) :
  consistent v ->
  (forall dm, In dm dms -> first_error py (files (snips_path dm)) = None) ->
  load_all py files v dms
  = Ok (map (fun dm => (dm, parsed py (files (snips_path dm)))) dms,
        fst (index_words v (all_tokens py files dms))).
Proof.
  revert v. induction dms as [|dm dms IH]; intros v Hv H; [reflexivity|].
  cbn [load_all]. rewrite (load_spec py files v dm Hv), (H dm (or_introl eq_refl)).
  cbn [bind]. rewrite IH.
  - cbn [bind map]. unfold all_tokens. cbn [map concat].
    rewrite index_words_app_fst; [reflexivity|].
    apply VocabSpec.index_words_ok; [exact Hv|].
    apply corpus_not_reserved, H. left. reflexivity.
  - apply VocabSpec.index_words_consistent, Hv.
  - intros dm' Hdm'. apply H. right. exact Hdm'.
Qed.

Lemma load_all_Ok (py : str_methods) (files : string -> list string)
      (dms : list string) (v : t) (r : list (string * data_dict) * t) :
  consistent v -> load_all py files v dms = Ok r ->
  forall dm, In dm dms -> first_error py (files (snips_path dm)) = None.
Proof.
  revert v r. induction dms as [|dm dms IH]; intros v r Hv H dm' Hin; [destruct Hin|].
  cbn [load_all] in H. rewrite (load_spec py files v dm Hv) in H.
  destruct (first_error py (files (snips_path dm))) eqn:E; [discriminate|].
  cbn [bind] in H. destruct Hin as [<-|Hin]; [exact E|].
  destruct (load_all py files (fst (index_words v (corpus py (files (snips_path dm))))) dms)
    as [r'|e] eqn:E'; [|discriminate].
  eapply IH; [|exact E'|exact Hin]. apply VocabSpec.index_words_consistent, Hv.
Qed.

(** The binarised files: each key gets the result of its [binarize_data]
    call, the other keys are left as they were. *)
Lemma binarize_all_Ok (v : t) (D : string -> data_dict) (dms : list string)
      (data0 data : gmap string data_bin) :
  List.NoDup dms ->
  binarize_all v (map (fun dm => (dm, D dm)) dms) data0 = Ok data ->
  forall dm, (In dm dms -> exists b, data !! dm = Some b /\ binarize_data (D dm) v dm = Ok b) /\
             (~ In dm dms -> data !! dm = data0 !! dm).
Proof.
  revert data0. induction dms as [|x dms IH]; intros data0 Hnd H dm.
  - injection H as <-. split; [contradiction|reflexivity].
  - cbn [map binarize_all] in H.
    destruct (binarize_data (D x) v x) as [b|e] eqn:E; [|discriminate]. cbn [bind] in H.
    inversion Hnd as [|? ? Hx Hnd']; subst.
    destruct (IH _ Hnd' H dm) as [Hin Hout]. split.
    + intros [<-|Hdm]; [|apply Hin, Hdm].
      exists b. split; [|exact E].
      destruct (IH _ Hnd' H x) as [_ Hout']. rewrite (Hout' Hx), lookup_insert_eq. reflexivity.
    + intros Hn. rewrite Hout; [|intros Hdm; apply Hn; right; exact Hdm].
      apply lookup_insert_ne. intros ->. apply Hn. left. reflexivity.
Qed.

Lemma binarize_all_is_Ok (v : t) (D : string -> data_dict) (dms : list string)
      (data0 : gmap string data_bin) :
  (exists data, binarize_all v (map (fun dm => (dm, D dm)) dms) data0 = Ok data) <->
  (forall dm, In dm dms -> exists b, binarize_data (D dm) v dm = Ok b).
Proof.
  revert data0. induction dms as [|x dms IH]; intros data0.
  - split; [intros _ dm []|intros _; simpl; eauto].
  - cbn [map binarize_all]. split.
    + intros [data H] dm Hin.
      destruct (binarize_data (D x) v x) as [b|e] eqn:E; [|discriminate]. cbn [bind] in H.
      destruct Hin as [<-|Hin]; [eauto|].
      eapply IH; [eauto|exact Hin].
    + intros H. destruct (H x (or_introl eq_refl)) as [b ->]. cbn [bind].
      apply IH. intros dm Hin. apply H. right. exact Hin.
Qed.

Lemma l1_of_in_y1_set (l : string) : In (l1_of l) y1_set.
Proof.
  unfold l1_of, y1_set. destruct (contains "B" l); [simpl; auto|].
  destruct (contains "I" l); simpl; auto.
Qed.

Lemma zip3_parsed (py : str_methods) (lines : list string) :
  zip3 (utter (parsed py lines)) (y1 (parsed py lines)) (y2 (parsed py lines))
  = map (fun line => (tokens_of py line, map l1_of (labels_of py line), labels_of py line))
        lines.
Proof.
  unfold parsed. simpl. induction lines as [|l r IH]; [reflexivity|].
  simpl. rewrite IH. reflexivity.
Qed.

Lemma rows_of_parsed (py : str_methods) (lines : list string) :
  rows_of (parsed py lines) = List.length lines.
Proof.
  unfold rows_of, parsed. simpl. rewrite !length_map. lia.
Qed.

(** What was read with a vocabulary binarises with every vocabulary that has
    its tokens, unless a line has a label outside [y2_set] or as many labels
    as tokens it has not. *)
Lemma binarize_parsed_is_Ok (py : str_methods) (lines : list string) (v : t) (dm : string) :
  (forall w, In w (corpus py lines) -> is_Some (word2index v !! w)) ->
  (exists b, binarize_data (parsed py lines) v dm = Ok b) <->
  In dm domain_set /\ List.Forall (binarizable py) lines.
Proof.
  intros Hcov. rewrite BinarizeSpec.binarize_data_is_Ok, zip3_parsed.
  rewrite List.Forall_map. split; intros [Hdm H]; (split; [exact Hdm|]).
  - eapply List.Forall_impl; [|exact H]. intros l (_ & _ & H2 & H3 & H4).
    split; [|exact H2]. rewrite H3. apply length_map.
  - apply List.Forall_forall. intros l Hl.
    rewrite List.Forall_forall in H. destruct (H l Hl) as [Hlen H2].
    split; [|split; [|split; [exact H2|]]].
    + apply List.Forall_forall. intros w Hw. apply Hcov. unfold corpus.
      apply in_concat. exists (tokens_of py l). split; [|exact Hw].
      apply in_map. exact Hl.
    + apply List.Forall_forall. intros x Hx. apply in_map_iff in Hx.
      destruct Hx as (y & <- & _). apply l1_of_in_y1_set.
    + rewrite length_map. split; [exact Hlen|reflexivity].
Qed.

Lemma NoDup_domain_set : List.NoDup domain_set.
Proof.
  apply NoDup_ListNoDup. apply (bool_decide_unpack _). vm_compute. exact I.
Qed.

Lemma all_tokens_covered (py : str_methods) (files : string -> list string)
      (dms : list string) (v : t) :
  consistent v ->
  (forall dm, In dm dms -> first_error py (files (snips_path dm)) = None) ->
  forall dm w, In dm dms -> In w (corpus py (files (snips_path dm))) ->
               is_Some (word2index (fst (index_words v (all_tokens py files dms))) !! w).
Proof.
  intros Hv H dm w Hdm Hw. apply VocabSpec.index_words_covers.
  - apply VocabSpec.index_words_ok; [exact Hv|]. unfold all_tokens.
    clear -H. induction dms as [|x dms IH]; simpl; [constructor|].
    apply List.Forall_app. split.
    + apply corpus_not_reserved, H. left. reflexivity.
    + apply IH. intros dm Hdm. apply H. right. exact Hdm.
  - unfold all_tokens. apply in_concat. eexists. split; [|exact Hw].
    apply (in_map (fun dm => corpus py (files (snips_path dm)))), Hdm.
Qed.

Lemma datareader_Ok (py : str_methods) (files : string -> list string)
      (data : gmap string data_bin) (vocab : t) :
  datareader py files = Ok (data, vocab) ->
  (forall dm, In dm domain_set -> first_error py (files (snips_path dm)) = None) /\
  vocab = fst (index_words __init__ (all_tokens py files domain_set)) /\
  forall dm,
    (In dm domain_set ->
     exists b, data !! dm = Some b /\
               binarize_data (parsed py (files (snips_path dm))) vocab dm = Ok b) /\
    (~ In dm domain_set -> data !! dm = None).
Proof.
  rewrite datareader_loops_eq. unfold datareader_loops. intros H.
  destruct (load_all py files __init__ domain_set) as [[ds v]|e] eqn:El; [|discriminate].
  pose proof (load_all_Ok py files _ _ _ VocabSpec.consistent_init El) as Hr.
  rewrite (load_all_readable py files _ _ VocabSpec.consistent_init Hr) in El.
  injection El as <- <-. cbn [bind] in H.
  destruct (binarize_all _ _ ∅) as [data'|e] eqn:Eb; [|discriminate].
  injection H as <- <-.
  split; [exact Hr|]. split; [reflexivity|]. intros dm.
  destruct (binarize_all_Ok _ (fun dm => parsed py (files (snips_path dm))) _ _ _
              NoDup_domain_set Eb dm) as [Hin Hout].
  split; [exact Hin|]. intros Hn. rewrite (Hout Hn). apply lookup_empty.
Qed.

Lemma datareader_is_Ok (py : str_methods) (files : string -> list string) :
  (exists r, datareader py files = Ok r) <->
  forall dm, In dm domain_set ->
             List.Forall (readable py) (files (snips_path dm)) /\
             List.Forall (binarizable py) (files (snips_path dm)).
Proof.
  split.
  - intros [[data vocab] H]. destruct (datareader_Ok py files data vocab H) as (Hr & -> & Hd).
    intros dm Hdm. split; [apply ReaderSpec.first_error_none, Hr, Hdm|].
    destruct (Hd dm) as [Hin _]. destruct (Hin Hdm) as (b & _ & Hb).
    eapply binarize_parsed_is_Ok; [|eauto].
    intros w Hw. eapply all_tokens_covered; eauto using VocabSpec.consistent_init.
  - intros H. rewrite datareader_loops_eq. unfold datareader_loops.
    assert (Hr : forall dm, In dm domain_set -> first_error py (files (snips_path dm)) = None).
    { intros dm Hdm. apply ReaderSpec.first_error_none, H, Hdm. }
    rewrite (load_all_readable py files _ _ VocabSpec.consistent_init Hr). cbn [bind].
    assert (Hb : exists data,
               binarize_all (fst (index_words __init__ (all_tokens py files domain_set)))
                 (map (fun dm => (dm, parsed py (files (snips_path dm)))) domain_set) ∅
               = Ok data).
    { apply (binarize_all_is_Ok _ (fun dm => parsed py (files (snips_path dm)))).
      intros dm Hdm. apply binarize_parsed_is_Ok.
      - intros w Hw. eapply all_tokens_covered; eauto using VocabSpec.consistent_init.
      - split; [exact Hdm|apply H, Hdm]. }
    destruct Hb as [data ->]. cbn [bind]. eauto.
Qed.

End PipelineSpec.

(* ------------------------------------------------------------------ *)
(** * The data reader: vocabulary, files and binarisation *)
(* ------------------------------------------------------------------ *)

Module DataSpec.
Import Datareader.
Import Datareader.Vocab.
Import DataExamples.

Lemma decoded_in_range {A B : Type} (g : B -> option A) (ys : list B) (xs : list A) :
  map g ys = map Some xs -> List.Forall (fun y => is_Some (g y)) ys.
Proof.
  revert xs. induction ys as [|y ys IH]; intros [|x xs] H; try discriminate; constructor.
  - simpl in H. injection H as H _. rewrite H. eauto.
  - simpl in H. injection H as _ H. apply (IH xs H).
Qed.

Lemma decoded_rows_in_range {A B : Type} (g : B -> option A) (P : B -> Prop)
      (ys : list (list B)) (xs : list (list A)) :
  (forall y, is_Some (g y) -> P y) ->
  map (map g) ys = map (map Some) xs -> List.Forall (List.Forall P) ys.
Proof.
  intros HP. revert xs. induction ys as [|y ys IH]; intros [|x xs] H; try discriminate;
    constructor.
  - simpl in H. injection H as H _. apply decoded_in_range in H.
    eapply List.Forall_impl; [|exact H]. exact HP.
  - simpl in H. injection H as _ H. apply (IH xs H).
Qed.

Lemma nth_error_is_Some {A : Type} (l : list A) (i : nat) :
  is_Some (nth_error l i) -> i < List.length l.
Proof.
  intros [x H]. apply nth_error_Some. congruence.
Qed.

Lemma not_reserved_words (s : list string) :
  List.find is_reserved s = None -> List.Forall (fun w => ~ reserved w) s.
Proof. apply VocabSpec.find_reserved_none. Qed.

(** The vocabulary invariant.  Every vocabulary obtained from [Vocab()] by
    calls of [index_words], including calls that raise, is consistent:
    [word2index] and [index2word] are inverse to each other, the indices in
    use are exactly [0 .. n_words - 1], the counted words are exactly the
    indexed words other than [PAD] and [UNK], and [PAD] and [UNK] keep the
    indices 0 and 1. *)
Theorem vocabulary_stays_consistent (sentences : list (list string)) :
  consistent (fold_left (fun v s => fst (index_words v s)) sentences __init__).
Proof.
  assert (H : forall v, consistent v ->
                        consistent (fold_left (fun v s => fst (index_words v s)) sentences v)).
  { induction sentences as [|s ss IH]; intros v Hv; [exact Hv|].
    simpl. apply IH, VocabSpec.index_words_consistent, Hv. }
  apply H, VocabSpec.consistent_init.
Qed.

(** Reserved words.  On a consistent vocabulary [index_words] raises
    [KeyError] at the first occurrence of the token [PAD] or [UNK] in the
    sentence (the constructor gives them an index but no count, and the
    increment of the count fails), and returns normally on every sentence
    without them. *)
Theorem index_words_raises_on_reserved_word (v : t) (s : list string) :
  consistent v ->
  snd (index_words v s)
  = match List.find is_reserved s with
    | Some w => Raise (KeyError w)
    | None => Ok tt
    end.
Proof. apply VocabSpec.index_words_outcome. Qed.

Lemma index_words_raises_on_reserved_word_witness :
  snd (index_words __init__ ["play"; "UNK"; "PAD"]%string) = Raise (KeyError "UNK").
Proof.
  exact (index_words_raises_on_reserved_word __init__ ["play"; "UNK"; "PAD"]%string
           VocabSpec.consistent_init).
Defined.

(** The effect of [index_words].  On a consistent vocabulary and a sentence
    without reserved words, the indexed words afterwards are those indexed
    before and the words of the sentence, no word changes its index, and the
    count of every word grows by the number of its occurrences in the
    sentence. *)
Theorem index_words_effect (v : t) (s : list string) :
  consistent v ->
  List.Forall (fun w => ~ reserved w) s ->
  let v' := fst (index_words v s) in
  (forall w, is_Some (word2index v' !! w) <-> is_Some (word2index v !! w) \/ In w s) /\
  (forall w i, word2index v !! w = Some i -> word2index v' !! w = Some i) /\
  (forall w, default 0 (word2count v' !! w)
             = default 0 (word2count v !! w) + count_occ string_dec s w).
Proof.
  intros Hv Hs. apply (VocabSpec.index_words_ok v s Hv) in Hs. cbv zeta.
  split; [|split].
  - intros w. split; [apply VocabSpec.index_words_domain|].
    intros [[i Hi]|Hin].
    + rewrite (VocabSpec.index_words_keeps v s w i Hi). eauto.
    + apply VocabSpec.index_words_covers; assumption.
  - intros w i. apply VocabSpec.index_words_keeps.
  - intros w. apply VocabSpec.index_words_count; assumption.
Qed.

Lemma index_words_effect_witness :
  default 0 (word2count (fst (index_words __init__ ["play"; "jazz"; "play"]%string))
               !! "play"%string)
  = default 0 (word2count __init__ !! "play"%string)
    + count_occ string_dec ["play"; "jazz"; "play"]%string "play"%string.
Proof.
  destruct (index_words_effect __init__ ["play"; "jazz"; "play"]%string
              VocabSpec.consistent_init) as (_ & _ & H).
  - apply not_reserved_words. reflexivity.
  - apply H.
Defined.

(** The numbering of new words.  When [index_words] returns, the words of
    the sentence that had no index receive the indices [n_words],
    [n_words + 1], ... in the order of their first occurrence, and [n_words]
    grows by the number of these words. *)
Theorem new_words_numbered_in_order (v : t) (s : list string) :
  snd (index_words v s) = Ok tt ->
  n_words (fst (index_words v s)) = n_words v + List.length (first_seen (indexed v) s) /\
  forall k w, nth_error (first_seen (indexed v) s) k = Some w ->
              word2index (fst (index_words v s)) !! w = Some (n_words v + k).
Proof. apply VocabSpec.index_words_numbering. Qed.

Lemma new_words_numbered_in_order_witness :
  n_words (fst (index_words __init__ ["play"; "jazz"; "play"; "UNK_"]%string))
  = n_words __init__
    + List.length (first_seen (indexed __init__) ["play"; "jazz"; "play"; "UNK_"]%string).
Proof.
  apply (new_words_numbered_in_order __init__ ["play"; "jazz"; "play"; "UNK_"]%string).
  vm_compute. reflexivity.
Defined.

(** [read_file].  Called with a consistent vocabulary, [read_file] raises
    at the first line that is not readable: [IndexError] when the line has
    fewer than two tab-separated fields, [KeyError] when its utterance holds
    the token [PAD] or [UNK].  When every line is readable it returns, line
    by line, the tokens of the first field, the labels of the second field,
    and for each label its coarse label; the vocabulary object is then the
    one [index_words] builds from all the tokens of the file in order.  The
    vocabulary is consistent afterwards in either case. *)
Theorem read_file_outcome (py : str_methods) (lines : list string) (v : t) :
  consistent v ->
  snd (read_file py lines v)
  = match first_error py lines with
    | Some e => Raise e
    | None => Ok (parsed py lines)
    end /\
  (first_error py lines = None <-> List.Forall (readable py) lines) /\
  (List.Forall (readable py) lines ->
   fst (read_file py lines v) = fst (index_words v (corpus py lines))) /\
  consistent (fst (read_file py lines v)).
Proof.
  intros Hv. split; [apply ReaderSpec.read_file_snd, Hv|].
  split; [apply ReaderSpec.first_error_none|]. split.
  - intros H. apply ReaderSpec.read_file_vocab; [exact Hv|].
    apply ReaderSpec.first_error_none, H.
  - apply ReaderSpec.read_file_consistent, Hv.
Qed.

Lemma read_file_outcome_witness :
  snd (read_file ascii_str [rate_it; no_labels; unk_line] __init__)
  = Raise (IndexError "list index out of range") /\
  snd (read_file ascii_str [rate_it; unk_line; no_labels] __init__)
  = Raise (KeyError "UNK") /\
  snd (read_file ascii_str [rate_it; play_jazz] __init__)
  = Ok (parsed ascii_str [rate_it; play_jazz]).
Proof.
  split; [|split].
  - exact (proj1 (read_file_outcome ascii_str [rate_it; no_labels; unk_line] __init__
                    VocabSpec.consistent_init)).
  - exact (proj1 (read_file_outcome ascii_str [rate_it; unk_line; no_labels] __init__
                    VocabSpec.consistent_init)).
  - exact (proj1 (read_file_outcome ascii_str [rate_it; play_jazz] __init__
                    VocabSpec.consistent_init)).
Defined.

(** Coarse labels.  The label [read_file] derives from a slot label, by
    testing whether the letter [B] and then the letter [I] occur anywhere in
    it, is always one of [y1_set]; and for every slot label of [y2_set] it
    is the first letter of the label. *)
Theorem coarse_label_is_first_letter :
  (forall l, In (l1_of l) y1_set) /\
  (forall l, In l y2_set -> l1_of l = substring 0 1 l).
Proof.
  split; [apply PipelineSpec.l1_of_in_y1_set|].
  assert (H : List.Forall (fun l => l1_of l = substring 0 1 l) y2_set).
  { unfold y2_set. repeat (constructor; [reflexivity|]). constructor. }
  intros l Hl. rewrite List.Forall_forall in H. apply H, Hl.
Qed.

(** The label tables hold no label twice: [index] finds every entry of
    [y1_set], [y2_set] and [domain_set] at its own position. *)
Theorem label_ids_are_unique (i : nat) (l : string) :
  (nth_error y1_set i = Some l -> list_index y1_set l = Ok i) /\
  (nth_error y2_set i = Some l -> list_index y2_set l = Ok i) /\
  (nth_error domain_set i = Some l -> list_index domain_set l = Ok i).
Proof.
  assert (H : forall tbl : list string,
             forallb (fun k => match nth_error tbl k with
                               | Some x => match list_index tbl x with
                                           | Ok j => j =? k
                                           | Raise _ => false
                                           end
                               | None => true
                               end) (seq 0 (List.length tbl)) = true ->
             nth_error tbl i = Some l -> list_index tbl l = Ok i).
  { intros tbl Hall Hi. rewrite forallb_forall in Hall.
    assert (Hlt : i < List.length tbl) by (apply nth_error_Some; congruence).
    specialize (Hall i). rewrite Hi in Hall.
    destruct (list_index tbl l) as [j|e].
    - f_equal. apply Nat.eqb_eq, Hall. apply in_seq. lia.
    - discriminate Hall. apply in_seq. lia. }
  split; [|split]; apply H; vm_compute; reflexivity.
Qed.

(** Decoding.  When [binarize_data] returns with a consistent vocabulary,
    its result decodes to the data it was given, cut to the utterances
    [zip] pairs up: looking the word ids up in [index2word] gives the
    tokens, indexing [y1_set] and [y2_set] with the label ids gives the
    labels, and every domain id is the position of [dm] in [domain_set]. *)
Theorem binarize_data_decodes (d : data_dict) (v : t) (dm : string) (b : data_bin) :
  consistent v ->
  binarize_data d v dm = Ok b ->
  map (map (fun i => index2word v !! i)) (utter_bin b)
  = map (map Some) (firstn (rows_of d) (utter d)) /\
  map (map (nth_error y1_set)) (y1_bin b) = map (map Some) (firstn (rows_of d) (y1 d)) /\
  map (map (nth_error y2_set)) (y2_bin b) = map (map Some) (firstn (rows_of d) (y2 d)) /\
  map (nth_error domain_set) (domains b) = repeat (Some dm) (rows_of d).
Proof. apply BinarizeSpec.binarize_data_decode. Qed.

Lemma binarize_data_decodes_witness :
  map (map (fun i => index2word (fst (index_words __init__ ["play"; "jazz"]%string)) !! i))
      (utter_bin (DataBin [[2; 3]] [[0; 1]] [[0; 31]] [3]))
  = map (map Some) (firstn (rows_of (parsed ascii_str [play_jazz]))
                           (utter (parsed ascii_str [play_jazz]))).
Proof.
  refine (proj1 (binarize_data_decodes (parsed ascii_str [play_jazz])
                   (fst (index_words __init__ ["play"; "jazz"]%string))
                   "PlayMusic" (DataBin [[2; 3]] [[0; 1]] [[0; 31]] [3]) _ _)).
  - apply VocabSpec.index_words_consistent, VocabSpec.consistent_init.
  - vm_compute. reflexivity.
Defined.

(** Alignment.  When [binarize_data] returns, its four lists have one
    entry for each utterance [zip] pairs up, and in every row the word ids,
    the coarse label ids and the slot label ids are equally many. *)
Theorem binarize_data_is_aligned (d : data_dict) (v : t) (dm : string) (b : data_bin) :
  binarize_data d v dm = Ok b ->
  List.length (utter_bin b) = rows_of d /\
  List.length (y1_bin b) = rows_of d /\
  List.length (y2_bin b) = rows_of d /\
  List.length (domains b) = rows_of d /\
  forall r, List.length (nth r (utter_bin b) []) = List.length (nth r (y1_bin b) []) /\
            List.length (nth r (y1_bin b) []) = List.length (nth r (y2_bin b) []).
Proof. apply BinarizeSpec.binarize_data_aligned. Qed.

Lemma binarize_data_is_aligned_witness :
  List.length (utter_bin (DataBin [[2; 3]] [[0; 1]] [[0; 31]] [3]))
  = rows_of (parsed ascii_str [play_jazz]).
Proof.
  refine (proj1 (binarize_data_is_aligned (parsed ascii_str [play_jazz])
                   (fst (index_words __init__ ["play"; "jazz"]%string))
                   "PlayMusic" (DataBin [[2; 3]] [[0; 1]] [[0; 31]] [3]) _)).
  vm_compute. reflexivity.
Defined.

(** Ranges.  When [binarize_data] returns with a consistent vocabulary,
    every word id is below [n_words], every coarse label id below 3, every
    slot label id below 72 and every domain id below 7: the ids index the
    embedding and the tag spaces without a check. *)
Theorem binarized_ids_in_range (d : data_dict) (v : t) (dm : string) (b : data_bin) :
  consistent v ->
  binarize_data d v dm = Ok b ->
  List.Forall (List.Forall (fun i => i < n_words v)) (utter_bin b) /\
  List.Forall (List.Forall (fun i => i < 3)) (y1_bin b) /\
  List.Forall (List.Forall (fun i => i < 72)) (y2_bin b) /\
  List.Forall (fun k => k < 7) (domains b).
Proof.
  intros Hv Hb.
  destruct (BinarizeSpec.binarize_data_decode d v dm b Hv Hb) as (H1 & H2 & H3 & H4).
  split; [|split; [|split]].
  - apply (decoded_rows_in_range _ _ _ _ (fun i => proj1 (proj1 (proj2 Hv) i)) H1).
  - apply (decoded_rows_in_range _ _ _ _ (nth_error_is_Some y1_set) H2).
  - apply (decoded_rows_in_range _ _ _ _ (nth_error_is_Some y2_set) H3).
  - assert (H : map (nth_error domain_set) (domains b)
                = map Some (repeat dm (rows_of d))).
    { rewrite H4. clear. induction (rows_of d) as [|n IH]; [reflexivity|].
      simpl. rewrite IH. reflexivity. }
    apply decoded_in_range in H. eapply List.Forall_impl; [|exact H].
    apply (nth_error_is_Some domain_set).
Qed.

Lemma binarized_ids_in_range_witness :
  List.Forall (List.Forall (fun i => i < 72))
              (y2_bin (DataBin [[2; 3]] [[0; 1]] [[0; 31]] [3])).
Proof.
  refine (proj1 (proj2 (proj2 (binarized_ids_in_range (parsed ascii_str [play_jazz])
                   (fst (index_words __init__ ["play"; "jazz"]%string))
                   "PlayMusic" (DataBin [[2; 3]] [[0; 1]] [[0; 31]] [3]) _ _)))).
  - apply VocabSpec.index_words_consistent, VocabSpec.consistent_init.
  - vm_compute. reflexivity.
Defined.

(** When [binarize_data] returns.  It returns exactly when [dm] is one of
    the seven domains and, in every utterance [zip] pairs up, each token has
    an index in the vocabulary (there is no fallback to [UNK]), each coarse
    label is in [y1_set], each slot label is in [y2_set], and tokens, coarse
    labels and slot labels are equally many. *)
Theorem binarize_data_returns_iff (d : data_dict) (v : t) (dm : string) :
  (exists b, binarize_data d v dm = Ok b) <->
  In dm domain_set /\ List.Forall (row_ok v) (zip3 (utter d) (y1 d) (y2 d)).
Proof. apply BinarizeSpec.binarize_data_is_Ok. Qed.

(** Reading, then binarising.  What [read_file] returned from readable
    lines binarises with the vocabulary it left behind, also after further
    sentences were indexed into it, exactly when [dm] is one of the seven
    domains and every line has as many labels as tokens, all of them in
    [y2_set]: no token is unknown and no coarse label is. *)
Theorem read_then_binarize (py : str_methods) (lines : list string) (v : t)
        (later : list string) (dm : string) :
  consistent v ->
  List.Forall (readable py) lines ->
  (exists b, binarize_data (parsed py lines)
                           (fst (index_words (fst (read_file py lines v)) later)) dm = Ok b)
  <-> In dm domain_set /\ List.Forall (binarizable py) lines.
Proof.
  intros Hv Hr. apply PipelineSpec.binarize_parsed_is_Ok.
  apply ReaderSpec.first_error_none in Hr.
  rewrite (ReaderSpec.read_file_vocab py lines v Hv Hr).
  intros w Hw.
  destruct (VocabSpec.index_words_covers v (corpus py lines) w) as [i Hi].
  - apply VocabSpec.index_words_ok; [exact Hv|].
    apply PipelineSpec.corpus_not_reserved, Hr.
  - exact Hw.
  - rewrite (VocabSpec.index_words_keeps _ later w i Hi). eauto.
Qed.

Lemma read_then_binarize_witness :
  (exists b, binarize_data (parsed ascii_str [rate_it; play_jazz])
               (fst (index_words (fst (read_file ascii_str [rate_it; play_jazz] __init__))
                                 ["UNK"; "more"]%string)) "RateBook" = Ok b)
  <-> In "RateBook"%string domain_set /\
      List.Forall (binarizable ascii_str) [rate_it; play_jazz].
Proof.
  apply (read_then_binarize ascii_str [rate_it; play_jazz] __init__ ["UNK"; "more"]%string
           "RateBook" VocabSpec.consistent_init).
  apply ReaderSpec.first_error_none. reflexivity.
Defined.

(** When [datareader] returns.  Given the lines of the seven files, it
    returns exactly when every line of every file is readable (two
    tab-separated fields at least, no token [PAD] or [UNK]) and binarisable
    (as many labels as tokens, every label in [y2_set]). *)
Theorem datareader_returns_iff (py : str_methods) (files : string -> list string) :
  (exists r, datareader py files = Ok r) <->
  forall dm, In dm domain_set ->
             List.Forall (readable py) (files (snips_path dm)) /\
             List.Forall (binarizable py) (files (snips_path dm)).
Proof. apply PipelineSpec.datareader_is_Ok. Qed.


Lemma decoded_members {A B X : Type} (g : B -> option A) (f : X -> list A)
      (ys : list (list B)) (xs : list X) :
  map (map g) ys = map (fun x => map Some (f x)) xs ->
  forall row i, In row ys -> In i row -> exists x w, In x xs /\ In w (f x) /\ g i = Some w.
Proof.
  revert xs. induction ys as [|y ys IH]; intros [|x xs] H row i Hrow Hi;
    try discriminate; [destruct Hrow|].
  simpl in H. injection H as Hy Hys. destruct Hrow as [<-|Hrow].
  - assert (Hin : In (g i) (map g y)) by (apply in_map; exact Hi).
    rewrite Hy in Hin. apply in_map_iff in Hin. destruct Hin as (w & Hw & Hin).
    exists x, w. split; [left; reflexivity|]. split; [exact Hin|]. symmetry. exact Hw.
  - destruct (IH xs Hys row i Hrow Hi) as (x' & w & Hx' & Hw & Hg).
    exists x', w. split; [right; exact Hx'|]. split; assumption.
Qed.

Lemma datareader_entries (py : str_methods) (files : string -> list string)
        (data : gmap string data_bin) (vocab : t) :
  datareader py files = Ok (data, vocab) ->
  vocab = fst (index_words __init__ (all_tokens py files domain_set)) /\
  consistent vocab /\
  (forall dm, is_Some (data !! dm) <-> In dm domain_set) /\
  forall dm b, data !! dm = Some b ->
    map (map (fun i => index2word vocab !! i)) (utter_bin b)
    = map (fun line => map Some (tokens_of py line)) (files (snips_path dm)) /\
    map (map (nth_error y2_set)) (y2_bin b)
    = map (fun line => map Some (labels_of py line)) (files (snips_path dm)) /\
    map (map (nth_error y1_set)) (y1_bin b)
    = map (fun line => map (fun l => Some (l1_of l)) (labels_of py line))
          (files (snips_path dm)) /\
    map (nth_error domain_set) (domains b)
    = repeat (Some dm) (List.length (files (snips_path dm))).
Proof.
  intros H. destruct (PipelineSpec.datareader_Ok py files data vocab H) as (Hr & Hv & Hd).
  assert (Hc : consistent vocab).
  { rewrite Hv. apply VocabSpec.index_words_consistent, VocabSpec.consistent_init. }
  split; [exact Hv|]. split; [exact Hc|]. split.
  - intros dm. destruct (Hd dm) as [Hin Hout]. split.
    + intros [b Hb]. destruct (in_dec string_dec dm domain_set) as [Hdm|Hdm]; [exact Hdm|].
      rewrite (Hout Hdm) in Hb. discriminate.
    + intros Hdm. destruct (Hin Hdm) as (b & Hb & _). rewrite Hb. eauto.
  - intros dm b Hb. destruct (Hd dm) as [Hin Hout].
    destruct (in_dec string_dec dm domain_set) as [Hdm|Hdm];
      [|rewrite (Hout Hdm) in Hb; discriminate].
    destruct (Hin Hdm) as (b' & Hb' & Hbin).
    assert (b' = b) by congruence. subst b'.
    destruct (BinarizeSpec.binarize_data_decode _ _ _ _ Hc Hbin) as (H1 & H2 & H3 & H4).
    rewrite PipelineSpec.rows_of_parsed in H1, H2, H3, H4.
    unfold parsed in H1, H2, H3. simpl in H1, H2, H3.
    rewrite firstn_all2 in H1, H2, H3 by (rewrite length_map; lia).
    rewrite map_map in H1, H2, H3.
    split; [exact H1|]. split; [exact H3|]. split; [|exact H4].
    rewrite H2. apply map_ext. intros line. apply map_map.
Qed.


(** What [datareader] returns.  The vocabulary is the one [index_words]
    builds from the tokens of the seven files in the order of [domain_set],
    and it is consistent.  The dictionary has exactly the seven domains as
    keys.  The entry of a domain has one row for each line of the file of
    that domain; its word ids decode with the final vocabulary to the tokens
    of the lines, its slot label ids to their labels, its coarse label ids
    to the coarse labels of these, and its domain ids are all the position
    of the domain in [domain_set]. *)
Theorem datareader_result (py : str_methods) (files : string -> list string)
        (data : gmap string data_bin) (vocab : t) :
  datareader py files = Ok (data, vocab) ->
  vocab = fst (index_words __init__ (all_tokens py files domain_set)) /\
  consistent vocab /\
  (forall dm, is_Some (data !! dm) <-> In dm domain_set) /\
  forall dm b, data !! dm = Some b ->
    map (map (fun i => index2word vocab !! i)) (utter_bin b)
    = map (fun line => map Some (tokens_of py line)) (files (snips_path dm)) /\
    map (map (nth_error y2_set)) (y2_bin b)
    = map (fun line => map Some (labels_of py line)) (files (snips_path dm)) /\
    map (map (nth_error y1_set)) (y1_bin b)
    = map (fun line => map (fun l => Some (l1_of l)) (labels_of py line))
          (files (snips_path dm)) /\
    map (nth_error domain_set) (domains b)
    = repeat (Some dm) (List.length (files (snips_path dm))).
Proof. apply datareader_entries. Qed.

Lemma datareader_result_witness :
  loaded_vocab = fst (index_words __init__ (all_tokens ascii_str files0 domain_set)) /\
  consistent loaded_vocab /\
  (forall dm, is_Some (loaded_data !! dm) <-> In dm domain_set).
Proof.
  destruct (datareader_result ascii_str files0 loaded_data loaded_vocab) as (H1 & H2 & H3 & _).
  - vm_compute. reflexivity.
  - split; [exact H1|]. split; [exact H2|exact H3].
Defined.

(** No reserved id.  In what [datareader] returns, every word id is at
    least 2 and below [n_words]: the ids 0 and 1 of [PAD] and [UNK] do not
    occur, since a token that is not in the vocabulary cannot occur and the
    tokens [PAD] and [UNK] make [read_file] raise. *)
Theorem datareader_emits_no_reserved_id (py : str_methods) (files : string -> list string)
        (data : gmap string data_bin) (vocab : t) :
  datareader py files = Ok (data, vocab) ->
  forall dm b, data !! dm = Some b ->
    List.Forall (List.Forall (fun i => 2 <= i < n_words vocab)) (utter_bin b).
Proof.
  intros H dm b Hb.
  destruct (datareader_entries py files data vocab H) as (_ & Hc & Hkeys & Hdec).
  destruct (Hdec dm b Hb) as (Hu & _).
  assert (Hdm : In dm domain_set) by (apply Hkeys; rewrite Hb; eauto).
  destruct (PipelineSpec.datareader_Ok py files data vocab H) as (Hr & _ & _).
  specialize (Hr dm Hdm). apply ReaderSpec.first_error_none in Hr.
  rewrite List.Forall_forall in Hr.
  apply List.Forall_forall. intros row Hrow. apply List.Forall_forall. intros i Hi.
  destruct (decoded_members _ (tokens_of py) _ _ Hu row i Hrow Hi) as (line & w & Hl & Hw & Hg).
  destruct (Hr line Hl) as [_ Hres]. rewrite List.Forall_forall in Hres.
  pose proof (Hres w Hw) as Hnr.
  pose proof Hc as (H1 & H2 & _ & Hpad & Hunk).
  assert (Hlt : i < n_words vocab) by (apply H2; rewrite Hg; eauto).
  split; [|exact Hlt].
  destruct i as [|[|i]]; [| |lia]; exfalso; apply Hnr.
  - apply H1 in Hpad. unfold PAD_INDEX in Hpad. left. congruence.
  - apply H1 in Hunk. unfold UNK_INDEX in Hunk. right. congruence.
Qed.

Lemma datareader_emits_no_reserved_id_witness :
  List.Forall (List.Forall (fun i => 2 <= i < n_words loaded_vocab))
              (utter_bin (DataBin [[2; 3]] [[0; 1]] [[0; 31]] [3])).
Proof.
  assert (H : datareader ascii_str files0 = Ok (loaded_data, loaded_vocab))
    by (vm_compute; reflexivity).
  apply (datareader_emits_no_reserved_id ascii_str files0 loaded_data loaded_vocab H
           "PlayMusic" (DataBin [[2; 3]] [[0; 1]] [[0; 31]] [3])).
  vm_compute. reflexivity.
Defined.

End DataSpec.

(* ------------------------------------------------------------------ *)
(** * What the two passes count *)
(* ------------------------------------------------------------------ *)

Module Counting.
Import Py F1 Spans Passes.

(** ** Reading the sentinel-terminated lists *)

Lemma tag_past_end (x : list Z) (k : nat) : List.length x <= k -> tag x k = 0%Z.
Proof. intros H. unfold tag. apply nth_overflow. exact H. Qed.

Lemma getitem_sentinel (x : list Z) (i : nat) :
  i <= List.length x -> getitem (x ++ [0%Z]) (Z.of_nat i) = Ok (tag x i).
Proof.
  intros Hi. unfold getitem.
  rewrite index_nonneg by (rewrite length_app; simpl; lia).
  destruct (Nat.eq_dec i (List.length x)) as [->|Hne].
  - rewrite nth_error_app2 by lia. rewrite Nat.sub_diag, tag_past_end by lia. reflexivity.
  - rewrite nth_error_app1 by lia. unfold tag.
    rewrite (nth_error_nth' x 0%Z) by lia. reflexivity.
Qed.

Lemma getitem_minus_one (x : list Z) : getitem (x ++ [0%Z]) (-1) = Ok 0%Z.
Proof. unfold getitem. rewrite index_last. reflexivity. Qed.

Lemma range_nat (a b : nat) :
  a <= b -> range (Z.of_nat a) (Z.of_nat b) = map Z.of_nat (seq a (b - a)).
Proof.
  intros H. unfold range.
  replace (Z.to_nat (Z.of_nat b - Z.of_nat a)) with (b - a) by lia.
  symmetry. apply map_seq_from. intros k. lia.
Qed.

(** The comparison loop over positions of the sequences is the negation of
    their agreement there. *)
Lemma compare_positions (g p : list Z) (ks : list nat) :
  List.length g = List.length p ->
  (forall k, In k ks -> k <= List.length g) ->
  compare_loop (g ++ [0%Z]) (p ++ [0%Z]) (map Z.of_nat ks) false
  = Ok (negb (forallb (fun k => (tag g k =? tag p k)%Z) ks)).
Proof.
  intros Hlen. induction ks as [|k ks IH]; intros Hks; [reflexivity|].
  cbn [map compare_loop forallb].
  rewrite getitem_sentinel by (apply Hks; left; reflexivity).
  rewrite getitem_sentinel by (rewrite <- Hlen; apply Hks; left; reflexivity).
  cbn [bind]. destruct (tag g k =? tag p k)%Z; cbn [negb andb]; [|reflexivity].
  apply IH. intros k' Hk'. apply Hks. right. exact Hk'.
Qed.

(** The comparison of a span: positions [s - 1] to [i], where index [-1]
    reads the two sentinels. *)
Lemma compare_agree (g p : list Z) (s i : nat) :
  List.length g = List.length p -> s <= i -> i <= List.length g ->
  compare_loop (g ++ [0%Z]) (p ++ [0%Z]) (range (Z.of_nat s - 1) (Z.of_nat i + 1)) false
  = Ok (negb (agree g p s i)).
Proof.
  intros Hlen Hsi Hi. unfold agree. destruct s as [|s].
  - change (Z.of_nat 0 - 1)%Z with (0 - 1)%Z.
    rewrite range_from_minus_one by lia. cbn [compare_loop].
    rewrite !getitem_minus_one. cbn [bind Z.eqb negb].
    replace (Z.of_nat i + 1)%Z with (Z.of_nat (i + 1)) by lia.
    change 0%Z with (Z.of_nat 0). rewrite range_nat by lia.
    replace (0 - 1) with 0 by lia.
    apply compare_positions; [exact Hlen|].
    intros k Hk. apply in_seq in Hk. lia.
  - replace (Z.of_nat (S s) - 1)%Z with (Z.of_nat s) by lia.
    replace (Z.of_nat i + 1)%Z with (Z.of_nat (i + 1)) by lia.
    rewrite range_nat by lia.
    replace (S s - 1) with s by lia.
    apply compare_positions; [exact Hlen|].
    intros k Hk. apply in_seq in Hk. lia.
Qed.

(** ** Counting positions *)

Lemma count_S (f : nat -> bool) (n : nat) :
  count f (S n) = count f n + (if f n then 1 else 0).
Proof.
  unfold count. rewrite seq_S, List.filter_app, length_app. simpl.
  destruct (f n); reflexivity.
Qed.

Lemma count_skip (f : nat -> bool) (a b : nat) :
  a <= b -> (forall k, a <= k < b -> f k = false) -> count f b = count f a.
Proof.
  intros Hab. induction b as [|b IH]; intros H.
  - replace a with 0 by lia. reflexivity.
  - destruct (Nat.eq_dec a (S b)) as [->|Hne]; [reflexivity|].
    rewrite count_S, (H b) by lia. rewrite IH; [lia|lia|].
    intros k Hk. apply H. lia.
Qed.

Lemma count_ext (f f' : nat -> bool) (n : nat) :
  (forall k, k < n -> f k = f' k) -> count f n = count f' n.
Proof.
  induction n as [|n IH]; intros H; [reflexivity|].
  rewrite !count_S, (H n) by lia. rewrite IH; [reflexivity|].
  intros k Hk. apply H. lia.
Qed.

Lemma count_partition (f m : nat -> bool) (n : nat) :
  count (fun i => f i && m i) n + count (fun i => f i && negb (m i)) n = count f n.
Proof.
  induction n as [|n IH]; [reflexivity|].
  rewrite !count_S, <- IH. destruct (f n), (m n); simpl; lia.
Qed.

Lemma count_le (f f' : nat -> bool) (n : nat) :
  (forall k, k < n -> f k = true -> f' k = true) -> count f n <= count f' n.
Proof.
  induction n as [|n IH]; intros H; [reflexivity|].
  rewrite !count_S.
  assert (count f n <= count f' n) by (apply IH; intros k Hk; apply H; lia).
  destruct (f n) eqn:E; [rewrite (H n) by (lia || assumption); lia|].
  destruct (f' n); lia.
Qed.

(** ** Runs *)

Lemma tag_skipn (x : list Z) (s k : nat) : tag (skipn s x) k = tag x (s + k).
Proof.
  unfold tag. revert x. induction s as [|s IH]; intros x; [reflexivity|].
  destruct x as [|t x]; simpl; [destruct k; reflexivity|apply IH].
Qed.

Lemma run_length_spec (x : list Z) (m : nat) :
  (forall k, k < m -> tag x k <> 0%Z) -> tag x m = 0%Z -> run_length x = m.
Proof.
  revert m. induction x as [|t x IH]; intros m Hnz Hz.
  - destruct m as [|m]; [reflexivity|]. exfalso. apply (Hnz 0); [lia|reflexivity].
  - simpl. destruct m as [|m].
    + unfold tag in Hz. simpl in Hz. subst t. reflexivity.
    + assert (Ht : t <> 0%Z) by (apply (Hnz 0); lia).
      apply Z.eqb_neq in Ht. rewrite Ht. f_equal. apply IH.
      * intros k Hk. apply (Hnz (S k)). lia.
      * exact Hz.
Qed.

Lemma span_end_spec (x : list Z) (s i : nat) :
  s <= i -> (forall k, s <= k < i -> tag x k <> 0%Z) -> tag x i = 0%Z ->
  span_end x s = i.
Proof.
  intros Hsi Hnz Hz. unfold span_end.
  rewrite (run_length_spec (skipn s x) (i - s)); [lia| |].
  - intros k Hk. rewrite tag_skipn. apply Hnz. lia.
  - rewrite tag_skipn. replace (s + (i - s)) with i by lia. exact Hz.
Qed.

(** Inside a run, after its first position, no span starts. *)
Lemma no_start_inside (x : list Z) (s i k : nat) :
  (forall j, s <= j < i -> tag x j <> 0%Z) -> s < k <= i -> starts_at x k = false.
Proof.
  intros Hnz Hk. unfold starts_at.
  assert (E0 : (k =? 0) = false) by (apply Nat.eqb_neq; lia).
  assert (E1 : (tag x (k - 1) =? 0)%Z = false) by (apply Z.eqb_neq, Hnz; lia).
  rewrite E0, E1. apply andb_false_r.
Qed.

(** A loop over [range(0, n)] with an invariant indexed by the position. *)
Lemma for_each_indexed {S : Type} (body : S -> Z -> result S) (I : nat -> S -> Prop)
      (n : nat) (s0 : S) :
  I 0 s0 ->
  (forall i s, i < n -> I i s -> exists s', body s (Z.of_nat i) = Ok s' /\ I (Datatypes.S i) s') ->
  exists s', for_each body (range 0 (Z.of_nat n)) s0 = Ok s' /\ I n s'.
Proof.
  intros H0. induction n as [|n IH]; intros Hstep.
  - exists s0. split; [reflexivity|exact H0].
  - destruct IH as (s1 & E1 & H1).
    { intros i s Hi. apply Hstep. lia. }
    destruct (Hstep n s1) as (s2 & E2 & H2); [lia|exact H1|].
    exists s2. split; [|exact H2].
    rewrite range_S, for_each_app, E1. cbn [bind for_each]. rewrite E2. reflexivity.
Qed.

(** ** The first pass *)

Section Pass1.
Variables (g p : list Z) (c0 : counts).
Hypothesis Hlen : List.length g = List.length p.

Local Abbreviation hit := (Spans.hit g p).
Local Abbreviation miss := (Spans.miss g p).
Local Abbreviation inv1 := (Spans.inv1 g p c0).
Local Abbreviation counted1 := (Spans.counted1 g p c0).

Lemma pass1_step (i : nat) (st : locals * counts) :
  i <= List.length g -> inv1 i st ->
  exists st', pass1_body (g ++ [0%Z]) (p ++ [0%Z]) st (Z.of_nat i) = Ok st' /\ inv1 (S i) st'.
Proof.
  intros Hi [Hneg Hinv]. destruct st as [v c]. simpl in Hneg, Hinv.
  pose proof (getitem_sentinel g i Hi) as Ht.
  destruct (entity_flag v) eqn:Hf; destruct (Z.eq_dec (tag g i) 0%Z) as [Hz|Hnz].
  - (* a span closes *)
    destruct Hinv as (s & Hs & Hsi & Hstart & Hrun & Hc & Hm & Hfp).
    rewrite Hz in Ht.
    assert (Hcmp : compare_loop (g ++ [0%Z]) (p ++ [0%Z])
                     (range (stpt v - 1) (Z.of_nat i + 1)) (neg_flag v)
                   = Ok (negb (agree g p s i))).
    { rewrite Hneg, Hs. apply compare_agree; [exact Hlen|lia|exact Hi]. }
    rewrite (pass1_closes _ _ v c _ _ Ht Hf Hcmp).
    eexists. split; [reflexivity|]. split; [reflexivity|]. cbn [fst snd entity_flag].
    split; [right; replace (S i - 1) with i by lia; exact Hz|].
    assert (Hend : span_end g s = i) by (apply span_end_spec; [lia|exact Hrun|exact Hz]).
    assert (Hhit : count hit (S i) = count hit s + (if agree g p s i then 1 else 0)).
    { rewrite (count_skip hit (S s) (S i)); [|lia|].
      - rewrite count_S. unfold hit at 2. rewrite Hstart, Hend. reflexivity.
      - intros k Hk. unfold hit. rewrite (no_start_inside g s i k Hrun) by lia. reflexivity. }
    assert (Hmiss : count miss (S i) = count miss s + (if agree g p s i then 0 else 1)).
    { rewrite (count_skip miss (S s) (S i)); [|lia|].
      - rewrite count_S. unfold miss at 2. rewrite Hstart, Hend.
        destruct (agree g p s i); reflexivity.
      - intros k Hk. unfold miss. rewrite (no_start_inside g s i k Hrun) by lia. reflexivity. }
    unfold counted1. rewrite Hhit, Hmiss.
    destruct (agree g p s i); simpl; repeat split; lia.
  - (* inside a span *)
    destruct Hinv as (s & Hs & Hsi & Hstart & Hrun & Hc).
    rewrite (pass1_inside _ _ v c _ _ Ht Hf Hnz).
    eexists. split; [reflexivity|]. split; [exact Hneg|]. cbn [fst snd]. rewrite Hf.
    exists s. split; [exact Hs|]. split; [lia|]. split; [exact Hstart|]. split; [|exact Hc].
    intros k Hk. destruct (Nat.eq_dec k i) as [->|Hne]; [exact Hnz|apply Hrun; lia].
  - (* outside every span *)
    destruct Hinv as (Hprev & Hc & Hm & Hfp).
    rewrite Hz in Ht. rewrite (pass1_outside _ _ v c _ Ht Hf).
    eexists. split; [reflexivity|]. split; [exact Hneg|]. cbn [fst snd]. rewrite Hf.
    split; [right; replace (S i - 1) with i by lia; exact Hz|].
    assert (Hno : starts_at g i = false).
    { unfold starts_at. rewrite Hz. reflexivity. }
    unfold counted1. rewrite !count_S. unfold hit at 2, miss at 2. rewrite Hno. simpl.
    repeat split; lia.
  - (* a span opens *)
    destruct Hinv as (Hprev & Hc).
    rewrite (pass1_opens _ _ v c _ _ Ht Hf Hnz).
    eexists. split; [reflexivity|]. split; [exact Hneg|]. cbn [fst snd entity_flag stpt].
    exists i. split; [reflexivity|]. split; [lia|]. split; [|split; [|exact Hc]].
    + unfold starts_at. apply Z.eqb_neq in Hnz. rewrite Hnz. simpl.
      destruct Hprev as [->|Hp]; [reflexivity|].
      rewrite Hp. apply orb_true_r.
    + intros k Hk. replace k with i by lia. exact Hnz.
Qed.

(** The first pass counts every gold span once: as [TP] when the
    prediction agrees with the gold sequence from the position before the
    span to the position after it, as [FN] otherwise.  It ends with no span
    open. *)
Lemma pass1_tally (v0 : locals) :
  entity_flag v0 = false -> neg_flag v0 = false ->
  exists v,
    for_each (pass1_body (g ++ [0%Z]) (p ++ [0%Z]))
             (range 0 (Z.of_nat (List.length (p ++ [0%Z])))) (v0, c0)
    = Ok (v, Counts (TP c0 + hits g p) (FN c0 + misses g p) (FP c0)) /\
    entity_flag v = false /\ neg_flag v = false.
Proof.
  intros Hf0 Hn0.
  destruct (for_each_indexed (pass1_body (g ++ [0%Z]) (p ++ [0%Z])) inv1
              (S (List.length g)) (v0, c0)) as ([v c] & E & Hneg & Hinv).
  - split; [exact Hn0|]. cbn [fst snd]. rewrite Hf0.
    split; [left; reflexivity|]. unfold counted1. cbn. repeat split; lia.
  - intros i st Hi. apply pass1_step. lia.
  - simpl in Hneg, Hinv. destruct (entity_flag v) eqn:Hf.
    + exfalso. destruct Hinv as (s & _ & Hs & _ & Hrun & _).
      apply (Hrun (List.length g)); [lia|]. apply tag_past_end. lia.
    + destruct Hinv as (_ & Hc & Hm & Hfp).
      exists v. split; [|split; assumption].
      rewrite length_app. simpl List.length.
      replace (List.length p + 1) with (S (List.length g)) by lia.
      rewrite E. f_equal. f_equal.
      assert (Hno : starts_at g (List.length g) = false).
      { unfold starts_at. rewrite tag_past_end by lia. reflexivity. }
      rewrite count_S in Hc, Hm. unfold hit at 2 in Hc. unfold miss at 2 in Hm.
      rewrite Hno in Hc, Hm. simpl in Hc, Hm.
      destruct c as [tp fn fp]. simpl in Hc, Hm, Hfp. unfold hits, misses.
      f_equal; lia.
Qed.

End Pass1.

(** ** The second pass *)

Lemma opens_at_spec (p : list Z) (i : nat) :
  opens_at p i = true <-> tag p i = 1%Z /\ no_open p i.
Proof.
  unfold opens_at, no_open. rewrite andb_true_iff, Z.eqb_eq, forallb_forall. split.
  - intros [H1 Hall]. split; [exact H1|]. intros k Hk Hone.
    specialize (Hall k). rewrite Hone in Hall. simpl in Hall.
    assert (Hin : In k (seq 0 i)) by (apply in_seq; lia).
    apply Hall, existsb_exists in Hin. destruct Hin as (z & Hz & Hzero).
    apply in_seq in Hz. apply Z.eqb_eq in Hzero. exists z. split; [lia|exact Hzero].
  - intros [H1 Hno]. split; [exact H1|]. intros k Hk. apply in_seq in Hk.
    destruct (tag p k =? 1)%Z eqn:E; [|reflexivity]. simpl.
    apply Z.eqb_eq in E. destruct (Hno k) as (z & Hz & Hzero); [lia|exact E|].
    apply existsb_exists. exists z. split; [apply in_seq; lia|apply Z.eqb_eq, Hzero].
Qed.

Lemma no_open_inside (p : list Z) (s i k : nat) :
  tag p s = 1%Z -> (forall j, s <= j < i -> tag p j <> 0%Z) -> s < k <= i ->
  opens_at p k = false.
Proof.
  intros Hone Hrun Hk. destruct (opens_at p k) eqn:E; [|reflexivity].
  exfalso. apply opens_at_spec in E. destruct E as [_ Hno].
  destruct (Hno s) as (z & Hz & Hzero); [lia|exact Hone|].
  apply (Hrun z); [lia|exact Hzero].
Qed.

Section Pass2.
Variables (g p : list Z) (c0 : counts).
Hypothesis Hlen : List.length g = List.length p.

Local Abbreviation alarm := (Spans.alarm g p).
Local Abbreviation inv2 := (Spans.inv2 g p c0).
Local Abbreviation counted2 := (Spans.counted2 g p c0).

Lemma pass2_step (i : nat) (st : locals * counts) :
  i <= List.length g -> inv2 i st ->
  exists st', pass2_body (g ++ [0%Z]) (p ++ [0%Z]) st (Z.of_nat i) = Ok st' /\ inv2 (S i) st'.
Proof.
  intros Hi [Hneg Hinv]. destruct st as [v c]. simpl in Hneg, Hinv.
  assert (Hp : getitem (p ++ [0%Z]) (Z.of_nat i) = Ok (tag p i))
    by (apply getitem_sentinel; lia).
  destruct (entity_flag v) eqn:Hf.
  - destruct Hinv as (s & Hs & Hsi & Hone & Hno & Hrun & Htp & Hfn & Hfp).
    destruct (Z.eq_dec (tag p i) 0%Z) as [Hz|Hnz].
    + (* a span closes *)
      rewrite Hz in Hp.
      assert (Hcmp : compare_loop (g ++ [0%Z]) (p ++ [0%Z])
                       (range (stpt v - 1) (Z.of_nat i + 1)) (neg_flag v)
                     = Ok (negb (agree g p s i))).
      { rewrite Hneg, Hs. apply compare_agree; [exact Hlen|lia|exact Hi]. }
      rewrite (pass2_closes _ _ v c _ _ Hp Hf Hcmp).
      eexists. split; [reflexivity|]. split; [reflexivity|]. cbn [fst snd entity_flag].
      split.
      { intros k Hk Hk1. exists i. split; [|exact Hz].
        assert (k <> i) by (intros ->; rewrite Hz in Hk1; discriminate). lia. }
      assert (Hend : span_end p s = i) by (apply span_end_spec; [lia|exact Hrun|exact Hz]).
      assert (Hopen : opens_at p s = true) by (apply opens_at_spec; split; assumption).
      assert (Halarm : count alarm (S i)
                       = count alarm s + (if agree g p s i then 0 else 1)).
      { rewrite (count_skip alarm (S s) (S i)); [|lia|].
        - rewrite count_S. unfold Spans.alarm at 2. rewrite Hopen, Hend.
          destruct (agree g p s i); reflexivity.
        - intros k Hk. unfold Spans.alarm.
          rewrite (no_open_inside p s i k Hone Hrun) by lia. reflexivity. }
      unfold Spans.counted2. rewrite Halarm.
      destruct (agree g p s i); simpl; repeat split; lia.
    + (* inside a span *)
      rewrite (pass2_inside _ _ v c _ _ Hp Hf Hnz).
      eexists. split; [reflexivity|]. split; [exact Hneg|]. cbn [fst snd]. rewrite Hf.
      exists s. split; [exact Hs|]. split; [lia|]. split; [exact Hone|].
      split; [exact Hno|]. split; [|repeat split; assumption].
      intros k Hk. destruct (Nat.eq_dec k i) as [->|Hne]; [exact Hnz|apply Hrun; lia].
  - destruct Hinv as (Hno & Htp & Hfn & Hfp).
    destruct (Z.eq_dec (tag p i) 1%Z) as [Hone|Hnone].
    + (* a span opens *)
      rewrite Hone in Hp. rewrite (pass2_opens _ _ v c _ Hp Hf).
      eexists. split; [reflexivity|]. split; [exact Hneg|]. cbn [fst snd entity_flag stpt].
      exists i. split; [reflexivity|]. split; [lia|]. split; [exact Hone|].
      split; [exact Hno|]. split; [|repeat split; assumption].
      intros k Hk. replace k with i by lia. rewrite Hone. discriminate.
    + (* no span opens *)
      rewrite (pass2_not_opened _ _ v c _ _ Hp Hf Hnone).
      eexists. split; [reflexivity|]. split; [exact Hneg|]. cbn [fst snd]. rewrite Hf.
      split.
      { intros k Hk Hk1. assert (k <> i) by (intros ->; contradiction).
        destruct (Hno k) as (z & Hz & Hzero); [lia|exact Hk1|].
        exists z. split; [lia|exact Hzero]. }
      assert (Hnot : opens_at p i = false).
      { unfold opens_at. apply Z.eqb_neq in Hnone. rewrite Hnone. reflexivity. }
      unfold Spans.counted2. rewrite count_S. unfold Spans.alarm at 2. rewrite Hnot. simpl.
      repeat split; lia.
Qed.

(** The second pass, entered with no span open, counts as [FP] every
    predicted span that does not agree with the gold sequence from the
    position before it to the position after it. *)
Lemma pass2_tally (v0 : locals) :
  entity_flag v0 = false -> neg_flag v0 = false ->
  exists v,
    for_each (pass2_body (g ++ [0%Z]) (p ++ [0%Z]))
             (range 0 (Z.of_nat (List.length (p ++ [0%Z])))) (v0, c0)
    = Ok (v, Counts (TP c0) (FN c0) (FP c0 + false_alarms g p)).
Proof.
  intros Hf0 Hn0.
  destruct (for_each_indexed (pass2_body (g ++ [0%Z]) (p ++ [0%Z])) inv2
              (S (List.length g)) (v0, c0)) as ([v c] & E & Hneg & Hinv).
  - split; [exact Hn0|]. cbn [fst snd]. rewrite Hf0.
    split; [intros k Hk; lia|]. unfold Spans.counted2. cbn. repeat split; lia.
  - intros i st Hi. apply pass2_step. lia.
  - simpl in Hneg, Hinv. destruct (entity_flag v) eqn:Hf.
    + exfalso. destruct Hinv as (s & _ & Hs & _ & _ & Hrun & _).
      apply (Hrun (List.length g)); [lia|]. apply tag_past_end. lia.
    + destruct Hinv as (_ & Htp & Hfn & Hfp).
      exists v. rewrite length_app. simpl List.length.
      replace (List.length p + 1) with (S (List.length g)) by lia.
      rewrite E. f_equal. f_equal.
      assert (Hnot : opens_at p (List.length g) = false).
      { unfold opens_at. rewrite tag_past_end by lia. reflexivity. }
      rewrite count_S in Hfp. unfold Spans.alarm at 2 in Hfp.
      rewrite Hnot in Hfp. simpl in Hfp.
      destruct c as [tp fn fp]. simpl in Htp, Hfn, Hfp. unfold false_alarms.
      rewrite <- Hlen. f_equal; lia.
Qed.

End Pass2.

(** The two passes over one pair of sequences of one length. *)
Lemma passes_tally (g p : list Z) (c : counts) :
  List.length g = List.length p ->
  passes (g ++ [0%Z]) (p ++ [0%Z]) c = Ok (tally c g p).
Proof.
  intros Hlen. unfold passes.
  destruct (pass1_tally g p c Hlen (Locals 0 0 false false)) as (v1 & E1 & Hf1 & Hn1);
    [reflexivity|reflexivity|].
  rewrite E1. cbn [bind].
  destruct (pass2_tally g p (Counts (TP c + hits g p) (FN c + misses g p) (FP c))
              Hlen v1 Hf1 Hn1) as (v2 & E2).
  rewrite E2. reflexivity.
Qed.

End Counting.

(* ------------------------------------------------------------------ *)
(** * The totals of a batch *)
(* ------------------------------------------------------------------ *)

Module Totals.
Import Py F1 Spans Passes Counting.

Lemma append_get (h : store) (l : loc) (x : Z) : append h l x !!! l = (h !!! l) ++ [x].
Proof. unfold append. apply lookup_total_insert_eq. Qed.

Lemma append_frame (h : store) (l l' : loc) (x : Z) :
  l <> l' -> append h l x !!! l' = h !!! l'.
Proof. intros Hne. unfold append. apply lookup_total_insert_ne. exact Hne. Qed.

(** One iteration on two distinct lists of one length. *)
Lemma pair_body_tally (h : store) (c : counts) (p t : loc) :
  p <> t -> List.length (h !!! p) = List.length (h !!! t) ->
  pair_body h c p t
  = (append (append h p 0%Z) t 0%Z, Ok (tally c (h !!! t) (h !!! p))).
Proof.
  intros Hne Hlen. unfold pair_body.
  assert (E : (List.length (h !!! p) =? List.length (h !!! t)) = true)
    by (apply Nat.eqb_eq; exact Hlen).
  rewrite E. cbn [negb]. f_equal.
  rewrite append_get, (append_frame _ p t) by exact Hne.
  rewrite (append_frame _ t p) by congruence. rewrite append_get.
  apply passes_tally. symmetry. exact Hlen.
Qed.

Lemma contents_frame (h h' : store) (pairs : list (loc * loc)) :
  (forall pt, In pt pairs -> h' !!! fst pt = h !!! fst pt /\ h' !!! snd pt = h !!! snd pt) ->
  contents h' pairs = contents h pairs.
Proof.
  intros H. unfold contents. apply map_ext_in. intros pt Hpt.
  destruct (H pt Hpt) as [-> ->]. reflexivity.
Qed.

Lemma in_zip {A B : Type} (a : list A) (b : list B) (x : A) (y : B) :
  In (x, y) (zip a b) -> In x a /\ In y b.
Proof.
  revert b. induction a as [|x' a IH]; intros [|y' b] H; simpl in H; try contradiction.
  destruct H as [H|H].
  - injection H as -> ->. split; left; reflexivity.
  - destruct (IH b H). split; right; assumption.
Qed.

(** The loop over pairwise distinct lists of matching lengths ends with the
    totals of the contents the lists had. *)
Lemma scan_tally (preds targets : list loc) :
  forall (h : store) (c : counts),
    List.NoDup (preds ++ targets) ->
    List.Forall2 (fun p t => List.length (h !!! p) = List.length (h !!! t)) preds targets ->
    snd (scan h c (zip preds targets))
    = Ok (tally_all (contents h (zip preds targets)) c).
Proof.
  revert targets. induction preds as [|p ps IH]; intros targets h c Hnd HF.
  - reflexivity.
  - inversion HF as [|p' t ps' ts Hpt HF']; subst.
    simpl in Hnd. inversion Hnd as [|? ? Hp Hnd1]; subst.
    assert (Hpt_ne : p <> t).
    { intros ->. apply Hp. apply in_or_app. right. left. reflexivity. }
    assert (Hnd' : List.NoDup (ps ++ ts)).
    { apply List.NoDup_remove_1 in Hnd1. exact Hnd1. }
    assert (Ht : ~ In t (ps ++ ts)).
    { apply List.NoDup_remove_2 in Hnd1. exact Hnd1. }
    assert (Hp' : ~ In p (ps ++ ts)).
    { intros Hin. apply Hp. apply in_app_or in Hin. apply in_or_app.
      destruct Hin as [Hin|Hin]; [left; exact Hin|right; right; exact Hin]. }
    assert (Hother : forall l, In l (ps ++ ts) ->
                               append (append h p 0%Z) t 0%Z !!! l = h !!! l).
    { intros l Hl. rewrite !append_frame; [reflexivity| |]; intros ->; contradiction. }
    cbn [zip zip_with scan]. rewrite (pair_body_tally h c p t Hpt_ne Hpt).
    cbn [contents map tally_all fold_left fst snd].
    fold (contents h (zip ps ts)).
    rewrite <- (contents_frame h (append (append h p 0%Z) t 0%Z)).
    + apply IH; [exact Hnd'|].
      clear -HF' Hother. induction HF' as [|x y xs ys Hxy _ IHF]; constructor.
      * rewrite !Hother; [exact Hxy| |]; apply in_or_app.
        -- right. left. reflexivity.
        -- left. left. reflexivity.
      * apply IHF. intros l Hl. apply Hother. apply in_app_or in Hl. apply in_or_app.
        destruct Hl as [Hl|Hl]; [left|right]; right; exact Hl.
    + intros [x y] Hxy. apply in_zip in Hxy. destruct Hxy as [Hx Hy]. simpl.
      split; apply Hother; apply in_or_app; [left|right]; assumption.
Qed.

(** ** Precision, recall and their harmonic mean *)

Lemma Zpos_of_nat (b : nat) : b <> 0 -> Z.pos (Pos.of_nat b) = Z.of_nat b.
Proof.
  intros H. destruct b as [|n]; [contradiction|]. rewrite <- Pos.of_nat_succ. reflexivity.
Qed.

Lemma Qmake_of_nat (a b : nat) :
  b <> 0 -> (Z.of_nat a # Pos.of_nat b == inject_Z (Z.of_nat a) / inject_Z (Z.of_nat b))%Q.
Proof. intros H. rewrite Qmake_Qdiv, Zpos_of_nat by exact H. reflexivity. Qed.

Lemma harmonic_mean (tp fp fn : nat) :
  tp <> 0 ->
  (2 * (Z.of_nat tp # Pos.of_nat (tp + fp)) * (Z.of_nat tp # Pos.of_nat (tp + fn))
   / ((Z.of_nat tp # Pos.of_nat (tp + fp)) + (Z.of_nat tp # Pos.of_nat (tp + fn)))
   == Z.of_nat (2 * tp) # Pos.of_nat (2 * tp + fp + fn))%Q.
Proof.
  intros Htp. rewrite !Qmake_of_nat by lia.
  rewrite !Nat2Z.inj_add, !Nat2Z.inj_mul, !inject_Z_plus, !inject_Z_mult.
  assert (HA : (0 < inject_Z (Z.of_nat tp))%Q).
  { change 0%Q with (inject_Z 0). rewrite <- Zlt_Qlt. lia. }
  assert (HF : (0 <= inject_Z (Z.of_nat fp))%Q).
  { change 0%Q with (inject_Z 0). rewrite <- Zle_Qle. lia. }
  assert (HN : (0 <= inject_Z (Z.of_nat fn))%Q).
  { change 0%Q with (inject_Z 0). rewrite <- Zle_Qle. lia. }
  set (A := inject_Z (Z.of_nat tp)) in *.
  set (F := inject_Z (Z.of_nat fp)) in *.
  set (N := inject_Z (Z.of_nat fn)) in *.
  change (inject_Z (Z.of_nat 2)) with 2%Q.
  field. repeat split; intros H; Lqa.nra.
Qed.

(** The aggregation: what it returns, and the only way it raises. *)
Lemma aggregate_cases (c : counts) :
  (TP c + FP c = 0 \/ TP c + FN c = 0 ->
   aggregate c = Raise (ZeroDivisionError "division by zero")) /\
  (TP c + FP c <> 0 -> TP c + FN c <> 0 ->
   exists f, aggregate c = Ok f /\
             (f == Z.of_nat (2 * TP c) # Pos.of_nat (2 * TP c + FP c + FN c))%Q).
Proof.
  unfold aggregate, int_div. split.
  - intros [H|H].
    + rewrite H. reflexivity.
    + assert (Htp : TP c = 0) by lia. assert (Hfn : FN c = 0) by lia.
      rewrite Htp, Hfn. simpl. destruct (FP c); reflexivity.
  - intros H1 H2.
    assert (E1 : (TP c + FP c =? 0) = false) by (apply Nat.eqb_neq; exact H1).
    assert (E2 : (TP c + FN c =? 0) = false) by (apply Nat.eqb_neq; exact H2).
    rewrite E1, E2. cbn [bind].
    destruct (TP c) as [|tp] eqn:Htp.
    + simpl. eexists. split; [reflexivity|]. unfold Qeq. simpl. reflexivity.
    + assert (Ep : Qeq_bool (Z.of_nat (S tp) # Pos.of_nat (S tp + FP c)) 0 = false).
      { destruct (Qeq_bool _ 0) eqn:E; [|reflexivity].
        apply Qeq_bool_iff in E. unfold Qeq in E. simpl in E. lia. }
      rewrite Ep. cbn [negb orb]. unfold float_div.
      assert (Es : Qeq_bool ((Z.of_nat (S tp) # Pos.of_nat (S tp + FP c))
                             + (Z.of_nat (S tp) # Pos.of_nat (S tp + FN c))) 0 = false).
      { destruct (Qeq_bool _ 0) eqn:E; [|reflexivity].
        apply Qeq_bool_iff in E. unfold Qeq, Qplus in E. simpl in E. nia. }
      rewrite Es. eexists. split; [reflexivity|]. apply harmonic_mean. lia.
Qed.

(** The loop raises nothing but the assertion on the lengths. *)
Lemma scan_raises (pairs : list (loc * loc)) :
  forall (h : store) (c : counts) (e : exn),
    snd (scan h c pairs) = Raise e -> e = AssertionError "len(pred) == len(true)".
Proof.
  induction pairs as [|[p t] rest IH]; intros h c e H; [discriminate|].
  cbn [scan] in H. unfold pair_body in H.
  destruct (List.length (h !!! p) =? List.length (h !!! t)) eqn:E; cbn [negb] in H.
  - destruct (passes_total (append (append h p 0%Z) t 0%Z !!! t)
                (append (append h p 0%Z) t 0%Z !!! p) c) as (c' & Hc').
    + apply Nat.eqb_eq in E. destruct (decide (p = t)) as [->|Hne]; [reflexivity|].
      rewrite append_get, (append_frame _ p t) by exact Hne.
      rewrite (append_frame _ t p) by congruence.
      rewrite append_get, !length_app. simpl. lia.
    + rewrite Hc' in H. apply (IH _ _ _ H).
  - simpl in H. congruence.
Qed.

(** ** A prediction equal to the gold sequence *)

Lemma agree_refl (g : list Z) (s e : nat) : agree g g s e = true.
Proof.
  unfold agree. apply forallb_forall. intros k _. apply Z.eqb_refl.
Qed.

Lemma count_none (f : nat -> bool) (n : nat) :
  (forall k, k < n -> f k = false) -> count f n = 0.
Proof.
  intros H. rewrite (count_skip f 0 n); [reflexivity|lia|].
  intros k Hk. apply H. lia.
Qed.

Lemma tally_same (c : counts) (g : list Z) :
  tally c g g = Counts (TP c + count (starts_at g) (List.length g)) (FN c) (FP c).
Proof.
  unfold tally, hits, misses, false_alarms. f_equal.
  - f_equal. apply count_ext. intros k _. unfold hit.
    rewrite agree_refl. apply andb_true_r.
  - rewrite count_none; [lia|]. intros k _. unfold miss.
    rewrite agree_refl. apply andb_false_r.
  - rewrite count_none; [lia|]. intros k _. unfold alarm.
    rewrite agree_refl. apply andb_false_r.
Qed.

Lemma tally_all_same (pairs : list (list Z * list Z)) (c : counts) :
  List.Forall (fun pt => fst pt = snd pt) pairs ->
  tally_all pairs c = Counts (TP c + gold_spans pairs) (FN c) (FP c).
Proof.
  intros H. revert c. induction H as [|[p g] pairs Hpg _ IH]; intros c.
  - simpl. destruct c. simpl. f_equal. lia.
  - simpl in Hpg. subst p. cbn [tally_all fold_left fst snd].
    fold (tally_all pairs (tally c g g)). rewrite IH, tally_same. cbn [TP FN FP gold_spans fold_right snd].
    f_equal. fold (gold_spans pairs). lia.
Qed.

End Totals.

(* ------------------------------------------------------------------ *)
(** * The evaluator: what [f1_score] computes *)
(* ------------------------------------------------------------------ *)

Module EvaluatorSpec.
Import Py F1 Spans Passes Counting Totals Examples.

(** The two passes.  On a gold and a predicted sequence of one length, with
    the sentinels appended, the two passes do not raise and add to the
    totals: to [TP] the gold spans (maximal runs of non-zero gold tags) on
    which the prediction equals the gold sequence from the position before
    the span to the position after it; to [FN] the other gold spans; to [FP]
    the predicted spans (from a tag 1 met with no span open to the next tag
    0) on which the two sequences differ somewhere from the position before
    to the position after. *)
Theorem passes_count_spans (g p : list Z) (c : counts) :
  List.length g = List.length p ->
  passes (g ++ [0%Z]) (p ++ [0%Z]) c
  = Ok (Counts (TP c + count (fun i => starts_at g i && agree g p i (span_end g i))
                             (List.length g))
               (FN c + count (fun i => starts_at g i && negb (agree g p i (span_end g i)))
                             (List.length g))
               (FP c + count (fun i => opens_at p i && negb (agree g p i (span_end p i)))
                             (List.length p))).
Proof. intros Hlen. rewrite (passes_tally g p c Hlen). reflexivity. Qed.

Lemma passes_count_spans_witness :
  passes ([0; 1; 1; 0; 2] ++ [0])%Z ([0; 1; 2; 0; 2] ++ [0])%Z (Counts 0 0 0)
  = Ok (Counts 1 1 1).
Proof.
  exact (passes_count_spans [0; 1; 1; 0; 2]%Z [0; 1; 2; 0; 2]%Z (Counts 0 0 0) eq_refl).
Defined.

(** Gold spans are counted once.  The two passes add to [TP + FN] the
    number of positions where a maximal run of non-zero gold tags begins,
    whatever the tags in the run are (two entities without a tag 0 between
    them are one span), and to [FP] at most the number of positions where a
    predicted span begins. *)
Theorem gold_spans_counted_once (g p : list Z) (c : counts) :
  List.length g = List.length p ->
  exists c', passes (g ++ [0%Z]) (p ++ [0%Z]) c = Ok c' /\
             TP c' + FN c' = TP c + FN c + count (starts_at g) (List.length g) /\
             FP c' <= FP c + count (opens_at p) (List.length p).
Proof.
  intros Hlen. exists (tally c g p). split; [apply passes_tally, Hlen|].
  unfold tally, hits, misses, false_alarms. cbn [TP FN FP]. split.
  - rewrite <- (count_partition (starts_at g)
                  (fun i => agree g p i (span_end g i)) (List.length g)).
    unfold hit, miss. lia.
  - apply Nat.add_le_mono_l. apply count_le. intros k _ H.
    unfold alarm in H. apply andb_true_iff in H. apply H.
Qed.

Lemma gold_spans_counted_once_witness :
  exists c', passes ([1; 2; 1; 2; 0] ++ [0])%Z ([1; 2; 0; 1; 2] ++ [0])%Z (Counts 0 0 0) = Ok c' /\
             TP c' + FN c' = 0 + 0 + 1 /\ FP c' <= 0 + 2.
Proof.
  exact (gold_spans_counted_once [1; 2; 1; 2; 0]%Z [1; 2; 0; 1; 2]%Z (Counts 0 0 0) eq_refl).
Defined.

(** The totals of a batch.  When the inner lists of [preds] and [targets]
    are pairwise distinct objects and paired lists have one length,
    [f1_score] is the aggregation of the totals of the pairs, computed from
    the contents the lists had before the call. *)
Theorem f1_score_is_aggregate_of_spans (h : store) (preds targets : list loc) :
  NoDup (preds ++ targets) ->
  Forall2 (fun p t => List.length (h !!! p) = List.length (h !!! t)) preds targets ->
  snd (f1_score h preds targets)
  = aggregate (tally_all (contents h (zip preds targets)) (Counts 0 0 0)).
Proof.
  intros Hnd HF. apply NoDup_ListNoDup in Hnd.
  pose proof (scan_tally preds targets h (Counts 0 0 0) Hnd HF) as H.
  unfold f1_score. destruct (scan h (Counts 0 0 0) (zip preds targets)) as [h' [c|e]];
    simpl in H; [|discriminate].
  injection H as ->. reflexivity.
Qed.

Lemma f1_score_is_aggregate_of_spans_witness :
  snd (f1_score mismatching [1%positive] [2%positive])
  = aggregate (tally_all (contents mismatching (zip [1%positive] [2%positive]))
                         (Counts 0 0 0)).
Proof.
  apply (f1_score_is_aggregate_of_spans mismatching [1%positive] [2%positive]).
  - apply NoDup_ListNoDup. constructor; [|constructor; [intros []|constructor]].
    intros [H|[]]. discriminate.
  - constructor; [reflexivity|constructor].
Defined.

(** Perfect predictions.  When the inner lists are pairwise distinct
    objects and every prediction has the contents of its gold sequence,
    every gold span is a true positive and nothing else is counted:
    [f1_score] returns 1 when the batch has a gold span, and raises
    [ZeroDivisionError] when it has none. *)
Theorem perfect_predictions (h : store) (preds targets : list loc) :
  NoDup (preds ++ targets) ->
  Forall2 (fun p t => h !!! p = h !!! t) preds targets ->
  snd (scan h (Counts 0 0 0) (zip preds targets))
  = Ok (Counts (gold_spans (contents h (zip preds targets))) 0 0) /\
  (gold_spans (contents h (zip preds targets)) = 0 ->
   snd (f1_score h preds targets) = Raise (ZeroDivisionError "division by zero")) /\
  (gold_spans (contents h (zip preds targets)) <> 0 ->
   exists f, snd (f1_score h preds targets) = Ok f /\ (f == 1)%Q).
Proof.
  intros Hnd HF. apply NoDup_ListNoDup in Hnd.
  assert (Hlen : Forall2 (fun p t => List.length (h !!! p) = List.length (h !!! t))
                         preds targets).
  { eapply List.Forall2_impl; [|exact HF]. intros p t ->. reflexivity. }
  assert (Hsame : List.Forall (fun pt => fst pt = snd pt) (contents h (zip preds targets))).
  { clear -HF. induction HF as [|p t ps ts Hpt _ IH]; [constructor|].
    cbn [zip zip_with contents map]. constructor; [exact Hpt|exact IH]. }
  pose proof (scan_tally preds targets h (Counts 0 0 0) Hnd Hlen) as Hscan.
  rewrite (tally_all_same _ _ Hsame) in Hscan. cbn [TP FN FP] in Hscan.
  rewrite Nat.add_0_l in Hscan.
  split; [exact Hscan|].
  set (n := gold_spans (contents h (zip preds targets))) in *.
  assert (Hf1 : snd (f1_score h preds targets) = aggregate (Counts n 0 0)).
  { unfold f1_score. destruct (scan h (Counts 0 0 0) (zip preds targets)) as [h' [c|e]];
      simpl in Hscan; [|discriminate].
    injection Hscan as ->. reflexivity. }
  rewrite Hf1. destruct (aggregate_cases (Counts n 0 0)) as [Hraise Hvalue].
  cbn [TP FN FP] in Hraise, Hvalue. split.
  - intros Hn. apply Hraise. left. lia.
  - intros Hn. destruct Hvalue as (f & Hf & Hv); [lia|lia|].
    exists f. split; [exact Hf|]. rewrite Hv. unfold Qeq. simpl Qnum. simpl Qden.
    rewrite Zpos_of_nat by lia. lia.
Qed.

Lemma perfect_predictions_witness :
  exists f, snd (f1_score matching [1%positive] [2%positive]) = Ok f /\ (f == 1)%Q.
Proof.
  assert (Hnd : NoDup ([1%positive] ++ [2%positive])).
  { apply NoDup_ListNoDup. constructor; [|constructor; [intros []|constructor]].
    intros [H|[]]. discriminate. }
  assert (HF : Forall2 (fun p t => matching !!! p = matching !!! t)
                       [1%positive] [2%positive]).
  { constructor; [reflexivity|constructor]. }
  destruct (perfect_predictions matching [1%positive] [2%positive] Hnd HF) as (_ & _ & H).
  apply H. vm_compute. discriminate.
Defined.



(** What [f1_score] raises.  On lists of integers [f1_score] raises nothing
    but the [AssertionError] of the length check and the
    [ZeroDivisionError] of the precision or the recall: no index it reads,
    the index [-1] included, is out of range, and the division of the
    harmonic mean cannot fail. *)
Theorem f1_score_raises_only (h : store) (preds targets : list loc) (e : exn) :
  snd (f1_score h preds targets) = Raise e ->
  e = AssertionError "len(pred) == len(true)" \/
  e = ZeroDivisionError "division by zero".
Proof.
  unfold f1_score.
  destruct (scan h (Counts 0 0 0) (zip preds targets)) as [h' [c|e']] eqn:Hscan; simpl.
  - intros Hagg. right. destruct (aggregate_cases c) as [Hraise Hvalue].
    destruct (Nat.eq_dec (TP c + FP c) 0) as [E1|E1];
      [rewrite Hraise in Hagg by (left; exact E1); congruence|].
    destruct (Nat.eq_dec (TP c + FN c) 0) as [E2|E2];
      [rewrite Hraise in Hagg by (right; exact E2); congruence|].
    destruct (Hvalue E1 E2) as (f & Hf & _). congruence.
  - intros H. injection H as ->. left.
    apply (scan_raises (zip preds targets) h (Counts 0 0 0)). rewrite Hscan. reflexivity.
Qed.

Lemma f1_score_raises_only_witness :
  ZeroDivisionError "division by zero" = AssertionError "len(pred) == len(true)" \/
  ZeroDivisionError "division by zero" = ZeroDivisionError "division by zero".
Proof.
  apply (f1_score_raises_only no_entities [1%positive] [2%positive]).
  vm_compute. reflexivity.
Defined.

Lemma zip_longer_l {A B : Type} (a more : list A) (b : list B) :
  List.length a = List.length b -> zip (a ++ more) b = zip a b.
Proof.
  revert b. induction a as [|x a IH]; intros [|y b] H; try discriminate.
  - destruct more; reflexivity.
  - simpl. f_equal. apply IH. simpl in H. lia.
Qed.

Lemma zip_longer_r {A B : Type} (a : list A) (b more : list B) :
  List.length a = List.length b -> zip a (b ++ more) = zip a b.
Proof.
  revert b. induction a as [|x a IH]; intros [|y b] H; try discriminate.
  - reflexivity.
  - simpl. f_equal. apply IH. simpl in H. lia.
Qed.

(** Unpaired lists.  The outer lengths are not compared: lists of either
    argument beyond the length of the other are ignored, they are neither
    scored nor extended by a sentinel. *)
Theorem unpaired_lists_are_ignored (h : store) (preds targets more : list loc) :
  List.length preds = List.length targets ->
  f1_score h (preds ++ more) targets = f1_score h preds targets /\
  f1_score h preds (targets ++ more) = f1_score h preds targets.
Proof.
  intros Hlen. unfold f1_score.
  rewrite (zip_longer_l preds more targets Hlen), (zip_longer_r preds targets more Hlen).
  split; reflexivity.
Qed.

Lemma unpaired_lists_are_ignored_witness :
  f1_score matching ([1%positive] ++ [3%positive]) [2%positive]
  = f1_score matching [1%positive] [2%positive].
Proof.
  exact (proj1 (unpaired_lists_are_ignored matching [1%positive] [2%positive] [3%positive]
                  eq_refl)).
Defined.

End EvaluatorSpec.

(* ------------------------------------------------------------------ *)
(** * The likelihood the CRF defines *)
(* ------------------------------------------------------------------ *)

Module Likelihood.
Import Py Torch CRF Spec Examples Reductions Paths Scorer Forward Viterbi.
Local Open Scope R_scope.

Lemma exp_le_le (x y : R) : exp x <= exp y -> x <= y.
Proof.
  intros H. destruct (Rle_dec x y) as [Hle|Hnle]; [exact Hle|].
  assert (exp y < exp x) by (apply exp_increasing; lra). lra.
Qed.

Lemma exp_monotone (x y : R) : x <= y -> exp x <= exp y.
Proof.
  intros [H| ->]; [left; apply exp_increasing; exact H|right; reflexivity].
Qed.

Lemma sum_dim_le (n : nat) (f : nat -> R) (m : R) :
  (forall i, (i < n)%nat -> f i <= m) -> sum_dim n f <= INR n * m.
Proof.
  induction n as [|n IH]; intros H.
  - simpl. lra.
  - rewrite S_INR. simpl.
    assert (sum_dim n f <= INR n * m) by (apply IH; intros; apply H; lia).
    assert (f n <= m) by (apply H; lia). lra.
Qed.

Lemma list_sum_le {A : Type} (F : A -> R) (xs : list A) (m : R) :
  (forall x, In x xs -> F x <= m) -> list_sum (map F xs) <= INR (List.length xs) * m.
Proof.
  unfold list_sum. induction xs as [|x xs IH]; intros H.
  - simpl. lra.
  - cbn [List.length map fold_right]. rewrite S_INR.
    assert (fold_right Rplus 0 (map F xs) <= INR (List.length xs) * m).
    { apply IH. intros y Hy. apply H. right. exact Hy. }
    assert (F x <= m) by (apply H; left; reflexivity). lra.
Qed.

Lemma sum_dim_opp (n : nat) (f : nat -> R) : sum_dim n (fun i => - f i) = - sum_dim n f.
Proof. induction n as [|n IH]; simpl; [lra|]. rewrite IH. lra. Qed.

(** The score of a valid tag sequence is at most the partition value. *)
Lemma score_le_partition (self : CRF) (feats : tensor R) (C L : nat) (b : nat) (z : R)
      (t : list nat) :
  exp z = list_sum (map (fun t => exp (path_score self feats b t)) (all_paths C L)) ->
  valid_path C L t -> path_score self feats b t <= z.
Proof.
  intros Hexp Ht. apply exp_le_le. rewrite Hexp.
  apply (list_sum_ge_term (fun t => exp (path_score self feats b t))).
  - intros y. left. apply exp_pos.
  - apply in_all_paths. exact Ht.
Qed.








End Likelihood.

(* ------------------------------------------------------------------ *)
(** * Rounding: the layer in single precision *)
(* ------------------------------------------------------------------ *)

Module Rounding.
Import Py Torch Float32 Examples32.

(** [_log_sum_exp] over a slice of one finite entry is that entry, in every
    library that has [exp(0) = 1] and [log(1) = 0]. *)
Lemma log_sum_exp_single (lm : libm) (g : nat -> float32) (y : float32) :
  Float32.expf lm zero = one -> Float32.logf lm one = zero ->
  g 0%nat = y -> sub y y = zero -> add y zero = y ->
  CRF32._log_sum_exp lm 0 g = y.
Proof.
  intros He Hl Hg Hsub Hadd. unfold CRF32._log_sum_exp.
  cbn [CRF32.max_dim CRF32.sum_dim fst]. rewrite Hg, Hsub, He.
  replace (add zero one) with one by (vm_compute; reflexivity).
  rewrite Hl. exact Hadd.
Qed.

(** The partition value of the one-tag example. *)
Lemma partition_one_tag (lm : libm) :
  Float32.expf lm zero = one -> Float32.logf lm one = zero ->
  CRF32._log_sum_exp lm 0
    (fun j => add (fold_left (CRF32.forward_step lm crf_c feats_c 0) (seq 1 (2 - 1))
                             (fun b j0 => add (at3 feats_c b 0 j0)
                                              (CRF32.start_transitions crf_c j0))
                             0%nat j)
                  (CRF32.stop_transitions crf_c j))
  = lit 8545894 (-18).
Proof.
  intros He Hl.
  apply (log_sum_exp_single lm _ _ He Hl); [|vm_compute; reflexivity|vm_compute; reflexivity].
  cbv [fold_left seq Nat.sub CRF32.forward_step].
  rewrite (log_sum_exp_single lm _ (lit 8545894 (-18)) He Hl); vm_compute; reflexivity.
Qed.

(** C1, as stated, fails in the arithmetic of the code.  With start
    potentials [[36.3, 35.6]], no transition and no stop potential, and the
    emissions [[[30.6, 31.3], [17.2, 33.5]]], the decoder returns [[0, 1]]:
    its sums [30.6 + 36.3] and [31.3 + 35.6] round to 66.9000015 and
    66.8999939.  [_sequence_score] adds the same terms in another order and
    gives 100.39999 for [[0, 1]] and 100.40000 for [[1, 1]]. *)
Lemma decoded_sequence_not_maximal_in_float32 :
  exists best s s',
    CRF32.forward crf_a feats_a = Ok best /\
    shape best = [1; 2]%nat /\
    [at2 best 0 0; at2 best 0 1] = [0; 1]%nat /\
    CRF32._sequence_score crf_a feats_a best = Ok s /\
    CRF32._sequence_score crf_a feats_a (one_row [1; 1]%nat) = Ok s' /\
    at1 s 0 = lit 13159628 (-17) /\
    at1 s' 0 = lit 13159629 (-17) /\
    ltb (at1 s 0) (at1 s' 0) = true.
Proof.
  eexists _, _, _.
  split; [reflexivity|]. split; [reflexivity|]. split; [vm_compute; reflexivity|].
  split; [reflexivity|]. split; [reflexivity|].
  split; [vm_compute; reflexivity|]. split; vm_compute; reflexivity.
Qed.

(** C5, as stated, fails in the arithmetic of the code.  With one tag, the
    start potential 0.2 and the emissions [[[16.1], [16.3]]] there is one
    tag sequence; [_log_sum_exp] over one entry is that entry for every
    library with [exp(0) = 1] and [log(1) = 0], so [_partition_function]
    returns [(16.1 + 0.2) + 16.3 = 32.599998], below the
    [(16.1 + 16.3) + 0.2 = 32.600002] of [_sequence_score].  The same two
    numbers come out with two tags, the start potentials [[0.2, 0]] and the
    emissions [[[16.1, 0], [16.3, 0]]]. *)
Lemma partition_below_path_score_in_float32 :
  (forall lm : libm,
     Float32.expf lm zero = one -> Float32.logf lm one = zero ->
     exists z s,
       CRF32._partition_function lm crf_c feats_c = Ok z /\
       CRF32._sequence_score crf_c feats_c (one_row [0; 0]%nat) = Ok s /\
       at1 z 0 = lit 8545894 (-18) /\
       at1 s 0 = lit 8545895 (-18) /\
       ltb (at1 z 0) (at1 s 0) = true) /\
  (Float32.expf libm0 zero = one /\ Float32.logf libm0 one = zero) /\
  (exists z s,
     CRF32._partition_function libm0 crf_b feats_b = Ok z /\
     CRF32._sequence_score crf_b feats_b (one_row [0; 0]%nat) = Ok s /\
     at1 z 0 = lit 8545894 (-18) /\
     at1 s 0 = lit 8545895 (-18) /\
     ltb (at1 z 0) (at1 s 0) = true).
Proof.
  split; [|split].
  - intros lm He Hl.
    eexists _, _. split; [reflexivity|]. split; [reflexivity|].
    cbv [at1 vec data hd]. rewrite (partition_one_tag lm He Hl).
    split; [reflexivity|]. split; vm_compute; reflexivity.
  - split; vm_compute; reflexivity.
  - eexists _, _. split; [reflexivity|]. split; [reflexivity|].
    cbv [at1 vec data hd].
    assert (Hz : CRF32._log_sum_exp libm0 1
                   (fun j => add (fold_left (CRF32.forward_step libm0 crf_b feats_b 1)
                                            (seq 1 (2 - 1))
                                            (fun b j0 => add (at3 feats_b b 0 j0)
                                                             (CRF32.start_transitions crf_b j0))
                                            0%nat j)
                                 (CRF32.stop_transitions crf_b j))
                 = lit 8545894 (-18)) by (vm_compute; reflexivity).
    rewrite Hz. split; [reflexivity|]. split; vm_compute; reflexivity.
Qed.

End Rounding.
